(** * SimpleFinances: the transaction analytics of [src/App.tsx]

    A shallow embedding of the [stats] computation of the dashboard
    (account classification, net worth, transfer detection, 30-day
    spending and subscription detection) and the properties of it that
    the specification states; then of the lists that the dashboard
    renders from the data and from [stats], and of the choice of the
    address in the accounts function, with properties of theirs.

    Numbers are JavaScript numbers, that is IEEE 754 binary64 values:
    they are modelled by Rocq's primitive floats, whose operations are
    the IEEE ones (round to nearest, ties to even).  Strings are
    sequences of code units below 256.  Plain objects used as
    dictionaries are lists of own properties in insertion order, looked
    up through [Object.prototype] as the language does. *)

From Stdlib Require Import List String Ascii Bool Arith ZArith Lia.
From Stdlib Require Import Floats Permutation Sorted.
From Stdlib Require Uint63.
From Stdlib Require OrderedTypeEx.
Import ListNotations.

Set Warnings "-inexact-float".

Local Open Scope string_scope.
Local Open Scope list_scope.

(** ** JavaScript strings *)

Module JSString.

(** [String.prototype.toLowerCase] on code units below 256: the
    letters A-Z and the Latin-1 capitals U+00C0-U+00DE (the
    multiplication sign U+00D7 apart) move up by 32. *)
Definition toLowerCaseChar (c : ascii) : ascii :=
  let n := nat_of_ascii c in
  if ((65 <=? n)%nat && (n <=? 90)%nat)
     || ((192 <=? n)%nat && (n <=? 222)%nat && negb (n =? 215)%nat)
  then ascii_of_nat (n + 32) else c.

Fixpoint toLowerCase (s : string) : string :=
  match s with
  | EmptyString => EmptyString
  | String c s' => String (toLowerCaseChar c) (toLowerCase s')
  end.

(** [s.includes(sub)] *)
Fixpoint includes (s sub : string) : bool :=
  String.prefix sub s
  || match s with
     | EmptyString => false
     | String _ s' => includes s' sub
     end.

(** The class [\s] of regular expressions, below 256: TAB, LF, VT, FF,
    CR, SPACE and NO-BREAK SPACE. *)
Definition isWhiteSpace (c : ascii) : bool :=
  let n := nat_of_ascii c in
  ((9 <=? n)%nat && (n <=? 13)%nat) || (n =? 32)%nat || (n =? 160)%nat.

(** The class [a-z]. *)
Definition isLowerLetter (c : ascii) : bool :=
  let n := nat_of_ascii c in
  (97 <=? n)%nat && (n <=? 122)%nat.

(** [s.replace(/[^a-z\s]/g, ' ')] *)
Fixpoint replaceNonLetters (s : string) : string :=
  match s with
  | EmptyString => EmptyString
  | String c s' =>
      String (if isLowerLetter c || isWhiteSpace c then c else " "%char)
             (replaceNonLetters s')
  end.

(** [s.replace(/\s+/g, ' ')]; [inRun] tells that the previous code
    unit was white space, whose run already gave its one space. *)
Fixpoint collapseFrom (inRun : bool) (s : string) : string :=
  match s with
  | EmptyString => EmptyString
  | String c s' =>
      if isWhiteSpace c
      then (if inRun then collapseFrom true s'
            else String " "%char (collapseFrom true s'))
      else String c (collapseFrom false s')
  end.

Definition collapseWhiteSpace (s : string) : string := collapseFrom false s.

Fixpoint trimStart (s : string) : string :=
  match s with
  | EmptyString => EmptyString
  | String c s' => if isWhiteSpace c then trimStart s' else s
  end.

Fixpoint trimEnd (s : string) : string :=
  match s with
  | EmptyString => EmptyString
  | String c s' =>
      match trimEnd s' with
      | EmptyString => if isWhiteSpace c then EmptyString else String c EmptyString
      | r => String c r
      end
  end.

(** [s.trim()] *)
Definition trim (s : string) : string := trimEnd (trimStart s).

(** [s.split(sep)] for a separator of one code unit; the empty string
    splits into one empty word. *)
Fixpoint split (sep : ascii) (s : string) : list string :=
  match s with
  | EmptyString => [EmptyString]
  | String c s' =>
      if Ascii.eqb c sep then EmptyString :: split sep s'
      else match split sep s' with
           | w :: ws => String c w :: ws
           | [] => [String c EmptyString]
           end
  end.

(** [words.join(' ')] *)
Definition join (sep : string) (ws : list string) : string :=
  String.concat sep ws.

(** [list.includes(w)] on an array of strings. *)
Definition arrayIncludes (l : list string) (w : string) : bool :=
  existsb (String.eqb w) l.

End JSString.

(** ** JavaScript numbers *)

Module JSNumber.

Local Open Scope float_scope.

(** A number is falsy when it is [0], [-0] or [NaN]. *)
Definition falsy (x : float) : bool := PrimFloat.is_zero x || PrimFloat.is_nan x.

(** The number of an array length or of a count.  Array lengths stay
    below [2^32], far inside the range where the conversion is exact. *)
Definition ofNat (n : nat) : float := of_uint63 (Uint63.of_Z (Z.of_nat n)).

(** [Array.prototype.sort(cmp)] for a comparator that is a consistent
    order: the sort is stable, so its result is that of the stable
    insertion sort, in which [y] is put before [x] exactly when
    [cmp y x] is negative (a [NaN] result counts as [+0]).  The
    comparators [(a, b) => f(b) - f(a)] of the code are consistent when
    the values of [f] are numbers; with a [NaN] among them the order is
    left to the engine, and the properties that depend on the order of
    the result are stated for numbers. *)
Fixpoint insertSorted {A : Type} (cmp : A -> A -> float) (x : A) (l : list A)
  : list A :=
  match l with
  | [] => [x]
  | y :: l' => if cmp y x <? 0 then y :: insertSorted cmp x l' else x :: l
  end.

Definition sort {A : Type} (cmp : A -> A -> float) (l : list A) : list A :=
  fold_right (insertSorted cmp) [] l.

(** The measures below read a number through its specification
    [Prim2SF x]: a sign, a mantissa [m] and an exponent [e], of value
    [m * 2^e], with [-1074 <= e <= 971] and [m < 2^53]. *)

(** [scaled m e] is the value [m * 2^e] counted in units of the
    smallest positive number, [2^-1074]. *)
Definition scaled (m : positive) (e : Z) : Z := (Zpos m * 2 ^ (e - -1074))%Z.

(** [r] has the sign [sx], is not zero, and counts at least [K] units
    in magnitude. *)
Definition rounded (sx : bool) (K : Z) (r : spec_float) : Prop :=
  match r with
  | S754_infinity s => s = sx
  | S754_finite s m e => s = sx /\ (-1074 <= e)%Z /\ (K <= scaled m e)%Z
  | _ => False
  end.

(** Every finite number is below [2^2098] units. *)
Definition huge : Z := (2 ^ 2098)%Z.

(** The order of the numbers, as an order of integers. *)
Definition key (x : spec_float) : Z :=
  match x with
  | S754_zero _ => 0%Z
  | S754_nan => 0%Z
  | S754_infinity false => huge
  | S754_infinity true => (- huge)%Z
  | S754_finite s m e => cond_Zopp s (scaled m e)
  end.

Definition notNan (x : spec_float) : Prop := x <> S754_nan.

Definition fkey (x : float) : Z := key (Prim2SF x).

(** [x] is not [NaN]. *)
Definition isNumber (x : float) : Prop := notNan (Prim2SF x).

(** [x] is positive and counts at least [K] units. *)
Definition units (K : Z) (x : float) : Prop := rounded false K (Prim2SF x).

(** The comparator [(a, b) => f(b) - f(a)]. *)
Definition descending {A : Type} (f : A -> float) (a b : A) : float :=
  f b - f a.

(** [a] may come before [b] in the order of decreasing [f]: [f a] is not
    below [f b]. *)
Definition notBelow {A : Type} (f : A -> float) (a b : A) : Prop :=
  (fkey (f b) <= fkey (f a))%Z.

End JSNumber.

(** ** Plain objects used as dictionaries *)

Module JSObject.

(** The own properties, in insertion order, which is the order
    [Object.entries] lists them in when no name is an array index; the
    names of [subGroups], made of letters and spaces, never are. *)
Definition t (V : Type) : Type := list (string * V).

(** The property names every plain object inherits from
    [Object.prototype]. *)
Definition objectPrototypeKeys : list string :=
  [ "constructor"; "__defineGetter__"; "__defineSetter__"; "hasOwnProperty";
    "__lookupGetter__"; "__lookupSetter__"; "isPrototypeOf";
    "propertyIsEnumerable"; "toString"; "valueOf"; "__proto__";
    "toLocaleString" ].

Definition inherited (k : string) : bool :=
  existsb (String.eqb k) objectPrototypeKeys.

Fixpoint getOwn {V : Type} (o : t V) (k : string) : option V :=
  match o with
  | [] => None
  | (k', v) :: o' => if String.eqb k' k then Some v else getOwn o' k
  end.

Fixpoint setOwn {V : Type} (o : t V) (k : string) (v : V) : t V :=
  match o with
  | [] => [(k, v)]
  | (k', v') :: o' =>
      if String.eqb k' k then (k, v) :: o' else (k', v') :: setOwn o' k v
  end.

Definition keys {V : Type} (o : t V) : list string := map fst o.

End JSObject.

Import JSString.

(** ** The data of the aggregator *)

Record Transaction : Type := {
  tx_id : string;
  tx_posted : float;
  tx_amount : string;
  tx_description : string;
  tx_memo : string
}.

Record Organization : Type := {
  org_domain : string;
  org_name : string;
  org_sfin_url : string
}.

(** [acc_transactions] is [None] when the field is missing: the code
    reads [acc.transactions || []]. *)
Record Account : Type := {
  acc_id : string;
  acc_name : string;
  acc_org : Organization;
  acc_currency : string;
  acc_balance : string;
  acc_balance_date : float;
  acc_transactions : option (list Transaction)
}.

Record SimpleFINData : Type := {
  accounts : list Account;
  errors : option (list string)
}.

(** A transaction as [allTransactions] holds it: the fields of the
    transaction, [posted] replaced by its value in seconds, and the
    account and the parsed amount added. *)
Record NormTx : Type := {
  t_id : string;
  t_posted : float;
  t_amount : string;
  t_description : string;
  t_memo : string;
  t_accountId : string;
  t_amountNum : float;
  t_accountName : string
}.

Record Subscription : Type := {
  desc : string;
  amount : float;
  count : nat;
  norm : string
}.

(** A value stored in [spendingByAccount]: a number, or what [+] makes
    of a value that is no number, the string that starts with the text
    of [v] and ends with the digits of [x]. [JInherited k] is the member
    of [Object.prototype] that a lookup of [k] finds. *)
Inductive jsval : Type :=
| JNum (x : float)
| JInherited (k : string)
| JConcat (v : jsval) (x : float).

Record Report : Type := {
  netWorth : float;
  assets : float;
  liabilities : float;
  spending30d : float;
  spendingByAccount : JSObject.t jsval;
  subscriptions : list Subscription
}.

(** How a block of statements ends: normally, or by the [TypeError] of
    reading a property of [undefined]. *)
Inductive completion (A : Type) : Type :=
| Normal (a : A)
| TypeError.
Arguments Normal {A} a.
Arguments TypeError {A}.

(** ** Account classification *)

Inductive AccountType : Type :=
| Checking | Savings | CreditCard | Investment | Other.

Definition getAccountType (name : string) : AccountType :=
  let n := toLowerCase name in
  if includes n "checking" || includes n "spending" then Checking
  else if includes n "savings" || includes n "reserve" then Savings
  else if includes n "credit" || includes n "card" || includes n "visa"
          || includes n "amex" || includes n "mastercard" then CreditCard
  else if includes n "investment" || includes n "brokerage"
          || includes n "ira" || includes n "401k" then Investment
  else Other.

Definition isCreditCard (name : string) : bool :=
  match getAccountType name with CreditCard => true | _ => false end.

(** ** The grouping key of a description *)

Definition stopwords : list string := ["the"; "inc"; "com"; "payment"].

Definition cleanDesc (description : string) : string :=
  trim (collapseWhiteSpace (replaceNonLetters (toLowerCase description))).

Definition keepWord (w : string) : bool :=
  (2 <? String.length w)%nat && negb (arrayIncludes stopwords w).

Definition words (description : string) : list string :=
  filter keepWord (split " "%char (cleanDesc description)).

Definition groupingKey (description : string) : string :=
  join " " (firstn 2 (words description)).

(** ** Dictionary reads and writes of [spendingByAccount] *)

Local Open Scope float_scope.

(** [o[k]]: an own property, else the inherited member, else
    [undefined]. *)
Definition getProp (o : JSObject.t jsval) (k : string) : option jsval :=
  match JSObject.getOwn o k with
  | Some v => Some v
  | None => if JSObject.inherited k then Some (JInherited k) else None
  end.

(** [v || 0]: functions, objects and non-empty strings are truthy. *)
Definition orZero (v : option jsval) : jsval :=
  match v with
  | None => JNum 0
  | Some (JNum x) => if JSNumber.falsy x then JNum 0 else JNum x
  | Some w => w
  end.

(** [v + x] for a number [x]. *)
Definition plus (v : jsval) (x : float) : jsval :=
  match v with
  | JNum y => JNum (y + x)
  | _ => JConcat v x
  end.

(** [o[k] = v] for a number or a string [v]: the setter of [__proto__]
    ignores a value that is no object. *)
Definition setProp (o : JSObject.t jsval) (k : string) (v : jsval)
  : JSObject.t jsval :=
  if String.eqb k "__proto__" then o else JSObject.setOwn o k v.

(** ** The analytics *)

Section Stats.

(** [parseFloat] of the language, from the text of an amount or of a
    balance to its number. *)
Variable parseFloat : string -> float.

(** The timestamp in seconds: a value above 2,000,000,000 is read as
    milliseconds. *)
Definition normalizePosted (posted : float) : float :=
  if 2000000000 <? posted then posted / 1000 else posted.

Definition normalize (acc : Account) (t : Transaction) : NormTx :=
  let amountNum := parseFloat (tx_amount t) in
  let posted := normalizePosted (tx_posted t) in
  {| t_id := tx_id t;
     t_posted := posted;
     t_amount := tx_amount t;
     t_description := tx_description t;
     t_memo := tx_memo t;
     t_accountId := acc_id acc;
     t_amountNum := amountNum;
     t_accountName := acc_name acc |}.

Definition transactionsOf (acc : Account) : list Transaction :=
  match acc_transactions acc with
  | Some l => l
  | None => []
  end.

Definition allTransactions (data : SimpleFINData) : list NormTx :=
  flat_map (fun acc => map (normalize acc) (transactionsOf acc))
           (accounts data).

(** *** Net worth *)

Record Totals : Type := {
  tot_netWorth : float;
  tot_assets : float;
  tot_liabilities : float
}.

(** The body of [data.accounts.forEach]. *)
Definition addAccount (s : Totals) (acc : Account) : Totals :=
  let bal := parseFloat (acc_balance acc) in
  match getAccountType (acc_name acc) with
  | CreditCard =>
      let owe := abs bal in
      {| tot_netWorth := tot_netWorth s - owe;
         tot_assets := tot_assets s;
         tot_liabilities := tot_liabilities s + owe |}
  | _ =>
      {| tot_netWorth := tot_netWorth s + bal;
         tot_assets := if 0 <? bal then tot_assets s + bal else tot_assets s;
         tot_liabilities :=
           if 0 <? bal then tot_liabilities s
           else tot_liabilities s + abs bal |}
  end.

Definition totals (accs : list Account) : Totals :=
  fold_left addAccount accs
            {| tot_netWorth := 0; tot_assets := 0; tot_liabilities := 0 |}.

(** *** Transfers *)

(** The test of [isTransfer] on one candidate [other]. *)
Definition matches (t other : NormTx) : bool :=
  negb (String.eqb (t_id other) (t_id t))
  && (abs (t_amountNum other + t_amountNum t) <? 0.001)
  && (abs (t_posted other - t_posted t) <? 259200).

Definition isTransfer (all : list NormTx) (t : NormTx) : bool :=
  existsb (matches t) all.

(** *** The loop over all transactions *)

Record LoopState : Type := {
  st_spending30d : float;
  st_spendingByAccount : JSObject.t jsval;
  st_subGroups : JSObject.t (list NormTx)
}.

Definition countsAsSpending (monthAgo : float) (all : list NormTx)
           (t : NormTx) : bool :=
  (monthAgo <=? t_posted t) && (t_amountNum t <? 0) && negb (isTransfer all t).

Definition addSpending (monthAgo : float) (all : list NormTx)
           (st : LoopState) (t : NormTx) : LoopState :=
  let amt := t_amountNum t in
  if countsAsSpending monthAgo all t then
    {| st_spending30d := st_spending30d st + abs amt;
       st_spendingByAccount :=
         setProp (st_spendingByAccount st) (t_accountName t)
                 (plus (orZero (getProp (st_spendingByAccount st)
                                        (t_accountName t)))
                       (abs amt));
       st_subGroups := st_subGroups st |}
  else st.

Definition isGrouped (all : list NormTx) (t : NormTx) : bool :=
  (t_amountNum t <? 0) && negb (isTransfer all t)
  && (3 <=? String.length (groupingKey (t_description t)))%nat.

(** [subGroups[norm]] is truthy for an inherited name too, and then
    has no [transactions] to push to. *)
Definition addToGroup (all : list NormTx) (st : LoopState) (t : NormTx)
  : completion LoopState :=
  if isGrouped all t then
    let norm := groupingKey (t_description t) in
    let withGroup txs :=
      {| st_spending30d := st_spending30d st;
         st_spendingByAccount := st_spendingByAccount st;
         st_subGroups := JSObject.setOwn (st_subGroups st) norm txs |} in
    match JSObject.getOwn (st_subGroups st) norm with
    | Some txs => Normal (withGroup (txs ++ [t]))
    | None =>
        if JSObject.inherited norm then TypeError
        else Normal (withGroup [t])
    end
  else Normal st.

Definition body (monthAgo : float) (all : list NormTx)
           (st : LoopState) (t : NormTx) : completion LoopState :=
  addToGroup all (addSpending monthAgo all st t) t.

Fixpoint forEach {S A : Type} (f : S -> A -> completion S)
         (l : list A) (s : S) : completion S :=
  match l with
  | [] => Normal s
  | x :: l' =>
      match f s x with
      | Normal s' => forEach f l' s'
      | TypeError => TypeError
      end
  end.

Definition initialState : LoopState :=
  {| st_spending30d := 0; st_spendingByAccount := []; st_subGroups := [] |}.

(** *** Subscriptions *)

Definition byPostedDesc (a b : NormTx) : float := t_posted b - t_posted a.

Definition amountsOf (txs : list NormTx) : list float :=
  map (fun t => abs (t_amountNum t)) txs.

Definition average (amounts : list float) : float :=
  fold_left (fun a b => a + b) amounts 0 / JSNumber.ofNat (List.length amounts).

Definition withinTolerance (avg a : float) : bool :=
  (abs (a - avg) / avg <? 0.3) || (abs (a - avg) <? 10).

Definition consistentAmount (amounts : list float) : bool :=
  forallb (withinTolerance (average amounts)) amounts.

(** [txs] is sorted, newest first. *)
Definition hasTimeSpread (txs : list NormTx) : bool :=
  match txs with
  | [] => false
  | newest :: _ =>
      5 * 24 * 60 * 60 <? abs (t_posted newest - t_posted (last txs newest))
  end.

(** The body of [Object.entries(subGroups).forEach]: what one group
    pushes on [rawSubscriptions]. *)
Definition candidate (entry : string * list NormTx) : list Subscription :=
  let '(norm, transactions) := entry in
  let txs := JSNumber.sort byPostedDesc transactions in
  if (2 <=? List.length txs)%nat then
    let amounts := amountsOf txs in
    let avg := average amounts in
    if consistentAmount amounts && hasTimeSpread txs && (1 <? avg) then
      match txs with
      | newest :: _ =>
          [ {| desc := t_description newest;
               amount := avg;
               count := List.length txs;
               norm := norm |} ]
      | [] => []
      end
    else []
  else [].

Definition rawSubscriptions (subGroups : JSObject.t (list NormTx))
  : list Subscription :=
  flat_map candidate subGroups.

Definition byCountDesc (a b : Subscription) : float :=
  JSNumber.ofNat (count b) - JSNumber.ofNat (count a).

Definition byAmountDesc (a b : Subscription) : float := amount b - amount a.

(** The loop that fills [subscriptions], [seenNorms] being the set of
    keys met so far. *)
Fixpoint dedup (seenNorms : list string) (subs : list Subscription)
  : list Subscription :=
  match subs with
  | [] => []
  | sub :: subs' =>
      if arrayIncludes seenNorms (norm sub) then dedup seenNorms subs'
      else sub :: dedup (norm sub :: seenNorms) subs'
  end.

Definition reported (raw : list Subscription) : list Subscription :=
  firstn 20 (JSNumber.sort byAmountDesc
               (dedup [] (JSNumber.sort byCountDesc raw))).

(** *** [stats] *)

Definition emptyReport : Report :=
  {| netWorth := 0; assets := 0; liabilities := 0; spending30d := 0;
     spendingByAccount := []; subscriptions := [] |}.

(** [dateNow] is the value of [Date.now()], in milliseconds. *)
Definition stats (data : option SimpleFINData) (dateNow : float)
  : completion Report :=
  match data with
  | None => Normal emptyReport
  | Some data =>
      let now := dateNow / 1000 in
      let monthAgo := now - 30 * 24 * 60 * 60 in
      let all := allTransactions data in
      let tot := totals (accounts data) in
      match forEach (body monthAgo all) all initialState with
      | TypeError => TypeError
      | Normal st =>
          Normal
            {| netWorth := tot_netWorth tot;
               assets := tot_assets tot;
               liabilities := tot_liabilities tot;
               spending30d := st_spending30d st;
               spendingByAccount := st_spendingByAccount st;
               subscriptions := reported (rawSubscriptions (st_subGroups st)) |}
      end
  end.

End Stats.

(** ** A reader of plain decimal texts

    [parseDecimal] reads an optional sign, digits and an optional
    fraction, and stops at the first other character, as [parseFloat]
    does.  The number is one division of two integers, which is the
    correctly rounded value, the value [parseFloat] returns, as long as
    both integers are exactly representable: at most fifteen digits.
    It is the [parseFloat] of the evaluations below; the theorems hold
    for every [parseFloat]. *)

Module Decimal.

Definition digitOf (c : ascii) : option Z :=
  let n := nat_of_ascii c in
  if (48 <=? n)%nat && (n <=? 57)%nat then Some (Z.of_nat (n - 48)) else None.

Fixpoint readDigits (s : string) (m : Z) (k : nat) : Z * nat * string :=
  match s with
  | EmptyString => (m, k, s)
  | String c s' =>
      match digitOf c with
      | Some d => readDigits s' (10 * m + d)%Z (S k)
      | None => (m, k, s)
      end
  end.

Definition ofZ (z : Z) : float := of_uint63 (Uint63.of_Z z).

Definition parseUnsigned (s : string) : float :=
  let '(m1, k1, rest) := readDigits s 0%Z 0%nat in
  match rest with
  | String "."%char rest' =>
      let '(m2, k2, _) := readDigits rest' m1 0%nat in
      if (k1 + k2 =? 0)%nat then nan
      else ofZ m2 / ofZ (10 ^ Z.of_nat k2)
  | _ => if (k1 =? 0)%nat then nan else ofZ m1
  end.

Definition parseDecimal (s : string) : float :=
  match trimStart s with
  | String "-"%char s' => - parseUnsigned s'
  | String "+"%char s' => parseUnsigned s'
  | s' => parseUnsigned s'
  end.

End Decimal.

(** ** The closed form of the specification for the net worth

    The two sums the specification names, each accumulated from [0] in
    the order of the accounts. *)

Definition sumNonCreditCard (parseFloat : string -> float)
           (accs : list Account) : float :=
  fold_left (fun a b => a + b)
            (map (fun acc => parseFloat (acc_balance acc))
                 (filter (fun acc => negb (isCreditCard (acc_name acc))) accs))
            0.

Definition sumCreditCardDebt (parseFloat : string -> float)
           (accs : list Account) : float :=
  fold_left (fun a b => a + b)
            (map (fun acc => abs (parseFloat (acc_balance acc)))
                 (filter (fun acc => isCreditCard (acc_name acc)) accs))
            0.

(** ** Inputs of the evaluations *)

Module Examples.

Import Decimal.

Definition noOrg : Organization :=
  {| org_domain := ""; org_name := ""; org_sfin_url := "" |}.

Definition mkTx (id : string) (posted : float) (amount description : string)
  : Transaction :=
  {| tx_id := id; tx_posted := posted; tx_amount := amount;
     tx_description := description; tx_memo := "" |}.

Definition mkAccount (id name balance : string) (txs : list Transaction)
  : Account :=
  {| acc_id := id; acc_name := name; acc_org := noOrg; acc_currency := "USD";
     acc_balance := balance; acc_balance_date := 0;
     acc_transactions := Some txs |}.

Definition mkData (accs : list Account) : SimpleFINData :=
  {| accounts := accs; errors := None |}.

(** The clock of the evaluations: [Date.now()] is 1,700,000,000,000 ms. *)
Definition dateNow : float := 1700000000000.
Definition now : float := 1700000000.
Definition day : float := 86400.

(** A checking account, a credit card and a savings account. *)
Definition balancesData : SimpleFINData :=
  mkData [ mkAccount "1" "Total Checking" "5240.50" [];
           mkAccount "2" "Platinum Card" "1250.00" [];
           mkAccount "3" "Premier Savings" "12045.33" [] ].

(** A transfer of 1000 between two accounts, one day apart. *)
Definition transferData : SimpleFINData :=
  mkData [ mkAccount "A" "Total Checking" "0"
             [ mkTx "out" now "-1000.00" "Transfer to savings" ];
           mkAccount "B" "Premier Savings" "0"
             [ mkTx "in" (now + day) "1000.00" "Transfer from checking" ] ].

End Examples.

(** ** Groups and spending, as the specification describes them *)

(** The members of the group of key [k] among the transactions [l]: the
    negative, non-transfer transactions whose key is [k], a key of at
    least three characters. *)
Definition groupMembers (all : list NormTx) (k : string) (l : list NormTx)
  : list NormTx :=
  filter (fun t => isGrouped all t
                   && String.eqb (groupingKey (t_description t)) k) l.

(** The transactions of [l] that count as spending of the account name
    [name]. *)
Definition spentBy (monthAgo : float) (all : list NormTx) (name : string)
           (l : list NormTx) : list NormTx :=
  filter (fun t => countsAsSpending monthAgo all t
                   && String.eqb (t_accountName t) name) l.

(** The amounts of [l] in absolute value, added from [0] in the order of
    the list. *)
Definition sumAbs (l : list NormTx) : float :=
  fold_left (fun s t => s + abs (t_amountNum t)) l 0.

(** What the loop has built of [subGroups] once the transactions [done]
    are behind it. *)
Definition GroupsBuilt (all done : list NormTx)
           (subGroups : JSObject.t (list NormTx)) : Prop :=
  NoDup (JSObject.keys subGroups)
  /\ (forall k txs,
         JSObject.getOwn subGroups k = Some txs ->
         txs = groupMembers all k done /\ txs <> []
         /\ JSObject.inherited k = false)
  /\ (forall t,
         In t done -> isGrouped all t = true ->
         In (groupingKey (t_description t)) (JSObject.keys subGroups)).

(** What the loop has built of [spendingByAccount]. *)
Definition SpendingBuilt (monthAgo : float) (all done : list NormTx)
           (byAccount : JSObject.t jsval) : Prop :=
  NoDup (JSObject.keys byAccount)
  /\ (forall name v,
         JSObject.getOwn byAccount name = Some v ->
         spentBy monthAgo all name done <> []
         /\ v = JNum (sumAbs (spentBy monthAgo all name done)))
  /\ (forall t,
         In t done -> countsAsSpending monthAgo all t = true ->
         In (t_accountName t) (JSObject.keys byAccount)).

(** ** What makes a group a subscription, in the words of the specification *)

(** The most recent and the oldest member: the first and the last of the
    members sorted by decreasing timestamp. *)
Definition newestOf (members : list NormTx) : option NormTx :=
  hd_error (JSNumber.sort byPostedDesc members).

Definition oldestOf (members : list NormTx) : option NormTx :=
  hd_error (rev (JSNumber.sort byPostedDesc members)).

(** The average of the amounts in absolute value, added in the order of
    the sorted members. *)
Definition groupAverage (members : list NormTx) : float :=
  average (amountsOf (JSNumber.sort byPostedDesc members)).

(** Every amount is within 30% of the average or within 10 of it, the
    newest and the oldest member are more than five days apart, and the
    average exceeds 1. *)
Definition Qualifies (members : list NormTx) : Prop :=
  let avg := groupAverage members in
  (forall t, In t members ->
             (abs (abs (t_amountNum t) - avg) / avg <? 0.3) = true
             \/ (abs (abs (t_amountNum t) - avg) <? 10) = true)
  /\ (exists newest oldest,
         newestOf members = Some newest /\ oldestOf members = Some oldest
         /\ (432000 <? abs (t_posted newest - t_posted oldest)) = true)
  /\ (1 <? avg) = true.

(** What a qualifying group of key [k] is reported as. *)
Definition recordOf (k : string) (members : list NormTx) (newest : NormTx)
  : Subscription :=
  {| desc := t_description newest;
     amount := groupAverage members;
     count := List.length members;
     norm := k |}.


Module SubscriptionExamples.

Import Examples.

(** Two purchases at one grocer, 29 days apart, a fuel stop and a
    salary. *)
Definition groceryData : SimpleFINData :=
  mkData [ mkAccount "1" "Total Checking" "5240.50"
             [ mkTx "t1" (now - 1 * day) "-120.00" "Whole Foods Market";
               mkTx "t2" (now - 3 * day) "-45.50" "Chevron Gas Station";
               mkTx "t3" (now - 30 * day) "-120.00" "Whole Foods Market";
               mkTx "t4" (now - 5 * day) "3500.00" "Payroll Deposit" ] ].

Definition groceryTransactions : list NormTx :=
  allTransactions Decimal.parseDecimal groceryData.

(** Two services at the same price. *)
Definition tieData : SimpleFINData :=
  mkData [ mkAccount "1" "Total Checking" "100.00"
             [ mkTx "n1" (now - 1 * day) "-15.99" "Netflix";
               mkTx "s1" (now - 2 * day) "-15.99" "Spotify";
               mkTx "n2" (now - 31 * day) "-15.99" "Netflix";
               mkTx "s2" (now - 32 * day) "-15.99" "Spotify" ] ].

(** Twenty-one services, of 2.00 to 22.00 a month. *)
Definition services : list (string * string) :=
  [ ("alpha", "-2.00"); ("bravo", "-3.00"); ("charlie", "-4.00");
    ("delta", "-5.00"); ("echo", "-6.00"); ("foxtrot", "-7.00");
    ("golf", "-8.00"); ("hotel", "-9.00"); ("india", "-10.00");
    ("juliet", "-11.00"); ("kilo", "-12.00"); ("lima", "-13.00");
    ("mike", "-14.00"); ("november", "-15.00"); ("oscar", "-16.00");
    ("papa", "-17.00"); ("quebec", "-18.00"); ("romeo", "-19.00");
    ("sierra", "-20.00"); ("tango", "-21.00"); ("uniform", "-22.00") ].

Definition capData : SimpleFINData :=
  mkData [ mkAccount "1" "Total Checking" "100.00"
             (flat_map (fun s =>
                          [ mkTx (fst s ++ "-1") (now - 1 * day) (snd s) (fst s);
                            mkTx (fst s ++ "-2") (now - 31 * day) (snd s) (fst s) ])
                       services) ].

End SubscriptionExamples.

(** ** The breakdown summed, in the words of the specification

    The values of a dictionary added from [0] in the order of its own
    properties, when they are all numbers. *)
Definition sumValues (o : JSObject.t jsval) : option float :=
  fold_left (fun acc kv =>
               match acc, snd kv with
               | Some a, JNum x => Some (a + x)
               | _, _ => None
               end)
            o (Some 0).

Module SpendingExamples.

Import Examples.

(** One purchase on a checking account, two on a credit card. *)
Definition threePurchases : SimpleFINData :=
  mkData [ mkAccount "1" "Total Checking" "5240.50"
             [ mkTx "p1" (now - 1 * day) "-9.99" "Netflix" ];
           mkAccount "2" "Platinum Card" "1250.00"
             [ mkTx "p2" (now - 2 * day) "-14.99" "Spotify";
               mkTx "p3" (now - 3 * day) "-120.00" "Whole Foods Market" ] ].

(** Two accounts named after members of [Object.prototype]. *)
Definition inheritedNames : SimpleFINData :=
  mkData [ mkAccount "1" "constructor" "100.00"
             [ mkTx "q1" (now - 1 * day) "-45.50" "Chevron Gas Station" ];
           mkAccount "2" "__proto__" "100.00"
             [ mkTx "q2" (now - 2 * day) "-7.25" "Corner Coffee Shop" ] ].

(** A purchase whose description has the single word "constructor". *)
Definition inheritedKey : SimpleFINData :=
  mkData [ mkAccount "1" "Total Checking" "100.00"
             [ mkTx "q3" (now - 1 * day) "-45.50" "CONSTRUCTOR 0042" ] ].

End SpendingExamples.

(** ** The words of a description, as runs of letters *)

(** [runsFrom sep s]: the run of code units at the head of [s] up to the
    first separator, which is empty when [s] starts with a separator,
    and the non-empty runs between separators after it. *)
Fixpoint runsFrom (sep : ascii -> bool) (s : string) : string * list string :=
  match s with
  | EmptyString => (EmptyString, [])
  | String c s' =>
      let '(w, ts) := runsFrom sep s' in
      if sep c
      then (EmptyString, match w with EmptyString => ts | _ => w :: ts end)
      else (String c w, ts)
  end.

(** The separator of [split(' ')]. *)
Definition isSpace (c : ascii) : bool := Ascii.eqb c " "%char.

(** The maximal non-empty runs of code units that are no separators. *)
Definition runs (sep : ascii -> bool) (s : string) : list string :=
  let '(w, ts) := runsFrom sep s in
  match w with EmptyString => ts | _ => w :: ts end.

(** The maximal runs of letters a-z. *)
Definition letterRuns (s : string) : list string :=
  runs (fun c => negb (isLowerLetter c)) s.

(** Every white space of [s] is a space. *)
Fixpoint spaceOnly (s : string) : Prop :=
  match s with
  | EmptyString => True
  | String c s' => (isWhiteSpace c = true -> c = " "%char) /\ spaceOnly s'
  end.

(** ** The key with the other characters deleted

    The key as the specification words it, the characters that are no
    letters and no white space stripped from the description. *)

Fixpoint stripNonLetters (s : string) : string :=
  match s with
  | EmptyString => EmptyString
  | String c s' =>
      if isLowerLetter c || isWhiteSpace c
      then String c (stripNonLetters s')
      else stripNonLetters s'
  end.

Definition strippedKey (description : string) : string :=
  join " "
       (firstn 2
          (filter keepWord
             (split " "%char
                (trim (collapseWhiteSpace
                         (stripNonLetters (toLowerCase description))))))).

(** ** The characters of a key *)

(** Every code unit of [s] satisfies [p]. *)
Fixpoint allOf (p : ascii -> bool) (s : string) : bool :=
  match s with
  | EmptyString => true
  | String c s' => p c && allOf p s'
  end.

(** The code units a key is made of: the letters a-z and the space. *)
Definition keyCharacter (c : ascii) : bool := isLowerLetter c || isSpace c.

(** ** The data without the amounts that are no numbers *)

(** [isParsed t]: the amount of [t] is read as a number, not as [NaN]. *)
Definition isParsed (parseFloat : string -> float) (t : Transaction) : bool :=
  negb (PrimFloat.is_nan (parseFloat (tx_amount t))).

(** The data with the other transactions taken out of every account. *)
Definition withoutUnparsed (parseFloat : string -> float)
           (data : SimpleFINData) : SimpleFINData :=
  {| accounts :=
       map (fun acc =>
              {| acc_id := acc_id acc;
                 acc_name := acc_name acc;
                 acc_org := acc_org acc;
                 acc_currency := acc_currency acc;
                 acc_balance := acc_balance acc;
                 acc_balance_date := acc_balance_date acc;
                 acc_transactions :=
                   Some (filter (isParsed parseFloat) (transactionsOf acc)) |})
           (accounts data);
     errors := errors data |}.

(** The same test on a transaction of [allTransactions]. *)
Definition parsed (t : NormTx) : bool := negb (PrimFloat.is_nan (t_amountNum t)).

(** ** The accounts function of [netlify/functions/accounts.ts]

    The first part of the handler, which chooses the address to
    request: from its first line up to the call of [new URL].  What the
    handler answers after that, the status and the body of the server
    it asks, or 500 when the request fails, is no part of the model. *)

Module AccountsFunction.

Local Open Scope string_scope.

(** [s.endsWith(suffix)] *)
Fixpoint endsWith (s suffix : string) : bool :=
  String.eqb s suffix
  || match s with
     | EmptyString => false
     | String _ s' => endsWith s' suffix
     end.

(** [a || b] on values that are a string or [undefined]: the empty
    string is falsy. *)
Definition orElse (a b : option string) : option string :=
  match a with
  | Some (String _ _) => a
  | _ => b
  end.

Definition cleanUrl (targetUrl : string) : string :=
  if negb (endsWith targetUrl "/accounts")
     && negb (endsWith targetUrl "/accounts/")
  then (if endsWith targetUrl "/" then targetUrl ++ "accounts"
        else targetUrl ++ "/accounts")
  else targetUrl.

(** How the first part ends: by the [return] of the guard, which
    answers 401 before any address is built and any request made, or
    with the address that the handler goes on with. *)
Inductive Target : Type :=
| GuardReturn
| Address (cleanUrl : string).

(** [env] is [process.env.VITE_SIMPLEFIN_ACCESS_URL] and [header] is
    the header [x-simplefin-url] of the event. *)
Definition target (env header : option string) : Target :=
  match orElse env header with
  | Some (String c s) => Address (cleanUrl (String c s))
  | _ => GuardReturn
  end.

End AccountsFunction.

(** ** The order of the own properties

    [Object.entries] lists the properties whose name is an array index
    first, by increasing index, and the others after them, in the order
    of their creation. *)

Module OwnProperties.

Fixpoint digitsValue (s : string) (n : Z) : option Z :=
  match s with
  | EmptyString => Some n
  | String c s' =>
      match Decimal.digitOf c with
      | Some d => digitsValue s' (10 * n + d)%Z
      | None => None
      end
  end.

(** The index that [k] is the canonical text of: digits with no leading
    zero, of a value up to [2^32 - 2]. *)
Definition arrayIndex (k : string) : option Z :=
  match k with
  | EmptyString => None
  | String "0"%char EmptyString => Some 0%Z
  | String "0"%char _ => None
  | _ =>
      match digitsValue k 0 with
      | Some n => if (n <=? 4294967294)%Z then Some n else None
      | None => None
      end
  end.

Definition isNamed {V : Type} (e : string * V) : bool :=
  match arrayIndex (fst e) with
  | Some _ => false
  | None => true
  end.

Fixpoint insertByIndex {V : Type} (x : Z * (string * V))
         (l : list (Z * (string * V))) : list (Z * (string * V)) :=
  match l with
  | [] => [x]
  | y :: l' => if (fst y <? fst x)%Z then y :: insertByIndex x l' else x :: l
  end.

Definition indexed {V : Type} (o : JSObject.t V) : list (Z * (string * V)) :=
  flat_map (fun e => match arrayIndex (fst e) with
                     | Some i => [(i, e)]
                     | None => []
                     end) o.

(** [Object.entries(o)] *)
Definition entries {V : Type} (o : JSObject.t V) : list (string * V) :=
  map snd (fold_right insertByIndex [] (indexed o)) ++ filter isNamed o.

End OwnProperties.

(** ** The panels of the dashboard

    The lists that the component renders from the data and from
    [stats]. *)

(** *** Recent activity *)

(** A transaction as the panel holds it: the fields of the
    transaction, the name of its account and its date in seconds. *)
Record ActivityTx : Type := {
  a_transaction : Transaction;
  a_accountName : string;
  a_postedDate : float
}.

(** [Number(t.posted)] is [t.posted], a number already. *)
Definition activityOf (acc : Account) (t : Transaction) : ActivityTx :=
  {| a_transaction := t;
     a_accountName := acc_name acc;
     a_postedDate :=
       if 2000000000 <? tx_posted t then tx_posted t / 1000 else tx_posted t |}.

Definition byPostedDateDesc (a b : ActivityTx) : float :=
  a_postedDate b - a_postedDate a.

Definition allTxs (data : SimpleFINData) : list ActivityTx :=
  JSNumber.sort byPostedDateDesc
    (flat_map (fun acc => map (activityOf acc) (transactionsOf acc))
              (accounts data)).

(** The rows of the panel; with none, the panel says that no activity
    was found. *)
Definition recentActivity (data : SimpleFINData) : list ActivityTx :=
  firstn 100 (allTxs data).

(** *** The accounts that spent most *)

(** [ToNumber] of a value stored in [spendingByAccount].  The strings
    that [plus] builds start with the text of a member of
    [Object.prototype], which is no numeral. *)
Definition toNumber (v : jsval) : float :=
  match v with
  | JNum x => x
  | _ => nan
  end.

Definition byValueDesc (a b : string * jsval) : float :=
  toNumber (snd b) - toNumber (snd a).

Definition topSpending (spendingByAccount : JSObject.t jsval)
  : list (string * jsval) :=
  firstn 2 (JSNumber.sort byValueDesc (OwnProperties.entries spendingByAccount)).

(** *** The accounts, by institution and by class *)

Section AccountsPanel.

(** [a.localeCompare(b)], which depends on the locale of the browser. *)
Variable localeCompare : string -> string -> float.

(** [acc.org?.name || 'Other Institutions'].  The record has an
    organization in every account, as the interface declares; the code
    also takes an account with none, which it treats as one whose
    organization has the empty name. *)
Definition orgNameOf (acc : Account) : string :=
  match org_name (acc_org acc) with
  | EmptyString => "Other Institutions"
  | name => name
  end.

(** The body of [data.accounts.reduce]: [groups[orgName]] is truthy for
    an inherited name too, and then has no [push] to call. *)
Definition addToBank (groups : JSObject.t (list Account)) (acc : Account)
  : completion (JSObject.t (list Account)) :=
  let orgName := orgNameOf acc in
  match JSObject.getOwn groups orgName with
  | Some accs => Normal (JSObject.setOwn groups orgName (accs ++ [acc]))
  | None =>
      if JSObject.inherited orgName then TypeError
      else Normal (JSObject.setOwn groups orgName [acc])
  end.

Definition bankGroups (data : SimpleFINData)
  : completion (JSObject.t (list Account)) :=
  forEach addToBank (accounts data) [].

Definition byBankName (a b : string * list Account) : float :=
  localeCompare (fst a) (fst b).

Definition byAccountName (a b : Account) : float :=
  localeCompare (acc_name a) (acc_name b).

Definition sameType (a b : AccountType) : bool :=
  match a, b with
  | Checking, Checking | Savings, Savings | CreditCard, CreditCard
  | Investment, Investment | Other, Other => true
  | _, _ => false
  end.

(** The classes, in the order of the panel. *)
Definition accountTypes : list AccountType :=
  [Checking; Savings; CreditCard; Investment; Other].

(** The accounts of one class of a bank, sorted by name; [None] when
    the bank has no account of the class. *)
Definition typeSection (bankAccounts : list Account) (type : AccountType)
  : option (AccountType * list Account) :=
  let typeAccs :=
    filter (fun a => sameType (getAccountType (acc_name a)) type) bankAccounts in
  if (List.length typeAccs =? 0)%nat then None
  else Some (type, JSNumber.sort byAccountName typeAccs).

(** The panel: the banks sorted by name, each with its sections. *)
Definition accountsPanel (data : SimpleFINData)
  : completion (list (string * list (option (AccountType * list Account)))) :=
  match bankGroups data with
  | TypeError => TypeError
  | Normal groups =>
      Normal (map (fun bank => (fst bank,
                                map (typeSection (snd bank)) accountTypes))
                  (JSNumber.sort byBankName (OwnProperties.entries groups)))
  end.

End AccountsPanel.

(** The accounts that a bank of the panel lists. *)
Definition listedIn (sections : list (option (AccountType * list Account)))
  : list Account :=
  flat_map (fun s => match s with
                     | Some (_, accs) => accs
                     | None => []
                     end) sections.

(** What [reduce] has built of the groups once the accounts [done] are
    behind it. *)
Definition BanksBuilt (done : list Account)
           (groups : JSObject.t (list Account)) : Prop :=
  NoDup (JSObject.keys groups)
  /\ (forall k accs,
         JSObject.getOwn groups k = Some accs ->
         accs = filter (fun a => String.eqb (orgNameOf a) k) done
         /\ accs <> [] /\ JSObject.inherited k = false)
  /\ (forall a, In a done -> In (orgNameOf a) (JSObject.keys groups)).

(** ** A keyword inside a name *)

(** [k] occurs in [s]: some characters, then [k], then the rest. *)
Definition occursIn (k s : string) : Prop :=
  exists a b, s = (a ++ k ++ b)%string.

(** ** Two runs that end alike *)

(** Both computations end by the [TypeError], or both end normally,
    with results that [R] relates. *)
Definition bothEnd {A B : Type} (R : A -> B -> Prop)
           (a : completion A) (b : completion B) : Prop :=
  match a, b with
  | Normal x, Normal y => R x y
  | TypeError, TypeError => True
  | _, _ => False
  end.

(** ** Inputs of the evaluations of the panels *)

Module DashboardExamples.

Import Examples.

(** An account whose balance is no numeral. *)
Definition unreadBalance : SimpleFINData :=
  mkData [ mkAccount "1" "Total Checking" "5240.50" [];
           mkAccount "2" "Old Savings" "n/a" [] ].

(** A locale that orders the names by their code units. *)
Definition codeUnitCompare (a b : string) : float :=
  match String.compare a b with
  | Lt => -1
  | Eq => 0
  | Gt => 1
  end.

Definition bank (name : string) : Organization :=
  {| org_domain := ""; org_name := name; org_sfin_url := "" |}.

Definition mkBankAccount (id name : string) (org : Organization)
           (balance : string) : Account :=
  {| acc_id := id; acc_name := name; acc_org := org; acc_currency := "USD";
     acc_balance := balance; acc_balance_date := 0;
     acc_transactions := Some [] |}.

(** Four accounts at three institutions, and one whose institution has
    no name. *)
Definition fiveAccounts : SimpleFINData :=
  mkData [ mkBankAccount "1" "Total Checking" (bank "Chase Bank") "5240.50";
           mkBankAccount "2" "High Yield Savings" (bank "Chase Bank") "25000.00";
           mkBankAccount "3" "Platinum Card" (bank "American Express") "1250.00";
           mkBankAccount "4" "Brokerage Account" (bank "Fidelity Investments")
                         "45200.00";
           mkBankAccount "5" "Cash" noOrg "40.00" ].

End DashboardExamples.

(** * Properties *)

(** ** Binary64 arithmetic

    What the proofs below use of the arithmetic of numbers, from the
    specification of the primitive operations ([FloatAxioms]). *)

Module Binary64.

Import JSNumber.
Local Open Scope Z_scope.

Abbreviation fexp := (SpecFloat.fexp prec emax).


Lemma fexp_val e : fexp e = Z.max (e - 53) (-1074).
Proof. reflexivity. Qed.

(** *** Binary digits *)

Lemma digits2_pos_bounds (p : positive) :
  2 ^ (Zpos (digits2_pos p) - 1) <= Zpos p < 2 ^ Zpos (digits2_pos p).
Proof.
  induction p as [p IH | p IH | ]; simpl digits2_pos.
  - rewrite Pos2Z.inj_succ.
    replace (Z.succ (Zpos (digits2_pos p)) - 1) with (Z.succ (Zpos (digits2_pos p) - 1)) by lia.
    rewrite !Z.pow_succ_r by lia. lia.
  - rewrite Pos2Z.inj_succ.
    replace (Z.succ (Zpos (digits2_pos p)) - 1) with (Z.succ (Zpos (digits2_pos p) - 1)) by lia.
    rewrite !Z.pow_succ_r by lia. lia.
  - simpl. lia.
Qed.

Lemma digits2_pos_iter_xO (p d : positive) :
  digits2_pos (Pos.iter xO p d) = (digits2_pos p + d)%positive.
Proof.
  revert p. induction d as [ | d IH] using Pos.peano_ind; intros p.
  - simpl. lia.
  - rewrite Pos.iter_succ. simpl. rewrite IH. lia.
Qed.

(** *** Shifting right *)

Lemma shr_1_m (mrs : shr_record) :
  0 <= shr_m mrs -> shr_m (shr_1 mrs) = shr_m mrs / 2.
Proof.
  destruct mrs as [m r s]; simpl. intros Hm.
  destruct m as [ | [p | p | ] | p ]; simpl shr_m; try lia.
  - reflexivity.
  - apply Z.div_unique with (r := 1); lia.
  - apply Z.div_unique with (r := 0); lia.
  - reflexivity.
Qed.

Lemma iter_shr_1_m (p : positive) (mrs : shr_record) :
  0 <= shr_m mrs ->
  shr_m (iter_pos shr_1 p mrs) = shr_m mrs / 2 ^ Zpos p.
Proof.
  revert mrs. induction p as [p IH | p IH | ]; intros mrs Hm; simpl iter_pos.
  - assert (H1 : 0 <= shr_m (shr_1 mrs))
      by (rewrite shr_1_m by assumption; apply Z.div_pos; lia).
    assert (H2 : 0 <= shr_m (iter_pos shr_1 p (shr_1 mrs)))
      by (rewrite IH by assumption; apply Z.div_pos; lia).
    rewrite IH, IH, shr_1_m by assumption.
    rewrite !Z.div_div by lia.
    f_equal.
    replace (Zpos p~1) with (1 + Zpos p + Zpos p) by lia.
    rewrite !Z.pow_add_r by lia. lia.
  - assert (H2 : 0 <= shr_m (iter_pos shr_1 p mrs))
      by (rewrite IH by assumption; apply Z.div_pos; lia).
    rewrite IH, IH by assumption.
    rewrite !Z.div_div by lia.
    f_equal.
    replace (Zpos p~0) with (Zpos p + Zpos p) by lia.
    rewrite !Z.pow_add_r by lia. lia.
  - rewrite shr_1_m by assumption. reflexivity.
Qed.

Lemma shr_fexp_pos (m : positive) (e : Z) (l : location) :
  (-1074) <= e ->
  (snd (shr_fexp prec emax (Zpos m) e l) = e
   /\ shr_m (fst (shr_fexp prec emax (Zpos m) e l)) = Zpos m)
  \/ ((-1074) < snd (shr_fexp prec emax (Zpos m) e l)
      /\ e < snd (shr_fexp prec emax (Zpos m) e l)
      /\ 2 ^ 52 <= shr_m (fst (shr_fexp prec emax (Zpos m) e l))).
Proof.
  intros He. unfold shr_fexp, shr. 
  simpl Zdigits2. rewrite fexp_val.
  pose proof (digits2_pos_bounds m) as [Hlo Hhi].
  set (d := Zpos (digits2_pos m)) in *.
  destruct (Z.max (d + e - 53) (-1074) - e) as [ | n | n ] eqn:Hn.
  - left. split; [reflexivity | destruct l as [ | [ | | ]]; reflexivity].
  - right. simpl fst; simpl snd.
    assert (Hd : Zpos n = d - 53) by (clear - Hn He; lia).
    split; [lia | split; [lia | ]].
    rewrite iter_shr_1_m
      by (destruct l as [ | [ | | ]]; simpl; lia).
    replace (shr_m (shr_record_of_loc (Zpos m) l)) with (Zpos m)
      by (destruct l as [ | [ | | ]]; reflexivity).
    rewrite Hd. apply Z.div_le_lower_bound; [ apply Z.pow_pos_nonneg; lia | ].
    rewrite <- Z.pow_add_r by lia.
    replace (d - 53 + 52) with (d - 1) by lia. exact Hlo.
  - left. split; [reflexivity | destruct l as [ | [ | | ]]; reflexivity].
Qed.

Lemma round_nearest_even_bounds (m : Z) (l : location) :
  m <= round_nearest_even m l <= m + 1.
Proof.
  destruct l as [ | [ | | ]]; simpl; try lia.
  destruct (Z.even m); lia.
Qed.

(** *** Rounding a positive mantissa *)

Lemma binary_round_aux_rounded (sx : bool) (m : positive) (e : Z) (l : location) :
  (-1074) <= e ->
  rounded sx (Z.min (scaled m e) (2 ^ 53))
          (binary_round_aux prec emax sx (Zpos m) e l).
Proof.
  intros He. unfold binary_round_aux.
  pose proof (shr_fexp_pos m e l He) as H1.
  destruct (shr_fexp prec emax (Zpos m) e l) as [mrs' e'].
  simpl fst in H1; simpl snd in H1.
  pose proof (round_nearest_even_bounds (shr_m mrs') (loc_of_shr_record mrs')) as Hr.
  set (m1 := round_nearest_even (shr_m mrs') (loc_of_shr_record mrs')) in *.
  assert (He' : (-1074) <= e') by (destruct H1 as [[-> _] | [? _]]; lia).
  assert (Hm1 : 0 < m1).
  { destruct H1 as [[_ H1] | [_ [_ H1]]]; [ lia | ].
    assert (0 < 2 ^ 52) by (apply Z.pow_pos_nonneg; lia). lia. }
  destruct m1 as [ | m1 | m1 ]; try lia.
  pose proof (shr_fexp_pos m1 e' loc_Exact He') as H2.
  destruct (shr_fexp prec emax (Zpos m1) e' loc_Exact) as [mrs'' e''].
  simpl fst in H2; simpl snd in H2.
  assert (Hpow : forall x, (-1074) < x -> 2 ^ 53 <= 2 ^ 52 * 2 ^ (x - (-1074))).
  { intros x Hx. replace (2 ^ 53) with (2 ^ 52 * 2 ^ 1) by reflexivity.
    apply Z.mul_le_mono_nonneg_l; [ apply Z.pow_nonneg; lia | ].
    apply Z.pow_le_mono_r; lia. }
  assert (Hmono : forall a b x, 0 <= a <= b -> (-1074) <= x ->
                    a * 2 ^ (x - (-1074)) <= b * 2 ^ (x - (-1074))).
  { intros a b x Hab Hx. apply Z.mul_le_mono_nonneg_r; [ | lia].
    apply Z.pow_nonneg; lia. }
  assert (Hgoal : (-1074) <= e'' /\ 0 < shr_m mrs''
                  /\ Z.min (scaled m e) (2 ^ 53) <= shr_m mrs'' * 2 ^ (e'' - (-1074))).
  { unfold scaled.
    destruct H2 as [[-> H2] | [Hlt [Hlt' H2]]].
    - rewrite H2. split; [ exact He' | split; [ lia | ] ].
      destruct H1 as [[-> H1] | [Hlt1 [Hlt1' H1]]].
      + rewrite H1 in Hr.
        specialize (Hmono (Zpos m) (Zpos m1) e). lia.
      + specialize (Hpow e' Hlt1).
        specialize (Hmono (2 ^ 52) (Zpos m1) e').
        assert (0 < 2 ^ 52) by (apply Z.pow_pos_nonneg; lia). lia.
    - assert (0 < 2 ^ 52) by (apply Z.pow_pos_nonneg; lia).
      split; [ lia | split; [ lia | ] ].
      specialize (Hpow e'' Hlt).
      specialize (Hmono (2 ^ 52) (shr_m mrs'') e''). lia. }
  destruct Hgoal as [Hge [Hpos Hbound]].
  destruct (shr_m mrs'') as [ | m2 | m2 ]; try lia.
  destruct (e'' <=? emax - prec); simpl; auto.
Qed.

Lemma Zpos_iter_xO (p d : positive) :
  Zpos (Pos.iter xO p d) = Zpos p * 2 ^ Zpos d.
Proof.
  induction d as [ | d IH] using Pos.peano_ind.
  - simpl. lia.
  - rewrite Pos.iter_succ, Pos2Z.inj_succ, Z.pow_succ_r by lia.
    rewrite Pos2Z.inj_xO, IH. lia.
Qed.

Lemma shl_align_spec (mx : positive) (ex ex' : Z) :
  snd (shl_align mx ex ex') = Z.min ex ex'
  /\ Zpos (fst (shl_align mx ex ex')) = Zpos mx * 2 ^ (ex - Z.min ex ex')
  /\ Zpos (digits2_pos (fst (shl_align mx ex ex')))
     = Zpos (digits2_pos mx) + (ex - Z.min ex ex').
Proof.
  unfold shl_align. destruct (ex' - ex) as [ | d | d ] eqn:Hd; simpl fst; simpl snd.
  - replace (Z.min ex ex') with ex by lia.
    rewrite Z.sub_diag. simpl. lia.
  - replace (Z.min ex ex') with ex by lia.
    rewrite Z.sub_diag. simpl. lia.
  - replace (Z.min ex ex') with ex' by lia.
    replace (ex - ex') with (Zpos d) by lia.
    rewrite Zpos_iter_xO, digits2_pos_iter_xO. lia.
Qed.

Lemma scaled_pos (m : positive) (e : Z) : (-1074) <= e -> 1 <= scaled m e.
Proof.
  intros He. unfold scaled.
  assert (0 < 2 ^ (e - (-1074))) by (apply Z.pow_pos_nonneg; lia). nia.
Qed.

Lemma scaled_shift (m : positive) (e e' : Z) :
  (-1074) <= e' <= e ->
  Zpos m * 2 ^ (e - e') * 2 ^ (e' - (-1074)) = scaled m e.
Proof.
  intros H. unfold scaled. rewrite <- Z.mul_assoc, <- Z.pow_add_r by lia.
  do 2 f_equal. lia.
Qed.

Lemma binary_round_rounded (sx : bool) (m : positive) (e : Z) :
  (-1074) <= e ->
  rounded sx (Z.min (scaled m e) (2 ^ 53)) (binary_round prec emax sx m e).
Proof.
  intros He. unfold binary_round.
  pose proof (shl_align_spec m e (fexp (Zpos (digits2_pos m) + e))) as [H1 [H2 _]].
  destruct (shl_align m e (fexp (Zpos (digits2_pos m) + e))) as [mz ez].
  simpl fst in *; simpl snd in *.
  assert (Hez : (-1074) <= ez <= e) by (rewrite fexp_val in *; lia).
  replace (scaled m e) with (scaled mz ez).
  - apply binary_round_aux_rounded. lia.
  - unfold scaled at 1. rewrite H2, <- H1. apply scaled_shift. exact Hez.
Qed.

(** A mantissa already in canonical position is kept as it is. *)
Lemma binary_round_aux_canonical (sx : bool) (m : positive) (e : Z) :
  fexp (Zpos (digits2_pos m) + e) = e -> e <= 971 ->
  binary_round_aux prec emax sx (Zpos m) e loc_Exact = S754_finite sx m e.
Proof.
  intros Hc He. unfold binary_round_aux, shr_fexp. simpl Zdigits2.
  rewrite Hc, Z.sub_diag.
  cbn [shr shr_record_of_loc shr_m loc_of_shr_record round_nearest_even Zdigits2].
  rewrite Hc, Z.sub_diag.
  cbn [shr shr_record_of_loc shr_m].
  change (emax - prec) with 971. apply Z.leb_le in He. rewrite He. reflexivity.
Qed.

(** *** Valid numbers *)

Lemma valid_finite (s : bool) (m : positive) (e : Z) :
  valid_binary (S754_finite s m e) = true ->
  (-1074) <= e <= 971
  /\ Zpos (digits2_pos m) <= 53
  /\ ((-1074) < e -> Zpos (digits2_pos m) = 53).
Proof.
  simpl. unfold bounded, canonical_mantissa. rewrite fexp_val.
  change (emax - prec) with 971.
  intros H. apply andb_prop in H. destruct H as [H1 H2].
  apply Z.eqb_eq in H1. apply Z.leb_le in H2. lia.
Qed.

Lemma valid_scaled_bounds (s : bool) (m : positive) (e : Z) :
  valid_binary (S754_finite s m e) = true -> 1 <= scaled m e < huge.
Proof.
  intros H. apply valid_finite in H. destruct H as [He [Hd _]].
  split; [ apply scaled_pos; lia | ].
  pose proof (digits2_pos_bounds m) as [_ Hhi].
  unfold scaled, huge.
  assert (Zpos m < 2 ^ 53).
  { eapply Z.lt_le_trans; [ exact Hhi | ]. apply Z.pow_le_mono_r; lia. }
  assert (0 < 2 ^ (e - (-1074))) by (apply Z.pow_pos_nonneg; lia).
  assert (2 ^ 53 * 2 ^ (e - (-1074)) <= 2 ^ 2098).
  { rewrite <- Z.pow_add_r by lia. apply Z.pow_le_mono_r; [ lia | ].
    lia. }
  nia.
Qed.

Lemma scaled_lt_exponent (m1 m2 : positive) (e1 e2 : Z) (s1 s2 : bool) :
  valid_binary (S754_finite s1 m1 e1) = true ->
  valid_binary (S754_finite s2 m2 e2) = true ->
  e1 < e2 -> scaled m1 e1 < scaled m2 e2.
Proof.
  intros H1 H2 Hlt.
  apply valid_finite in H1. destruct H1 as [He1 [Hd1 _]].
  apply valid_finite in H2. destruct H2 as [He2 [_ Hd2]].
  pose proof (digits2_pos_bounds m1) as [_ Hhi].
  pose proof (digits2_pos_bounds m2) as [Hlo _].
  rewrite Hd2 in Hlo by lia. simpl (53 - 1) in Hlo.
  assert (Hm1 : Zpos m1 < 2 ^ 53).
  { eapply Z.lt_le_trans; [ exact Hhi | ]. apply Z.pow_le_mono_r; lia. }
  unfold scaled.
  assert (Hp1 : 0 < 2 ^ (e1 - (-1074))) by (apply Z.pow_pos_nonneg; lia).
  assert (Hp2 : 2 * 2 ^ (e1 - (-1074)) <= 2 ^ (e2 - (-1074))).
  { rewrite <- Z.pow_succ_r by lia. apply Z.pow_le_mono_r; lia. }
  assert (H53 : 2 ^ 53 = 2 * 2 ^ 52) by reflexivity.
  nia.
Qed.

Lemma scaled_compare (m1 m2 : positive) (e1 e2 : Z) (s1 s2 : bool) :
  valid_binary (S754_finite s1 m1 e1) = true ->
  valid_binary (S754_finite s2 m2 e2) = true ->
  (scaled m1 e1 ?= scaled m2 e2)
  = match e1 ?= e2 with
    | Lt => Lt
    | Gt => Gt
    | Eq => Pos.compare_cont Eq m1 m2
    end.
Proof.
  intros H1 H2. destruct (Z.compare_spec e1 e2) as [Heq | Hlt | Hgt].
  - subst e2. unfold scaled.
    apply valid_finite in H1. destruct H1 as [He1 _].
    assert (Hp1 : 0 < 2 ^ (e1 - (-1074))) by (apply Z.pow_pos_nonneg; lia).
    change (Pos.compare_cont Eq m1 m2) with (Zpos m1 ?= Zpos m2).
    destruct (Z.compare_spec (Zpos m1) (Zpos m2)) as [E | E | E].
    + rewrite E. apply Z.compare_refl.
    + apply Z.compare_lt_iff. nia.
    + apply Z.compare_gt_iff. nia.
  - apply Z.compare_lt_iff. eapply scaled_lt_exponent; eauto.
  - apply Z.compare_gt_iff. eapply scaled_lt_exponent; eauto.
Qed.

(** *** The order, through an embedding into the integers *)

Lemma SFcompare_key (x y : spec_float) :
  valid_binary x = true -> valid_binary y = true ->
  notNan x -> notNan y ->
  SFcompare x y = Some (key x ?= key y).
Proof.
  intros Vx Vy Nx Ny.
  assert (Hh : 0 < huge) by (apply Z.pow_pos_nonneg; lia).
  destruct x as [sx | sx | | sx mx ex]; try (exfalso; apply Nx; reflexivity);
    destruct y as [sy | sy | | sy my ey]; try (exfalso; apply Ny; reflexivity);
    try (pose proof (valid_scaled_bounds _ _ _ Vx) as Bx);
    try (pose proof (valid_scaled_bounds _ _ _ Vy) as By);
    try destruct sx; try destruct sy;
    cbn [SFcompare key cond_Zopp]; f_equal; symmetry;
    try (apply Z.compare_refl);
    try (apply Z.compare_lt_iff; lia);
    try (apply Z.compare_gt_iff; lia).
  - rewrite Z.compare_opp, (scaled_compare my mx ey ex true true Vy Vx).
    rewrite (Z.compare_antisym ey ex).
    destruct (ey ?= ex); simpl; try reflexivity.
    rewrite (Pos.compare_cont_antisym mx my Eq). reflexivity.
  - apply (scaled_compare mx my ex ey false false Vx Vy).
Qed.

(** *** Operations on specification numbers *)

Lemma rounded_weaken (sx : bool) (K K' : Z) (r : spec_float) :
  K' <= K -> rounded sx K r -> rounded sx K' r.
Proof.
  intros HK. destruct r as [ | | | s m e]; simpl; auto.
  intros [H1 [H2 H3]]. repeat split; auto; lia.
Qed.

Lemma SFadd_comm (x y : spec_float) : SF64add x y = SF64add y x.
Proof.
  unfold SF64add.
  destruct x as [[|] | [|] | | sx mx ex], y as [[|] | [|] | | sy my ey];
    try reflexivity.
  unfold SFadd. cbv zeta. rewrite (Z.min_comm ey ex), Z.add_comm. reflexivity.
Qed.

Lemma binary_round_abs (s s' : bool) (m : positive) (e : Z) :
  SFabs (binary_round prec emax s m e) = SFabs (binary_round prec emax s' m e).
Proof.
  unfold binary_round. destruct (shl_align m e _) as [mz ez].
  unfold binary_round_aux.
  destruct (shr_fexp prec emax (Zpos mz) ez loc_Exact) as [mrs' e'].
  destruct (shr_fexp prec emax _ e' loc_Exact) as [mrs'' e''].
  destruct (shr_m mrs''); try reflexivity.
  destruct (e'' <=? emax - prec); reflexivity.
Qed.

Lemma SFabs_sub_sym (x y : spec_float) :
  SFabs (SF64sub x y) = SFabs (SF64sub y x).
Proof.
  unfold SF64sub.
  destruct x as [[|] | [|] | | sx mx ex], y as [[|] | [|] | | sy my ey];
    try reflexivity.
  unfold SFsub. cbv zeta. rewrite (Z.min_comm ey ex).
  set (a := cond_Zopp sx _). set (b := cond_Zopp sy _).
  replace (b - a) with (- (a - b)) by lia.
  destruct (a - b) as [ | p | p ]; cbn [Z.opp binary_normalize];
    [ reflexivity | | ]; apply binary_round_abs.
Qed.

Lemma binary_normalize_negative (M e : Z) :
  (-1074) <= e ->
  SFltb (binary_normalize prec emax M e false) (S754_zero false) = (M <? 0).
Proof.
  intros He. destruct M as [ | p | p ]; cbn [binary_normalize].
  - reflexivity.
  - pose proof (binary_round_rounded false p e He) as H.
    destruct (binary_round prec emax false p e) as [ | s | | s m e'];
      simpl in H; try contradiction.
    + subst s. reflexivity.
    + destruct H as [-> _]. reflexivity.
  - pose proof (binary_round_rounded true p e He) as H.
    destruct (binary_round prec emax true p e) as [ | s | | s m e'];
      simpl in H; try contradiction.
    + subst s. reflexivity.
    + destruct H as [-> _]. reflexivity.
Qed.

Lemma aligned_key (s : bool) (m : positive) (e ez : Z) :
  (-1074) <= ez <= e ->
  cond_Zopp s (Zpos (fst (shl_align m e ez))) * 2 ^ (ez + 1074)
  = key (S754_finite s m e).
Proof.
  intros H. pose proof (shl_align_spec m e ez) as [_ [H2 _]].
  rewrite H2. replace (Z.min e ez) with ez by lia.
  cbn [key]. rewrite <- (scaled_shift m e ez H).
  replace (ez - (-1074)) with (ez + 1074) by lia.
  destruct s; cbn [cond_Zopp]; lia.
Qed.

Lemma SFltb_key (x y : spec_float) :
  valid_binary x = true -> valid_binary y = true ->
  notNan x -> notNan y ->
  SFltb x y = (key x <? key y).
Proof.
  intros Vx Vy Nx Ny. unfold SFltb, Z.ltb.
  rewrite (SFcompare_key x y Vx Vy Nx Ny). reflexivity.
Qed.

Lemma SFleb_key (x y : spec_float) :
  valid_binary x = true -> valid_binary y = true ->
  notNan x -> notNan y ->
  SFleb x y = (key x <=? key y).
Proof.
  intros Vx Vy Nx Ny. unfold SFleb, Z.leb.
  rewrite (SFcompare_key x y Vx Vy Nx Ny). destruct (key x ?= key y); reflexivity.
Qed.

(** The sign of a difference is the order of its operands. *)
Lemma SFsub_negative (x y : spec_float) :
  valid_binary x = true -> valid_binary y = true ->
  SFltb (SF64sub x y) (S754_zero false) = SFltb x y.
Proof.
  intros Vx Vy. unfold SF64sub.
  destruct x as [[|] | [|] | | sx mx ex], y as [[|] | [|] | | sy my ey];
    try reflexivity;
    try (destruct sy; reflexivity); try (destruct sx; reflexivity).
  rewrite (SFltb_key _ _ Vx Vy) by discriminate.
  unfold SFsub. cbv zeta.
  pose proof (valid_finite _ _ _ Vx) as [Hex _].
  pose proof (valid_finite _ _ _ Vy) as [Hey _].
  set (ez := Z.min ex ey).
  rewrite binary_normalize_negative by lia.
  rewrite <- (aligned_key sx mx ex ez), <- (aligned_key sy my ey ez) by lia.
  assert (Hp : 0 < 2 ^ (ez + 1074)) by (apply Z.pow_pos_nonneg; lia).
  set (a := cond_Zopp sx _). set (b := cond_Zopp sy _).
  destruct (Z.ltb_spec (a - b) 0), (Z.ltb_spec (a * 2 ^ (ez + 1074)) (b * 2 ^ (ez + 1074)));
    try reflexivity; nia.
Qed.

Lemma SFadd_rounded (x y : spec_float) (Kx Ky : Z) :
  valid_binary x = true -> valid_binary y = true ->
  rounded false Kx x -> rounded false Ky y ->
  rounded false (Z.min (Kx + Ky) (2 ^ 53)) (SF64add x y).
Proof.
  intros Vx Vy Hx Hy. unfold SF64add.
  destruct x as [ | sx | | sx mx ex]; simpl in Hx; try contradiction;
    destruct y as [ | sy | | sy my ey]; simpl in Hy; try contradiction.
  - subst. reflexivity.
  - subst. reflexivity.
  - destruct Hx as [-> _]. subst. reflexivity.
  - destruct Hx as [-> [Hex Hkx]], Hy as [-> [Hey Hky]].
    unfold SFadd. cbv zeta. set (ez := Z.min ex ey). cbn [cond_Zopp].
    pose proof (aligned_key false mx ex ez ltac:(lia)) as Ax.
    pose proof (aligned_key false my ey ez ltac:(lia)) as Ay.
    cbn [cond_Zopp key] in Ax, Ay.
    rewrite <- Pos2Z.inj_add. cbn [binary_normalize].
    eapply rounded_weaken; [ | apply binary_round_rounded; lia ].
    unfold scaled at 1. rewrite Pos2Z.inj_add.
    replace (ez - (-1074)) with (ez + 1074) by lia. lia.
Qed.

Lemma SFadd_zero_l (s : bool) (y : spec_float) (K : Z) :
  rounded false K y -> SF64add (S754_zero s) y = y.
Proof.
  destruct y as [ | sy | | sy my ey]; simpl; try contradiction.
  - intros ->. destruct s; reflexivity.
  - intros _. destruct s; reflexivity.
Qed.

Lemma SFdiv_rounded (x : spec_float) (my : positive) (ey n : Z) :
  valid_binary x = true -> valid_binary (S754_finite false my ey) = true ->
  ey <= 0 -> Zpos my = n * 2 ^ (- ey) ->
  rounded false n x ->
  rounded false 1 (SF64div x (S754_finite false my ey)).
Proof.
  intros Vx Vy Hey Hmy Hx. unfold SF64div.
  destruct x as [ | sx | | sx mx ex]; simpl in Hx; try contradiction.
  - subst sx. reflexivity.
  - destruct Hx as [-> [Hex Hn]].
    pose proof (valid_finite _ _ _ Vx) as [_ [Hd1 _]].
    pose proof (valid_finite _ _ _ Vy) as [Hey' [Hd2 _]].
    pose proof (digits2_pos_bounds mx) as [Hlo1 _].
    pose proof (digits2_pos_bounds my) as [_ Hhi2].
    unfold SFdiv, SFdiv_core_binary. cbv zeta. cbn [Zdigits2 xorb].
    rewrite fexp_val.
    set (d1 := Zpos (digits2_pos mx)) in *.
    set (d2 := Zpos (digits2_pos my)) in *.
    assert (Hd2' : 1 <= d2) by (unfold d2; lia).
    set (e' := Z.min (Z.max (d1 + ex - (d2 + ey) - 53) (-1074)) (ex - ey)).
    assert (He' : (-1074) <= e' <= ex - ey) by (unfold e'; lia).
    set (sh := ex - ey - e').
    set (m' := match sh with
               | Z0 => Zpos mx
               | Zpos _ => Z.shiftl (Zpos mx) sh
               | Zneg _ => 0
               end).
    assert (Hm' : m' = Zpos mx * 2 ^ sh).
    { unfold m'. assert (0 <= sh) by (unfold sh; lia).
      destruct sh as [ | p | p ] eqn:E; [ simpl; lia | | lia ].
      apply Z.shiftl_mul_pow2. lia. }
    assert (Hge : Zpos my <= m').
    { rewrite Hm'. destruct (Z.eq_dec e' (-1074)) as [E | E].
      - unfold sh. rewrite E.
        replace (ex - ey - (-1074)) with ((ex - (-1074)) + - ey) by lia.
        rewrite Z.pow_add_r, Z.mul_assoc by lia. fold (scaled mx ex).
        rewrite Hmy. apply Z.mul_le_mono_nonneg_r; [ apply Z.pow_nonneg | ]; lia.
      - assert (Hsh : sh = 53 + d2 - d1) by (unfold sh, e' in *; lia).
        rewrite Hsh.
        assert (H1 : 2 ^ (d1 - 1) * 2 ^ (53 + d2 - d1) <= Zpos mx * 2 ^ (53 + d2 - d1)).
        { apply Z.mul_le_mono_nonneg_r; [ apply Z.pow_nonneg; lia | exact Hlo1 ]. }
        rewrite <- Z.pow_add_r in H1 by lia.
        assert (H2 : 2 ^ d2 <= 2 ^ (d1 - 1 + (53 + d2 - d1)))
          by (apply Z.pow_le_mono_r; lia).
        lia. }
    destruct (Z.div_eucl m' (Zpos my)) as [q r] eqn:Eq.
    assert (Hq : q = m' / Zpos my) by (unfold Z.div; rewrite Eq; reflexivity).
    assert (Hq1 : 1 <= q).
    { rewrite Hq. apply Z.div_le_lower_bound; lia. }
    destruct q as [ | q | q ]; try lia.
    eapply rounded_weaken; [ | apply binary_round_aux_rounded; lia ].
    pose proof (scaled_pos q e' ltac:(lia)).
    assert (1 <= 2 ^ 53) by (apply Z.pow_le_mono_r with (b := 0); lia). lia.
Qed.

(** The number of a positive integer below [2^53] is that integer. *)
Lemma binary_normalize_integer (n : positive) :
  Zpos n < 2 ^ 53 ->
  exists my ey,
    binary_normalize prec emax (Zpos n) 0 false = S754_finite false my ey
    /\ ey <= 0 /\ Zpos my = Zpos n * 2 ^ (- ey).
Proof.
  intros Hn. cbn [binary_normalize]. unfold binary_round.
  pose proof (digits2_pos_bounds n) as [Hlo _].
  assert (Hd : Zpos (digits2_pos n) <= 53).
  { destruct (Z.le_gt_cases (Zpos (digits2_pos n)) 53) as [H | H]; [ exact H | ].
    assert (2 ^ 53 <= 2 ^ (Zpos (digits2_pos n) - 1)) by (apply Z.pow_le_mono_r; lia).
    lia. }
  pose proof (shl_align_spec n 0 (fexp (Zpos (digits2_pos n) + 0))) as [H1 [H2 H3]].
  destruct (shl_align n 0 (fexp (Zpos (digits2_pos n) + 0))) as [mz ez].
  simpl fst in *; simpl snd in *. rewrite fexp_val in H1, H2, H3.
  assert (Hez : ez = Zpos (digits2_pos n) - 53) by lia.
  exists mz, ez. split; [ | split ].
  - apply binary_round_aux_canonical; [ rewrite fexp_val | ]; lia.
  - lia.
  - rewrite H2. f_equal. f_equal. lia.
Qed.

(** *** Numbers of the language *)

Local Open Scope float_scope.

Lemma Prim2SF_zero : Prim2SF 0 = S754_zero false.
Proof. reflexivity. Qed.

Lemma add_comm (x y : float) : x + y = y + x.
Proof. apply Prim2SF_inj. rewrite !add_spec. apply SFadd_comm. Qed.

Lemma abs_sub_sym (x y : float) : abs (x - y) = abs (y - x).
Proof. apply Prim2SF_inj. rewrite !abs_spec, !sub_spec. apply SFabs_sub_sym. Qed.

Lemma sub_negative (x y : float) : (x - y <? 0) = (x <? y).
Proof.
  rewrite !ltb_spec, sub_spec, Prim2SF_zero.
  apply SFsub_negative; apply Prim2SF_valid.
Qed.

Lemma ltb_fkey (x y : float) :
  isNumber x -> isNumber y -> (x <? y) = (fkey x <? fkey y)%Z.
Proof.
  intros Hx Hy. rewrite ltb_spec. apply SFltb_key; auto using Prim2SF_valid.
Qed.

Lemma leb_fkey (x y : float) :
  isNumber x -> isNumber y -> (x <=? y) = (fkey x <=? fkey y)%Z.
Proof.
  intros Hx Hy. rewrite leb_spec. apply SFleb_key; auto using Prim2SF_valid.
Qed.

Lemma ltb_true_isNumber (x y : float) :
  (x <? y) = true -> isNumber x /\ isNumber y.
Proof.
  rewrite ltb_spec. unfold isNumber, notNan.
  destruct (Prim2SF x), (Prim2SF y); cbn; intros H; split; congruence.
Qed.

Lemma ltb_asym (x y : float) : (x <? y) = true -> (y <? x) = false.
Proof.
  intros H. destruct (ltb_true_isNumber _ _ H) as [Hx Hy].
  rewrite ltb_fkey in * by assumption. lia.
Qed.

Lemma isNumber_dec (x : float) : {isNumber x} + {~ isNumber x}.
Proof.
  unfold isNumber, notNan. destruct (Prim2SF x);
    [ left | left | right | left ]; try discriminate.
  intros H. apply H. reflexivity.
Qed.



Lemma units_weaken (K K' : Z) (x : float) :
  (K' <= K)%Z -> units K x -> units K' x.
Proof. apply rounded_weaken. Qed.

Lemma positive_units (x : float) : (0 <? x) = true -> units 1 x.
Proof.
  rewrite ltb_spec, Prim2SF_zero. unfold units.
  pose proof (Prim2SF_valid x) as V.
  destruct (Prim2SF x) as [ | [|] | | [|] m e]; cbn; try discriminate; auto.
  intros _. apply valid_finite in V. destruct V as [He _].
  repeat split; [ lia | apply scaled_pos; lia ].
Qed.

Lemma units_positive (K : Z) (x : float) : units K x -> (0 <? x) = true.
Proof.
  rewrite ltb_spec, Prim2SF_zero. unfold units.
  destruct (Prim2SF x) as [ | [|] | | [|] m e]; cbn; try tauto; try discriminate.
  intros [H _]. discriminate.
Qed.

Lemma negative_abs_units (x : float) : (x <? 0) = true -> units 1 (abs x).
Proof.
  rewrite ltb_spec, Prim2SF_zero. unfold units. rewrite abs_spec.
  pose proof (Prim2SF_valid x) as V.
  destruct (Prim2SF x) as [ | [|] | | [|] m e]; cbn; try discriminate; auto.
  intros _. apply valid_finite in V. destruct V as [He _].
  repeat split; [ lia | apply scaled_pos; lia ].
Qed.

Lemma units_truthy (K : Z) (x : float) :
  units K x -> PrimFloat.is_zero x = false /\ PrimFloat.is_nan x = false.
Proof.
  unfold units, PrimFloat.is_zero, PrimFloat.is_nan.
  rewrite !eqb_spec. change (Prim2SF zero) with (S754_zero false).
  destruct (Prim2SF x) as [ | [|] | | [|] m e]; cbn; try tauto; try discriminate.
  - intros [H _]. discriminate.
  - intros _. unfold SFeqb. cbn. rewrite Z.compare_refl, Pos.compare_cont_refl.
    split; reflexivity.
Qed.

Lemma add_units (Kx Ky : Z) (x y : float) :
  units Kx x -> units Ky y -> units (Z.min (Kx + Ky) (2 ^ 53)) (x + y).
Proof.
  unfold units. rewrite add_spec. apply SFadd_rounded; apply Prim2SF_valid.
Qed.

Lemma zero_add (K : Z) (y : float) : units K y -> 0 + y = y.
Proof.
  intros H. apply Prim2SF_inj. rewrite add_spec, Prim2SF_zero.
  eapply SFadd_zero_l. exact H.
Qed.

Lemma sum_units_from (l : list float) :
  forall (acc : float) (K : Z),
    units K acc -> Forall (units 1) l ->
    units (Z.min (K + Z.of_nat (List.length l)) (2 ^ 53))
          (fold_left (fun a b => a + b) l acc).
Proof.
  induction l as [ | a l IH]; intros acc K Hacc Hl; cbn [fold_left List.length].
  - eapply units_weaken; [ | exact Hacc ]. lia.
  - inversion Hl as [ | ? ? Ha Hl']; subst.
    eapply units_weaken; [ | apply (IH (acc + a) _ (add_units _ _ _ _ Hacc Ha) Hl') ].
    lia.
Qed.

(** A sum of positive numbers counts at least as many units as it has
    terms, up to [2^53]. *)
Lemma sum_units (l : list float) :
  l <> [] -> Forall (units 1) l ->
  units (Z.min (Z.of_nat (List.length l)) (2 ^ 53))
        (fold_left (fun a b => a + b) l 0).
Proof.
  destruct l as [ | a l]; [ congruence | ]. intros _ Hl.
  inversion Hl as [ | ? ? Ha Hl']; subst. cbn [fold_left List.length].
  rewrite (zero_add 1 a Ha).
  eapply units_weaken; [ | apply (sum_units_from l a 1 Ha Hl') ]. lia.
Qed.

Lemma Prim2SF_ofNat (n : nat) :
  (Z.of_nat n < 2 ^ 53)%Z ->
  Prim2SF (JSNumber.ofNat n) = binary_normalize prec emax (Z.of_nat n) 0 false.
Proof.
  intros Hn. unfold ofNat. rewrite of_uint63_spec. f_equal.
  rewrite Uint63.of_Z_spec. apply Z.mod_small.
  split; [ lia | ]. eapply Z.lt_trans; [ exact Hn | reflexivity ].
Qed.

Lemma div_ofNat_units (x : float) (n : nat) :
  (0 < n)%nat -> (Z.of_nat n < 2 ^ 53)%Z ->
  units (Z.of_nat n) x -> units 1 (x / ofNat n).
Proof.
  intros Hpos Hn Hx. unfold units. rewrite div_spec.
  pose proof (Prim2SF_valid (ofNat n)) as Vy.
  rewrite (Prim2SF_ofNat n Hn) in *.
  destruct (Z.of_nat n) as [ | p | p ] eqn:E; try lia.
  destruct (binary_normalize_integer p Hn) as [my [ey [Hy [Hey Hmy]]]].
  rewrite Hy in *.
  eapply SFdiv_rounded; eauto using Prim2SF_valid.
Qed.
End Binary64.

(** ** The timestamp in seconds *)

Local Open Scope float_scope.

Lemma in_allTransactions (parseFloat : string -> float) (data : SimpleFINData)
      (t : NormTx) :
  In t (allTransactions parseFloat data) <->
  exists acc raw, In acc (accounts data) /\ In raw (transactionsOf acc)
                  /\ t = normalize parseFloat acc raw.
Proof.
  unfold allTransactions. rewrite in_flat_map. split.
  - intros [acc [Hacc Ht]]. apply in_map_iff in Ht.
    destruct Ht as [raw [Heq Hraw]]. exists acc, raw. auto.
  - intros [acc [raw [Hacc [Hraw Heq]]]]. exists acc. split; [ exact Hacc | ].
    apply in_map_iff. exists raw. auto.
Qed.

(** C8: the normalizer maps [posted] to [posted / 1000] when it is above
    2,000,000,000 and leaves it unchanged otherwise; 1700000000000 and
    1700000000 normalize to the same value; and every transaction the
    analytics compares carries the normalized timestamp of its source. *)
Theorem normalizePosted_spec :
  (forall posted, (2000000000 <? posted) = true ->
                  normalizePosted posted = posted / 1000)
  /\ (forall posted, (2000000000 <? posted) = false ->
                     normalizePosted posted = posted)
  /\ normalizePosted 1700000000000 = normalizePosted 1700000000
  /\ (forall parseFloat data t,
         In t (allTransactions parseFloat data) ->
         exists acc raw,
           In acc (accounts data) /\ In raw (transactionsOf acc)
           /\ t = normalize parseFloat acc raw
           /\ t_posted t = normalizePosted (tx_posted raw)).
Proof.
  unfold normalizePosted. repeat split.
  - intros posted H. rewrite H. reflexivity.
  - intros posted H. rewrite H. reflexivity.
  - intros parseFloat data t Ht. apply in_allTransactions in Ht.
    destruct Ht as [acc [raw [Hacc [Hraw Heq]]]].
    exists acc, raw. subst t. repeat split; assumption.
Qed.

(** ** Transfers *)

Lemma matches_iff (t other : NormTx) :
  matches t other = true <->
  t_id other <> t_id t
  /\ (abs (t_amountNum other + t_amountNum t) <? 0.001) = true
  /\ (abs (t_posted other - t_posted t) <? 259200) = true.
Proof.
  unfold matches. rewrite !andb_true_iff, negb_true_iff, String.eqb_neq. tauto.
Qed.

(** C2: a transaction is flagged as a transfer exactly when some
    transaction of some account, its own account included, has another
    id, an amount that cancels its amount within 0.001, and a normalized
    timestamp less than 259,200 seconds away.  Nothing is said of the
    accounts and nothing is consumed: the flag is the existence of a
    match. *)
Theorem isTransfer_iff :
  forall (parseFloat : string -> float) (data : SimpleFINData) (t : NormTx),
    isTransfer (allTransactions parseFloat data) t = true <->
    exists acc raw,
      In acc (accounts data) /\ In raw (transactionsOf acc)
      /\ tx_id raw <> t_id t
      /\ (abs (parseFloat (tx_amount raw) + t_amountNum t) <? 0.001) = true
      /\ (abs (normalizePosted (tx_posted raw) - t_posted t) <? 259200) = true.
Proof.
  intros parseFloat data t. unfold isTransfer. rewrite existsb_exists. split.
  - intros [other [Hin Hm]]. apply in_allTransactions in Hin.
    destruct Hin as [acc [raw [Hacc [Hraw Heq]]]]. subst other.
    apply matches_iff in Hm. exists acc, raw. tauto.
  - intros [acc [raw [Hacc [Hraw H]]]].
    exists (normalize parseFloat acc raw). split.
    + apply in_allTransactions. exists acc, raw. auto.
    + apply matches_iff. exact H.
Qed.

Lemma matches_sym (a b : NormTx) : matches a b = matches b a.
Proof.
  unfold matches.
  rewrite (String.eqb_sym (t_id b) (t_id a)).
  rewrite (Binary64.add_comm (t_amountNum b) (t_amountNum a)).
  rewrite (Binary64.abs_sub_sym (t_posted b) (t_posted a)).
  reflexivity.
Qed.

(** C7: if [a] is flagged because [b] satisfies the matching predicate
    against it, then [a] satisfies the same predicate against [b], and
    both are flagged. *)
Theorem transfer_symmetric :
  forall (all : list NormTx) (a b : NormTx),
    In a all -> In b all -> matches a b = true ->
    matches b a = true /\ isTransfer all a = true /\ isTransfer all b = true.
Proof.
  intros all a b Ha Hb Hm.
  assert (Hm' : matches b a = true) by (rewrite matches_sym; exact Hm).
  unfold isTransfer. rewrite !existsb_exists.
  split; [ exact Hm' | split ].
  - exists b. split; assumption.
  - exists a. split; assumption.
Qed.

Lemma transfer_symmetric_witness :
  let all := allTransactions Decimal.parseDecimal Examples.transferData in
  exists a b,
    all = [a; b]
    /\ matches b a = true /\ isTransfer all a = true /\ isTransfer all b = true.
Proof.
  eexists. eexists. split; [ reflexivity | ].
  apply transfer_symmetric.
  - left. reflexivity.
  - right. left. reflexivity.
  - vm_compute. reflexivity.
Defined.

(** ** Net worth *)

(** Two numbers differ when their specifications do. *)
Ltac float_neq :=
  let H := fresh in
  intro H; apply (f_equal Prim2SF) in H; vm_compute in H; discriminate H.

Lemma totals_app (parseFloat : string -> float) (accs : list Account)
      (acc : Account) :
  totals parseFloat (accs ++ [acc])
  = addAccount parseFloat (totals parseFloat accs) acc.
Proof. unfold totals. rewrite fold_left_app. reflexivity. Qed.

Lemma stats_Normal (parseFloat : string -> float) (data : SimpleFINData)
      (dateNow : float) (r : Report) :
  stats parseFloat (Some data) dateNow = Normal r ->
  exists st,
    forEach (body (dateNow / 1000 - 30 * 24 * 60 * 60)
                  (allTransactions parseFloat data))
            (allTransactions parseFloat data) initialState = Normal st
    /\ r = {| netWorth := tot_netWorth (totals parseFloat (accounts data));
              assets := tot_assets (totals parseFloat (accounts data));
              liabilities := tot_liabilities (totals parseFloat (accounts data));
              spending30d := st_spending30d st;
              spendingByAccount := st_spendingByAccount st;
              subscriptions :=
                reported (rawSubscriptions (st_subGroups st)) |}.
Proof.
  unfold stats.
  destruct (forEach _ _ initialState) as [st | ]; [ | discriminate ].
  intros H. injection H as <-. exists st. split; reflexivity.
Qed.

(** C1, as the code has it: the totals start at 0 and every account, in
    the order of the list, updates them by the rule of its class: a
    credit card takes [|balance|] off the net worth and adds it to the
    liabilities, whatever the sign; any other account adds its signed
    balance to the net worth, adds it to the assets when it is
    positive, and adds [|balance|] to the liabilities when it is
    negative.  The report carries these totals. *)
Theorem netWorth_per_account :
  forall (parseFloat : string -> float),
    totals parseFloat []
    = {| tot_netWorth := 0; tot_assets := 0; tot_liabilities := 0 |}
    /\ (forall (accs : list Account) (acc : Account),
           let before := totals parseFloat accs in
           let after := totals parseFloat (accs ++ [acc]) in
           let bal := parseFloat (acc_balance acc) in
           (getAccountType (acc_name acc) = CreditCard ->
            tot_netWorth after = tot_netWorth before - abs bal
            /\ tot_liabilities after = tot_liabilities before + abs bal
            /\ tot_assets after = tot_assets before)
           /\ (getAccountType (acc_name acc) <> CreditCard ->
               tot_netWorth after = tot_netWorth before + bal
               /\ ((0 <? bal) = true ->
                   tot_assets after = tot_assets before + bal
                   /\ tot_liabilities after = tot_liabilities before)
               /\ ((bal <? 0) = true ->
                   tot_liabilities after = tot_liabilities before + abs bal
                   /\ tot_assets after = tot_assets before)))
    /\ (forall (data : SimpleFINData) (dateNow : float) (r : Report),
           stats parseFloat (Some data) dateNow = Normal r ->
           netWorth r = tot_netWorth (totals parseFloat (accounts data))
           /\ assets r = tot_assets (totals parseFloat (accounts data))
           /\ liabilities r = tot_liabilities (totals parseFloat (accounts data))).
Proof.
  intros parseFloat. split; [ reflexivity | split ].
  - intros accs acc before after bal. subst before after.
    rewrite totals_app. unfold addAccount. fold bal. split.
    + intros ->. repeat split.
    + intros Hcc.
      assert (Hother :
                forall (k1 k2 : Totals),
                  match getAccountType (acc_name acc) with
                  | CreditCard => k1
                  | _ => k2
                  end = k2)
        by (intros; destruct (getAccountType (acc_name acc)); congruence).
      rewrite Hother. cbn [tot_netWorth tot_assets tot_liabilities].
      split; [ reflexivity | split ].
      * intros ->. split; reflexivity.
      * intros Hneg. rewrite (Binary64.ltb_asym _ _ Hneg). split; reflexivity.
  - intros data dateNow r H. apply stats_Normal in H.
    destruct H as [st [_ ->]]. repeat split.
Qed.

(** C1, the closed form: on a checking account of 5240.50, a credit card
    of 1250.00 and a savings account of 12045.33 the net worth is
    16035.83, and the sum of the other balances less the sum of the
    credit card debts is 16035.830000000002. *)
Lemma netWorth_closed_form_counterexample :
  exists r : Report,
    stats Decimal.parseDecimal (Some Examples.balancesData) Examples.dateNow
    = Normal r
    /\ netWorth r = 16035.83
    /\ sumNonCreditCard Decimal.parseDecimal (accounts Examples.balancesData)
       - sumCreditCardDebt Decimal.parseDecimal (accounts Examples.balancesData)
       = 16035.830000000002
    /\ netWorth r
       <> sumNonCreditCard Decimal.parseDecimal (accounts Examples.balancesData)
          - sumCreditCardDebt Decimal.parseDecimal
                              (accounts Examples.balancesData).
Proof.
  eexists. split; [ vm_compute; reflexivity | ].
  split; [ vm_compute; reflexivity | ].
  split; [ vm_compute; reflexivity | ].
  float_neq.
Qed.

(** ** Own properties of a dictionary *)

Module JSObjectFacts.

Import JSObject.

Section OwnProperties.

Context {V : Type}.

Lemma getOwn_None (o : t V) (k : string) :
  getOwn o k = None <-> ~ In k (keys o).
Proof.
  induction o as [ | [k' v] o IH]; cbn [getOwn keys map fst In].
  - tauto.
  - destruct (String.eqb_spec k' k) as [-> | Hne].
    + split; [ discriminate | intros H; exfalso; apply H; left; reflexivity ].
    + unfold keys in IH. rewrite IH. tauto.
Qed.

Lemma getOwn_Some_In (o : t V) (k : string) (v : V) :
  getOwn o k = Some v -> In (k, v) o.
Proof.
  induction o as [ | [k' v'] o IH]; cbn [getOwn In]; [ discriminate | ].
  destruct (String.eqb_spec k' k) as [-> | Hne].
  - intros H. injection H as ->. left. reflexivity.
  - intros H. right. apply IH. exact H.
Qed.

Lemma In_getOwn (o : t V) (k : string) (v : V) :
  NoDup (keys o) -> In (k, v) o -> getOwn o k = Some v.
Proof.
  induction o as [ | [k' v'] o IH]; cbn [getOwn keys map fst In]; [ tauto | ].
  intros Hnd [Heq | Hin].
  - injection Heq as -> ->. rewrite String.eqb_refl. reflexivity.
  - inversion Hnd as [ | ? ? Hnotin Hnd']; subst.
    destruct (String.eqb_spec k' k) as [-> | Hne].
    + exfalso. apply Hnotin. apply (in_map fst) in Hin. exact Hin.
    + apply IH; assumption.
Qed.

Lemma getOwn_setOwn (o : t V) (k : string) (v : V) (k' : string) :
  getOwn (setOwn o k v) k' = if String.eqb k k' then Some v else getOwn o k'.
Proof.
  induction o as [ | [k0 v0] o IH]; cbn [setOwn getOwn].
  - reflexivity.
  - destruct (String.eqb_spec k0 k) as [-> | Hne]; cbn [getOwn].
    + destruct (String.eqb k k'); reflexivity.
    + rewrite IH. destruct (String.eqb_spec k0 k') as [-> | Hne'].
      * destruct (String.eqb_spec k k') as [-> | _]; [ congruence | reflexivity ].
      * reflexivity.
Qed.

Lemma setOwn_absent (o : t V) (k : string) (v : V) :
  getOwn o k = None -> setOwn o k v = o ++ [(k, v)].
Proof.
  induction o as [ | [k' v'] o IH]; cbn [getOwn setOwn app]; [ reflexivity | ].
  destruct (String.eqb k' k); [ discriminate | ].
  intros H. rewrite IH by exact H. reflexivity.
Qed.

Lemma setOwn_keys_present (o : t V) (k : string) (v v0 : V) :
  getOwn o k = Some v0 -> keys (setOwn o k v) = keys o.
Proof.
  induction o as [ | [k' v'] o IH]; cbn [getOwn setOwn keys map fst];
    [ discriminate | ].
  destruct (String.eqb_spec k' k) as [-> | Hne].
  - reflexivity.
  - intros H. cbn [map fst]. f_equal. apply IH. exact H.
Qed.

Lemma setOwn_keys_absent (o : t V) (k : string) (v : V) :
  getOwn o k = None -> keys (setOwn o k v) = keys o ++ [k].
Proof.
  intros H. rewrite (setOwn_absent o k v H). unfold keys.
  rewrite map_app. reflexivity.
Qed.

Lemma NoDup_setOwn (o : t V) (k : string) (v : V) :
  NoDup (keys o) -> NoDup (keys (setOwn o k v)).
Proof.
  intros Hnd. destruct (getOwn o k) as [v0 | ] eqn:E.
  - rewrite (setOwn_keys_present o k v v0 E). exact Hnd.
  - rewrite (setOwn_keys_absent o k v E).
    apply getOwn_None in E.
    apply NoDup_rev in Hnd. rewrite <- (rev_involutive (keys o ++ [k])).
    apply NoDup_rev. rewrite rev_app_distr. cbn [rev app].
    constructor; [ rewrite <- in_rev; exact E | exact Hnd ].
Qed.

Lemma In_keys_setOwn (o : t V) (k : string) (v : V) (k' : string) :
  In k' (keys (setOwn o k v)) <-> k' = k \/ In k' (keys o).
Proof.
  destruct (getOwn o k) as [v0 | ] eqn:E.
  - rewrite (setOwn_keys_present o k v v0 E). split; [ tauto | ].
    intros [-> | H]; [ | exact H ].
    apply getOwn_Some_In in E. apply (in_map fst) in E. exact E.
  - rewrite (setOwn_keys_absent o k v E), in_app_iff. cbn [In].
    split; intros H; intuition congruence.
Qed.

End OwnProperties.

End JSObjectFacts.

(** ** The loop over all transactions *)

Section Loop.

Import JSObject JSObjectFacts.

Variable monthAgo : float.
Variable all : list NormTx.

Lemma filter_nil_of {A : Type} (f : A -> bool) (l : list A) :
  (forall x, In x l -> f x = true -> False) -> filter f l = [].
Proof.
  intros H. destruct (filter f l) as [ | x l'] eqn:E; [ reflexivity | ].
  exfalso. assert (Hx : In x (filter f l)) by (rewrite E; left; reflexivity).
  apply filter_In in Hx. destruct Hx as [Hx1 Hx2]. exact (H x Hx1 Hx2).
Qed.

Lemma groupMembers_snoc (k : string) (done : list NormTx) (t : NormTx) :
  groupMembers all k (done ++ [t])
  = groupMembers all k done
    ++ (if isGrouped all t && String.eqb (groupingKey (t_description t)) k
        then [t] else []).
Proof.
  unfold groupMembers. rewrite filter_app. cbn [filter].
  destruct (isGrouped all t && _); reflexivity.
Qed.

Lemma addToGroup_built (done : list NormTx) (st st' : LoopState) (t : NormTx) :
  GroupsBuilt all done (st_subGroups st) ->
  addToGroup all st t = Normal st' ->
  GroupsBuilt all (done ++ [t]) (st_subGroups st')
  /\ st_spending30d st' = st_spending30d st
  /\ st_spendingByAccount st' = st_spendingByAccount st.
Proof.
  intros [Hnd [Hent Hkeys]]. unfold addToGroup.
  destruct (isGrouped all t) eqn:Hg.
  - set (norm := groupingKey (t_description t)).
    destruct (getOwn (st_subGroups st) norm) as [txs | ] eqn:Hget.
    + intros H. injection H as <-. cbn [st_subGroups st_spending30d
                                        st_spendingByAccount].
      split; [ | split; reflexivity ].
      split; [ apply NoDup_setOwn; exact Hnd | split ].
      * intros k txs'. rewrite getOwn_setOwn, groupMembers_snoc, Hg.
        fold norm. cbn [andb]. destruct (String.eqb_spec norm k) as [<- | Hne].
        -- intros H. injection H as <-.
           destruct (Hent norm txs Hget) as [-> [_ Hinh]].
           split; [ reflexivity | split; [ | exact Hinh ] ].
           intros Hnil. apply app_eq_nil in Hnil. destruct Hnil; discriminate.
        -- intros H. rewrite app_nil_r. apply Hent. exact H.
      * intros t' Hin Hg'. apply In_keys_setOwn.
        apply in_app_or in Hin. destruct Hin as [Hin | [<- | []]].
        -- right. apply Hkeys; assumption.
        -- left. reflexivity.
    + destruct (inherited norm) eqn:Hinh; [ discriminate | ].
      intros H. injection H as <-. cbn [st_subGroups st_spending30d
                                        st_spendingByAccount].
      split; [ | split; reflexivity ].
      split; [ apply NoDup_setOwn; exact Hnd | split ].
      * intros k txs'. rewrite getOwn_setOwn, groupMembers_snoc, Hg.
        fold norm. cbn [andb]. destruct (String.eqb_spec norm k) as [<- | Hne].
        -- intros H. injection H as <-.
           assert (Hnone : groupMembers all norm done = []).
           { apply filter_nil_of. intros x Hx Hfx.
             apply andb_prop in Hfx. destruct Hfx as [Hgx Hkx].
             apply String.eqb_eq in Hkx.
             apply getOwn_None in Hget. apply Hget.
             rewrite <- Hkx. apply Hkeys; assumption. }
           rewrite Hnone. split; [ reflexivity | split; [ discriminate | exact Hinh ] ].
        -- intros H. rewrite app_nil_r. apply Hent. exact H.
      * intros t' Hin Hg'. apply In_keys_setOwn.
        apply in_app_or in Hin. destruct Hin as [Hin | [<- | []]].
        -- right. apply Hkeys; assumption.
        -- left. reflexivity.
  - intros H. injection H as <-. split; [ | split; reflexivity ].
    split; [ exact Hnd | split ].
    + intros k txs Hget. rewrite groupMembers_snoc, Hg. cbn [andb].
      rewrite app_nil_r. apply Hent. exact Hget.
    + intros t' Hin Hg'. apply in_app_or in Hin.
      destruct Hin as [Hin | [<- | []]]; [ apply Hkeys; assumption | congruence ].
Qed.

End Loop.

Section LoopSpending.

Import JSObject JSObjectFacts JSNumber.

Variable monthAgo : float.
Variable all : list NormTx.

Lemma sumAbs_amounts (l : list NormTx) :
  sumAbs l = fold_left (fun a b => a + b) (amountsOf l) 0.
Proof.
  unfold sumAbs, amountsOf. generalize 0.
  induction l as [ | t l IH]; intros acc; cbn [fold_left map]; [ reflexivity | ].
  apply IH.
Qed.

Lemma sumAbs_snoc (l : list NormTx) (t : NormTx) :
  sumAbs (l ++ [t]) = sumAbs l + abs (t_amountNum t).
Proof. unfold sumAbs. rewrite fold_left_app. reflexivity. Qed.

Lemma amountsOf_units (l : list NormTx) :
  (forall t, In t l -> (t_amountNum t <? 0) = true) ->
  Forall (units 1) (amountsOf l).
Proof.
  intros H. unfold amountsOf. apply Forall_forall. intros a Ha.
  apply in_map_iff in Ha. destruct Ha as [t [<- Ht]].
  apply Binary64.negative_abs_units. apply H. exact Ht.
Qed.

(** A sum of amounts of negative transactions is a positive number. *)
Lemma sumAbs_units (l : list NormTx) :
  l <> [] -> (forall t, In t l -> (t_amountNum t <? 0) = true) ->
  units (Z.min (Z.of_nat (List.length l)) (2 ^ 53)) (sumAbs l).
Proof.
  intros Hne Hneg. rewrite sumAbs_amounts.
  replace (List.length l) with (List.length (amountsOf l))
    by (unfold amountsOf; apply length_map).
  apply Binary64.sum_units.
  - unfold amountsOf. destruct l; [ congruence | discriminate ].
  - apply amountsOf_units. exact Hneg.
Qed.

Lemma countsAsSpending_negative (t : NormTx) :
  countsAsSpending monthAgo all t = true -> (t_amountNum t <? 0) = true.
Proof.
  unfold countsAsSpending. intros H.
  apply andb_prop in H. destruct H as [H _].
  apply andb_prop in H. destruct H as [_ H]. exact H.
Qed.

Lemma spentBy_negative (name : string) (l : list NormTx) (t : NormTx) :
  In t (spentBy monthAgo all name l) -> (t_amountNum t <? 0) = true.
Proof.
  unfold spentBy. intros H. apply filter_In in H. destruct H as [_ H].
  apply andb_prop in H. destruct H as [H _].
  apply countsAsSpending_negative. exact H.
Qed.

Lemma spentBy_snoc (name : string) (done : list NormTx) (t : NormTx) :
  spentBy monthAgo all name (done ++ [t])
  = spentBy monthAgo all name done
    ++ (if countsAsSpending monthAgo all t && String.eqb (t_accountName t) name
        then [t] else []).
Proof.
  unfold spentBy. rewrite filter_app. cbn [filter].
  destruct (countsAsSpending monthAgo all t && _); reflexivity.
Qed.

Lemma not_inherited_proto (k : string) :
  inherited k = false -> String.eqb k "__proto__" = false.
Proof.
  intros H. destruct (String.eqb_spec k "__proto__") as [-> | _];
    [ vm_compute in H; discriminate | reflexivity ].
Qed.

Lemma addSpending_built (done : list NormTx) (st : LoopState) (t : NormTx) :
  SpendingBuilt monthAgo all done (st_spendingByAccount st) ->
  st_spending30d st = sumAbs (filter (countsAsSpending monthAgo all) done) ->
  (countsAsSpending monthAgo all t = true ->
   inherited (t_accountName t) = false) ->
  SpendingBuilt monthAgo all (done ++ [t])
                (st_spendingByAccount (addSpending monthAgo all st t))
  /\ st_spending30d (addSpending monthAgo all st t)
     = sumAbs (filter (countsAsSpending monthAgo all) (done ++ [t]))
  /\ st_subGroups (addSpending monthAgo all st t) = st_subGroups st.
Proof.
  intros [Hnd [Hent Hkeys]] Htot Hname. unfold addSpending.
  rewrite filter_app. cbn [filter].
  destruct (countsAsSpending monthAgo all t) eqn:Hs.
  - specialize (Hname eq_refl).
    cbn [st_spendingByAccount st_spending30d st_subGroups].
    rewrite sumAbs_snoc, <- Htot.
    split; [ | split; reflexivity ].
    set (name := t_accountName t) in *.
    unfold setProp, getProp. rewrite (not_inherited_proto name Hname), Hname.
    split; [ apply NoDup_setOwn; exact Hnd | split ].
    + intros k v. rewrite getOwn_setOwn, spentBy_snoc, Hs. fold name.
      cbn [andb]. destruct (String.eqb_spec name k) as [<- | Hne].
      * intros H. injection H as <-.
        split; [ intros Hnil; apply app_eq_nil in Hnil;
                 destruct Hnil; discriminate | ].
        destruct (getOwn (st_spendingByAccount st) name) as [v0 | ] eqn:Hget.
        -- destruct (Hent name v0 Hget) as [Hne0 ->].
           cbn [orZero]. unfold falsy.
           destruct (Binary64.units_truthy _ _
                       (sumAbs_units _ Hne0 (spentBy_negative name done)))
             as [-> ->].
           cbn [orb plus]. rewrite sumAbs_snoc. reflexivity.
        -- assert (Hnone : spentBy monthAgo all name done = []).
           { apply filter_nil_of. intros x Hx Hfx.
             apply andb_prop in Hfx. destruct Hfx as [Hsx Hkx].
             apply String.eqb_eq in Hkx.
             apply getOwn_None in Hget. apply Hget.
             rewrite <- Hkx. apply Hkeys; assumption. }
           rewrite Hnone. reflexivity.
      * intros H. rewrite app_nil_r. apply Hent. exact H.
    + intros t' Hin Hs'. apply In_keys_setOwn.
      apply in_app_or in Hin. destruct Hin as [Hin | [<- | []]].
      * right. apply Hkeys; assumption.
      * left. reflexivity.
  - rewrite app_nil_r. split; [ | split; [ exact Htot | reflexivity ] ].
    split; [ exact Hnd | split ].
    + intros k v Hget. rewrite spentBy_snoc, Hs. cbn [andb].
      rewrite app_nil_r. apply Hent. exact Hget.
    + intros t' Hin Hs'. apply in_app_or in Hin.
      destruct Hin as [Hin | [<- | []]]; [ apply Hkeys; assumption | congruence ].
Qed.

(** The loop, from a state built on [done], over the rest. *)
Lemma forEach_built (rest : list NormTx) :
  forall (done : list NormTx) (st st' : LoopState),
    GroupsBuilt all done (st_subGroups st) ->
    SpendingBuilt monthAgo all done (st_spendingByAccount st) ->
    st_spending30d st = sumAbs (filter (countsAsSpending monthAgo all) done) ->
    (forall t, In t rest -> countsAsSpending monthAgo all t = true ->
               inherited (t_accountName t) = false) ->
    forEach (body monthAgo all) rest st = Normal st' ->
    GroupsBuilt all (done ++ rest) (st_subGroups st')
    /\ SpendingBuilt monthAgo all (done ++ rest) (st_spendingByAccount st')
    /\ st_spending30d st'
       = sumAbs (filter (countsAsSpending monthAgo all) (done ++ rest)).
Proof.
  induction rest as [ | t rest IH]; intros done st st' Hg Hs Htot Hnames.
  - cbn [forEach]. intros H. injection H as <-. rewrite app_nil_r. auto.
  - cbn [forEach]. unfold body at 1.
    destruct (addSpending_built done st t Hs Htot
                (Hnames t (or_introl eq_refl))) as [Hs1 [Htot1 Hsg1]].
    destruct (addToGroup all (addSpending monthAgo all st t) t)
      as [st1 | ] eqn:E; [ | discriminate ].
    rewrite <- Hsg1 in Hg.
    destruct (addToGroup_built all done _ st1 t Hg E) as [Hg2 [Htot2 Hs2]].
    intros H.
    replace (done ++ t :: rest) with ((done ++ [t]) ++ rest)
      by (rewrite <- app_assoc; reflexivity).
    apply (IH (done ++ [t]) st1 st').
    + exact Hg2.
    + rewrite Hs2. exact Hs1.
    + rewrite Htot2. exact Htot1.
    + intros t' Hin. apply Hnames. right. exact Hin.
    + exact H.
Qed.

End LoopSpending.

Section LoopGroups.

Import JSObject JSObjectFacts.

Variable monthAgo : float.
Variable all : list NormTx.

Lemma addSpending_subGroups (st : LoopState) (t : NormTx) :
  st_subGroups (addSpending monthAgo all st t) = st_subGroups st.
Proof. unfold addSpending. destruct (countsAsSpending _ _ _); reflexivity. Qed.

Lemma addSpending_total (done : list NormTx) (st : LoopState) (t : NormTx) :
  st_spending30d st = sumAbs (filter (countsAsSpending monthAgo all) done) ->
  st_spending30d (addSpending monthAgo all st t)
  = sumAbs (filter (countsAsSpending monthAgo all) (done ++ [t])).
Proof.
  intros Htot. unfold addSpending. rewrite filter_app. cbn [filter].
  destruct (countsAsSpending monthAgo all t).
  - cbn [st_spending30d]. rewrite sumAbs_snoc, Htot. reflexivity.
  - rewrite app_nil_r. exact Htot.
Qed.

(** The groups and the total, whatever the names of the accounts. *)
Lemma forEach_groups (rest : list NormTx) :
  forall (done : list NormTx) (st st' : LoopState),
    GroupsBuilt all done (st_subGroups st) ->
    st_spending30d st = sumAbs (filter (countsAsSpending monthAgo all) done) ->
    forEach (body monthAgo all) rest st = Normal st' ->
    GroupsBuilt all (done ++ rest) (st_subGroups st')
    /\ st_spending30d st'
       = sumAbs (filter (countsAsSpending monthAgo all) (done ++ rest)).
Proof.
  induction rest as [ | t rest IH]; intros done st st' Hg Htot.
  - cbn [forEach]. intros H. injection H as <-. rewrite app_nil_r. auto.
  - cbn [forEach]. unfold body at 1.
    destruct (addToGroup all (addSpending monthAgo all st t) t)
      as [st1 | ] eqn:E; [ | discriminate ].
    rewrite <- (addSpending_subGroups st t) in Hg.
    destruct (addToGroup_built all done _ st1 t Hg E) as [Hg2 [Htot2 _]].
    intros H.
    replace (done ++ t :: rest) with ((done ++ [t]) ++ rest)
      by (rewrite <- app_assoc; reflexivity).
    apply (IH (done ++ [t]) st1 st'); [ exact Hg2 | | exact H ].
    rewrite Htot2. apply addSpending_total. exact Htot.
Qed.

(** The loop ends normally when no group would be stored under an
    inherited name. *)
Lemma forEach_completes (rest : list NormTx) :
  forall st : LoopState,
    (forall t, In t rest -> isGrouped all t = true ->
               inherited (groupingKey (t_description t)) = false) ->
    exists st', forEach (body monthAgo all) rest st = Normal st'.
Proof.
  induction rest as [ | t rest IH]; intros st Hk; cbn [forEach].
  - exists st. reflexivity.
  - assert (Hstep : exists st1,
               body monthAgo all st t = Normal st1).
    { unfold body, addToGroup.
      destruct (isGrouped all t) eqn:Hg; [ | eexists; reflexivity ].
      destruct (getOwn _ _); [ eexists; reflexivity | ].
      rewrite (Hk t (or_introl eq_refl) Hg). eexists; reflexivity. }
    destruct Hstep as [st1 ->]. apply IH.
    intros t' Hin. apply Hk. right. exact Hin.
Qed.

Lemma initial_built :
  GroupsBuilt all [] (st_subGroups initialState)
  /\ SpendingBuilt monthAgo all [] (st_spendingByAccount initialState)
  /\ st_spending30d initialState
     = sumAbs (filter (countsAsSpending monthAgo all) []).
Proof.
  unfold GroupsBuilt, SpendingBuilt. cbn.
  repeat split; try constructor; try discriminate; try tauto.
Qed.

End LoopGroups.

(** ** The stable sort *)

Module SortFacts.

Import JSNumber.

Section AnyComparator.

Context {A : Type}.
Variable cmp : A -> A -> float.

Lemma insertSorted_perm (x : A) (l : list A) :
  Permutation (insertSorted cmp x l) (x :: l).
Proof.
  induction l as [ | y l IH]; cbn [insertSorted]; [ reflexivity | ].
  destruct (cmp y x <? 0); [ | reflexivity ].
  rewrite IH. apply perm_swap.
Qed.

Lemma sort_perm (l : list A) : Permutation (sort cmp l) l.
Proof.
  induction l as [ | x l IH]; cbn [sort fold_right]; [ reflexivity | ].
  fold (sort cmp l). rewrite insertSorted_perm, IH. reflexivity.
Qed.

Lemma sort_In (l : list A) (x : A) : In x (sort cmp l) <-> In x l.
Proof.
  split; apply Permutation_in;
    [ apply sort_perm | apply Permutation_sym, sort_perm ].
Qed.

Lemma sort_length (l : list A) : List.length (sort cmp l) = List.length l.
Proof. apply Permutation_length, sort_perm. Qed.

End AnyComparator.

Section Descending.

Context {A : Type}.
Variable f : A -> float.

Lemma descending_test (x y : A) :
  isNumber (f x) -> isNumber (f y) ->
  (descending f y x <? 0) = (fkey (f x) <? fkey (f y))%Z.
Proof.
  intros Hx Hy. unfold descending.
  rewrite Binary64.sub_negative. apply Binary64.ltb_fkey; assumption.
Qed.

Lemma insertSorted_sorted (x : A) (l : list A) :
  isNumber (f x) -> Forall (fun z => isNumber (f z)) l ->
  StronglySorted (notBelow f) l ->
  StronglySorted (notBelow f) (insertSorted (descending f) x l).
Proof.
  intros Hx Hl Hs. induction Hs as [ | y l Hs IH Hy]; cbn [insertSorted].
  - constructor; constructor.
  - inversion Hl as [ | ? ? Hny Hl']; subst.
    rewrite (descending_test x y Hx Hny).
    destruct (Z.ltb_spec (fkey (f x)) (fkey (f y))) as [Hlt | Hge].
    + constructor; [ apply IH; exact Hl' | ].
      apply (Permutation_Forall (Permutation_sym (insertSorted_perm _ x l))).
      constructor; [ unfold notBelow; lia | exact Hy ].
    + constructor; [ constructor; assumption | ].
      constructor; [ exact Hge | ].
      eapply Forall_impl; [ | exact Hy ].
      unfold notBelow. intros z Hz. lia.
Qed.

Lemma sort_sorted (l : list A) :
  Forall (fun z => isNumber (f z)) l ->
  StronglySorted (notBelow f) (sort (descending f) l).
Proof.
  induction l as [ | x l IH]; intros Hl; cbn [sort fold_right].
  - constructor.
  - inversion Hl as [ | ? ? Hx Hl']; subst. fold (sort (descending f) l).
    apply insertSorted_sorted; [ exact Hx | | apply IH; exact Hl' ].
    apply (Permutation_Forall (Permutation_sym (sort_perm (descending f) l))).
    exact Hl'.
Qed.



Lemma sorted_head (x : A) (l : list A) (y : A) :
  StronglySorted (notBelow f) (x :: l) -> In y (x :: l) -> notBelow f x y.
Proof.
  intros Hs [<- | Hin].
  - unfold notBelow. lia.
  - inversion Hs as [ | ? ? _ Hall]; subst.
    rewrite Forall_forall in Hall. apply Hall. exact Hin.
Qed.

Lemma sorted_app (l1 l2 : list A) (a b : A) :
  StronglySorted (notBelow f) (l1 ++ l2) -> In a l1 -> In b l2 -> notBelow f a b.
Proof.
  induction l1 as [ | x l1 IH]; cbn [app]; [ contradiction | ].
  intros Hs [<- | Hin] Hb.
  - apply (sorted_head x (l1 ++ l2)); [ exact Hs | ].
    right. apply in_or_app. right. exact Hb.
  - inversion Hs; subst. apply IH; assumption.
Qed.

Lemma sorted_firstn (n : nat) (l : list A) :
  StronglySorted (notBelow f) l -> StronglySorted (notBelow f) (firstn n l).
Proof.
  intros Hs. revert n. induction Hs as [ | x l Hs IH Hx]; intros [ | n];
    cbn [firstn]; try constructor.
  - apply IH.
  - rewrite Forall_forall in *. intros y Hy. apply Hx.
    rewrite <- (firstn_skipn n l). apply in_or_app. left. exact Hy.
Qed.

End Descending.

End SortFacts.

(** ** Candidates *)

Section Candidates.

Import JSNumber SortFacts.

Lemma hd_error_rev_last {A : Type} (l : list A) (d : A) :
  l <> [] -> hd_error (rev l) = Some (last l d).
Proof.
  intros Hne. destruct (exists_last Hne) as [l' [x ->]].
  rewrite rev_app_distr, last_last. reflexivity.
Qed.

Lemma byPostedDesc_descending : byPostedDesc = descending t_posted.
Proof. reflexivity. Qed.

Lemma withinTolerance_iff (avg a : float) :
  withinTolerance avg a = true <->
  (abs (a - avg) / avg <? 0.3) = true \/ (abs (a - avg) <? 10) = true.
Proof. unfold withinTolerance. apply orb_true_iff. Qed.

Lemma consistentAmount_iff (members : list NormTx) :
  consistentAmount (amountsOf (sort byPostedDesc members)) = true <->
  forall t, In t members ->
            (abs (abs (t_amountNum t) - groupAverage members)
             / groupAverage members <? 0.3) = true
            \/ (abs (abs (t_amountNum t) - groupAverage members) <? 10) = true.
Proof.
  unfold consistentAmount, groupAverage. rewrite forallb_forall. split.
  - intros H t Ht. apply withinTolerance_iff. apply H.
    unfold amountsOf. apply in_map_iff. exists t. split; [ reflexivity | ].
    apply sort_In. exact Ht.
  - intros H a Ha. unfold amountsOf in Ha. apply in_map_iff in Ha.
    destruct Ha as [t [<- Ht]]. apply withinTolerance_iff. apply H.
    apply sort_In in Ht. exact Ht.
Qed.

Lemma hasTimeSpread_iff (members : list NormTx) :
  hasTimeSpread (sort byPostedDesc members) = true <->
  exists newest oldest,
    newestOf members = Some newest /\ oldestOf members = Some oldest
    /\ (432000 <? abs (t_posted newest - t_posted oldest)) = true.
Proof.
  unfold hasTimeSpread, newestOf, oldestOf.
  destruct (sort byPostedDesc members) as [ | newest txs] eqn:E.
  - split; [ discriminate | ]. intros [n [o [H _]]]. discriminate.
  - rewrite (hd_error_rev_last (newest :: txs) newest) by discriminate.
    cbn [hd_error]. change (5 * 24 * 60 * 60) with 432000. split.
    + intros H. eexists. eexists. repeat split. exact H.
    + intros [n [o [Hn [Ho H]]]]. injection Hn as <-. injection Ho as <-.
      exact H.
Qed.

(** What one group pushes on [rawSubscriptions]. *)
Lemma candidate_spec (k : string) (members : list NormTx) (s : Subscription) :
  In s (candidate (k, members)) <->
  (2 <= List.length members)%nat /\ Qualifies members
  /\ exists newest, newestOf members = Some newest
                    /\ s = recordOf k members newest.
Proof.
  unfold candidate, Qualifies, recordOf.
  rewrite <- consistentAmount_iff, <- hasTimeSpread_iff.
  rewrite sort_length. fold (groupAverage members).
  unfold newestOf.
  destruct (Nat.leb_spec 2 (List.length members)) as [Hlen | Hlen].
  - destruct (consistentAmount _); cbn [andb].
    + destruct (hasTimeSpread _); cbn [andb].
      * destruct (1 <? groupAverage members).
        -- destruct (sort byPostedDesc members) as [ | newest txs]; cbn [hd_error In].
           ++ split; [ contradiction | ]. intros [_ [_ [n [H _]]]]. discriminate.
           ++ split.
              ** intros [<- | []]. repeat split; auto. exists newest. auto.
              ** intros [_ [_ [n [Hn ->]]]]. injection Hn as <-. left. reflexivity.
        -- split; [ contradiction | ]. intros [_ [[_ [_ H]] _]]. discriminate.
      * split; [ contradiction | ]. intros [_ [[_ [H _]] _]]. discriminate.
    + split; [ contradiction | ]. intros [_ [[H _] _]]. discriminate.
  - split; [ contradiction | ]. intros [H _]. lia.
Qed.

Lemma In_rawSubscriptions (subGroups : JSObject.t (list NormTx))
      (s : Subscription) :
  In s (rawSubscriptions subGroups) <->
  exists k members, In (k, members) subGroups /\ In s (candidate (k, members)).
Proof.
  unfold rawSubscriptions. rewrite in_flat_map. split.
  - intros [[k members] [H1 H2]]. exists k, members. auto.
  - intros [k [members [H1 H2]]]. exists (k, members). auto.
Qed.

Lemma candidate_norm (k : string) (members : list NormTx) (s : Subscription) :
  In s (candidate (k, members)) -> norm s = k.
Proof.
  intros H. apply candidate_spec in H.
  destruct H as [_ [_ [newest [_ ->]]]]. reflexivity.
Qed.

Lemma candidate_at_most_one (k : string) (members : list NormTx) :
  candidate (k, members) = []
  \/ exists s, candidate (k, members) = [s].
Proof.
  unfold candidate. destruct (2 <=? _)%nat; [ | left; reflexivity ].
  destruct (_ && _ && _); [ | left; reflexivity ].
  destruct (sort byPostedDesc members); [ left; reflexivity | right ].
  eexists. reflexivity.
Qed.

Lemma rawSubscriptions_norms (subGroups : JSObject.t (list NormTx)) :
  NoDup (JSObject.keys subGroups) ->
  NoDup (map norm (rawSubscriptions subGroups)).
Proof.
  unfold rawSubscriptions, JSObject.keys.
  induction subGroups as [ | [k members] sg IH]; cbn [flat_map map fst];
    intros Hnd; [ constructor | ].
  inversion Hnd as [ | ? ? Hnotin Hnd']; subst.
  destruct (candidate_at_most_one k members) as [-> | [s Hs]].
  - cbn [app]. apply IH. exact Hnd'.
  - rewrite Hs. cbn [app map]. constructor; [ | apply IH; exact Hnd' ].
    rewrite (candidate_norm k members s) by (rewrite Hs; left; reflexivity).
    intros Hin. apply in_map_iff in Hin. destruct Hin as [s' [Hn Hin]].
    apply in_flat_map in Hin. destruct Hin as [[k' members'] [Hin1 Hin2]].
    apply candidate_norm in Hin2. apply Hnotin.
    apply in_map_iff. exists (k', members'). split; [ | exact Hin1 ].
    cbn [fst]. congruence.
Qed.

Lemma dedup_subset (subs : list Subscription) :
  forall seen s, In s (dedup seen subs) -> In s subs.
Proof.
  induction subs as [ | x subs IH]; intros seen s; cbn [dedup]; [ tauto | ].
  destruct (JSString.arrayIncludes seen (norm x)).
  - intros H. right. apply (IH _ _ H).
  - intros [<- | H]; [ left; reflexivity | right; apply (IH _ _ H) ].
Qed.

Lemma dedup_id (subs : list Subscription) :
  forall seen,
    NoDup (map norm subs) ->
    (forall s, In s subs -> ~ In (norm s) seen) ->
    dedup seen subs = subs.
Proof.
  induction subs as [ | x subs IH]; intros seen Hnd Hseen; cbn [dedup];
    [ reflexivity | ].
  cbn [map] in Hnd. inversion Hnd as [ | ? ? Hnotin Hnd']; subst.
  assert (Hx : JSString.arrayIncludes seen (norm x) = false).
  { unfold JSString.arrayIncludes.
    destruct (existsb _ seen) eqn:E; [ | reflexivity ].
    apply existsb_exists in E. destruct E as [k [Hk1 Hk2]].
    apply String.eqb_eq in Hk2. subst k.
    exfalso. apply (Hseen x); [ left; reflexivity | exact Hk1 ]. }
  rewrite Hx. f_equal. apply IH; [ exact Hnd' | ].
  intros s Hs [Heq | Hin].
  - apply Hnotin. rewrite Heq. apply in_map. exact Hs.
  - apply (Hseen s); [ right; exact Hs | exact Hin ].
Qed.

End Candidates.

(** ** The reported list *)

Section Reported.

Import JSNumber SortFacts JSObject JSObjectFacts.

Lemma byAmountDesc_descending : byAmountDesc = descending amount.
Proof. reflexivity. Qed.


Lemma StronglySorted_weaken {A : Type} (R R' : A -> A -> Prop) (l : list A) :
  (forall a b, In a l -> In b l -> R a b -> R' a b) ->
  StronglySorted R l -> StronglySorted R' l.
Proof.
  intros H Hs. induction Hs as [ | x l Hs IH Hx]; constructor.
  - apply IH. intros a b Ha Hb. apply H; right; assumption.
  - rewrite Forall_forall in *. intros y Hy.
    apply H; [ left; reflexivity | right; exact Hy | apply Hx; exact Hy ].
Qed.

Lemma notBelow_leb {A : Type} (f : A -> float) (a b : A) :
  isNumber (f a) -> isNumber (f b) ->
  notBelow f a b -> (f b <=? f a) = true.
Proof.
  intros Ha Hb H. rewrite Binary64.leb_fkey by assumption.
  apply Z.leb_le. exact H.
Qed.

Lemma reported_spec (raw : list Subscription) :
  NoDup (map norm raw) ->
  (forall s, In s raw -> isNumber (amount s)) ->
  exists sorted,
    reported raw = firstn 20 sorted
    /\ Permutation sorted raw
    /\ StronglySorted (notBelow amount) sorted.
Proof.
  intros Hnd Hnum. exists (sort byAmountDesc (sort byCountDesc raw)).
  assert (Hp : Permutation (sort byCountDesc raw) raw) by apply sort_perm.
  split; [ | split ].
  - unfold reported. rewrite dedup_id; [ reflexivity | | intros ? ? [] ].
    apply (Permutation_NoDup (Permutation_map norm (Permutation_sym Hp))).
    exact Hnd.
  - rewrite sort_perm. exact Hp.
  - rewrite byAmountDesc_descending. apply sort_sorted.
    apply Forall_forall. intros s Hs. apply Hnum.
    apply (Permutation_in _ Hp). exact Hs.
Qed.

Lemma reported_subset (raw : list Subscription) (s : Subscription) :
  In s (reported raw) -> In s raw.
Proof.
  unfold reported. intros H.
  assert (H1 : In s (sort byAmountDesc (dedup [] (sort byCountDesc raw)))).
  { rewrite <- (firstn_skipn 20 (sort byAmountDesc _)).
    apply in_or_app. left. exact H. }
  apply sort_In in H1. apply dedup_subset in H1. apply sort_In in H1. exact H1.
Qed.


(** A candidate is reported, unless twenty reported ones are not below
    it. *)
Lemma reported_or_cut (raw : list Subscription) (s : Subscription) :
  NoDup (map norm raw) ->
  (forall s, In s raw -> isNumber (amount s)) ->
  In s raw ->
  In s (reported raw)
  \/ (List.length (reported raw) = 20%nat
      /\ forall s', In s' (reported raw) -> (amount s <=? amount s') = true).
Proof.
  intros Hnd Hnum Hs.
  destruct (reported_spec raw Hnd Hnum) as [sorted [-> [Hp Hsorted]]].
  assert (Hin : In s sorted) by (apply (Permutation_in _ (Permutation_sym Hp)); exact Hs).
  rewrite <- (firstn_skipn 20 sorted) in Hin, Hsorted.
  apply in_app_or in Hin. destruct Hin as [Hin | Hin]; [ left; exact Hin | right ].
  split.
  - rewrite length_firstn. apply Nat.min_l.
    destruct (Nat.le_gt_cases 20 (List.length sorted)) as [H | H]; [ exact H | ].
    rewrite skipn_all2 in Hin by lia. contradiction.
  - intros s' Hs'. apply notBelow_leb.
    + apply Hnum. apply (Permutation_in _ Hp).
      rewrite <- (firstn_skipn 20 sorted). apply in_or_app. left. exact Hs'.
    + apply Hnum. exact Hs.
    + apply (sorted_app amount _ _ s' s Hsorted Hs' Hin).
Qed.

Lemma candidate_amount (k : string) (members : list NormTx) (s : Subscription) :
  In s (candidate (k, members)) ->
  (1 <? amount s) = true /\ (2 <= count s)%nat.
Proof.
  intros H. apply candidate_spec in H.
  destruct H as [Hlen [[_ [_ Havg]] [newest [_ ->]]]].
  cbn [amount count recordOf]. split; assumption.
Qed.

Lemma rawSubscriptions_amount (subGroups : JSObject.t (list NormTx))
      (s : Subscription) :
  In s (rawSubscriptions subGroups) ->
  (1 <? amount s) = true /\ (2 <= count s)%nat.
Proof.
  intros H. apply In_rawSubscriptions in H.
  destruct H as [k [members [_ H]]]. apply (candidate_amount k members s H).
Qed.

Lemma rawSubscriptions_isNumber (subGroups : JSObject.t (list NormTx))
      (s : Subscription) :
  In s (rawSubscriptions subGroups) -> isNumber (amount s).
Proof.
  intros H. apply rawSubscriptions_amount in H. destruct H as [H _].
  apply Binary64.ltb_true_isNumber in H. tauto.
Qed.

(** The groups the loop has built are the groups of the specification. *)
Lemma built_group_iff (all : list NormTx)
      (subGroups : JSObject.t (list NormTx)) (k : string)
      (members : list NormTx) :
  GroupsBuilt all all subGroups ->
  In (k, members) subGroups <->
  members = groupMembers all k all /\ members <> [].
Proof.
  intros [Hnd [Hent Hkeys]]. split.
  - intros H. apply (In_getOwn _ _ _ Hnd) in H.
    destruct (Hent k members H) as [H1 [H2 _]]. auto.
  - intros [-> Hne].
    destruct (groupMembers all k all) as [ | t rest] eqn:E; [ congruence | ].
    assert (Ht : In t (groupMembers all k all)) by (rewrite E; left; reflexivity).
    unfold groupMembers in Ht. apply filter_In in Ht.
    destruct Ht as [Ht1 Ht2]. apply andb_prop in Ht2.
    destruct Ht2 as [Hg Hk]. apply String.eqb_eq in Hk.
    specialize (Hkeys t Ht1 Hg). rewrite Hk in Hkeys.
    destruct (getOwn subGroups k) as [v | ] eqn:Hget.
    + destruct (Hent k v Hget) as [Hv _]. rewrite Hv, E in Hget.
      apply getOwn_Some_In. exact Hget.
    + apply getOwn_None in Hget. contradiction.
Qed.

End Reported.

(** ** The report *)

Section ReportFacts.

Import JSNumber SortFacts JSObject JSObjectFacts.

Variable parseFloat : string -> float.

(** A report comes from a loop that ended normally, on groups that are
    the groups of the specification. *)
Lemma stats_built (data : SimpleFINData) (dateNow : float) (r : Report) :
  stats parseFloat (Some data) dateNow = Normal r ->
  exists st,
    forEach (body (dateNow / 1000 - 30 * 24 * 60 * 60)
                  (allTransactions parseFloat data))
            (allTransactions parseFloat data) initialState = Normal st
    /\ GroupsBuilt (allTransactions parseFloat data)
                   (allTransactions parseFloat data) (st_subGroups st)
    /\ subscriptions r = reported (rawSubscriptions (st_subGroups st))
    /\ spending30d r = st_spending30d st
    /\ spendingByAccount r = st_spendingByAccount st.
Proof.
  intros H. apply stats_Normal in H. destruct H as [st [Hloop ->]].
  exists st. split; [ exact Hloop | ].
  destruct (initial_built (dateNow / 1000 - 30 * 24 * 60 * 60)
                          (allTransactions parseFloat data)) as [Hg [_ Ht]].
  destruct (forEach_groups _ _ _ [] _ _ Hg Ht Hloop) as [Hg' _].
  cbn [app] in Hg'. split; [ exact Hg' | repeat split ].
Qed.

(** [stats] returns a report when no group would be stored under an
    inherited name. *)
Lemma stats_returns (data : SimpleFINData) (dateNow : float) :
  (forall t, In t (allTransactions parseFloat data) ->
             isGrouped (allTransactions parseFloat data) t = true ->
             JSObject.inherited (groupingKey (t_description t)) = false) ->
  exists r, stats parseFloat (Some data) dateNow = Normal r.
Proof.
  intros H. unfold stats.
  destruct (forEach_completes (dateNow / 1000 - 30 * 24 * 60 * 60)
                              (allTransactions parseFloat data)
                              (allTransactions parseFloat data)
                              initialState H) as [st ->].
  eexists. reflexivity.
Qed.

End ReportFacts.




(** ** The average of a group *)

Section Average.

Import JSNumber SortFacts.

Lemma above_one_units (a : float) : (1 <? a) = true -> units 1 a.
Proof.
  rewrite ltb_spec. unfold units.
  change (Prim2SF 1) with (S754_finite false 4503599627370496 (-52)).
  pose proof (Prim2SF_valid a) as V.
  destruct (Prim2SF a) as [ | [|] | | [|] m e]; cbn; try discriminate; auto.
  intros _. apply Binary64.valid_finite in V. destruct V as [He _].
  repeat split; [ lia | apply Binary64.scaled_pos; lia ].
Qed.

(** The average of at least one and fewer than [2^53] positive amounts
    is positive. *)
Lemma average_units (amounts : list float) :
  amounts <> [] -> (Z.of_nat (List.length amounts) < 2 ^ 53)%Z ->
  Forall (units 1) amounts ->
  units 1 (average amounts).
Proof.
  intros Hne Hlen Hpos. unfold average.
  apply Binary64.div_ofNat_units.
  - destruct amounts; [ congruence | cbn; lia ].
  - exact Hlen.
  - eapply Binary64.units_weaken; [ | apply Binary64.sum_units; assumption ].
    lia.
Qed.

Lemma groupMembers_negative (all : list NormTx) (k : string) (t : NormTx) :
  In t (groupMembers all k all) -> (t_amountNum t <? 0) = true.
Proof.
  unfold groupMembers, isGrouped. intros H. apply filter_In in H.
  destruct H as [_ H]. repeat (apply andb_prop in H; destruct H as [H _]).
  exact H.
Qed.

End Average.

(** C9: every member of a group the loop has formed has a negative
    amount; the average of a group of at least two members (an array
    has fewer than [2^32] elements, and so fewer than [2^53]) is
    positive, so that the percentage check
    [|a - avg| / avg], a total operation on numbers in any case, does
    not divide by zero; and what a group is reported with has an amount
    above 1, which is not 0. *)
Theorem average_positive :
  forall (parseFloat : string -> float) (data : SimpleFINData)
         (dateNow : float) (st : LoopState) (k : string)
         (members : list NormTx),
    forEach (body (dateNow / 1000 - 30 * 24 * 60 * 60)
                  (allTransactions parseFloat data))
            (allTransactions parseFloat data) initialState = Normal st ->
    In (k, members) (st_subGroups st) ->
    (forall t, In t members -> (t_amountNum t <? 0) = true)
    /\ ((2 <= List.length members)%nat ->
        (Z.of_nat (List.length members) < 2 ^ 53)%Z ->
        let amounts := amountsOf (JSNumber.sort byPostedDesc members) in
        (0 <? average amounts) = true
        /\ (average amounts =? 0) = false
        /\ forall a, In a amounts -> (0 <? a) = true)
    /\ (forall s, In s (candidate (k, members)) ->
                  (1 <? amount s) = true /\ (amount s =? 0) = false).
Proof.
  intros parseFloat data dateNow st k members Hloop Hin.
  set (all := allTransactions parseFloat data) in *.
  destruct (initial_built (dateNow / 1000 - 30 * 24 * 60 * 60) all)
    as [Hg [_ Ht]].
  destruct (forEach_groups _ _ _ [] _ _ Hg Ht Hloop) as [Hg' _].
  cbn [app] in Hg'.
  apply (built_group_iff all _ k members Hg') in Hin.
  destruct Hin as [-> Hne].
  assert (Hneg : forall t, In t (groupMembers all k all) ->
                           (t_amountNum t <? 0) = true)
    by (intros t; apply groupMembers_negative).
  split; [ exact Hneg | split ].
  - intros Hlen Hbound amounts.
    assert (Hu : Forall (JSNumber.units 1) amounts).
    { apply amountsOf_units. intros t Ht'. apply Hneg.
      apply SortFacts.sort_In in Ht'. exact Ht'. }
    assert (Hl : List.length amounts = List.length (groupMembers all k all)).
    { unfold amounts, amountsOf. rewrite length_map. apply SortFacts.sort_length. }
    assert (Havg : JSNumber.units 1 (average amounts)).
    { apply average_units; [ | rewrite Hl; exact Hbound | exact Hu ].
      intros E. rewrite E in Hl. cbn in Hl. lia. }
    split; [ apply (Binary64.units_positive _ _ Havg) | split ].
    + apply (Binary64.units_truthy _ _ Havg).
    + intros a Ha. rewrite Forall_forall in Hu.
      apply (Binary64.units_positive _ _ (Hu a Ha)).
  - intros s Hs. apply candidate_amount in Hs. destruct Hs as [Hs _].
    split; [ exact Hs | ].
    apply (Binary64.units_truthy _ _ (above_one_units _ Hs)).
Qed.

Lemma average_positive_witness :
  exists (st : LoopState) (members : list NormTx),
    forEach (body (Examples.dateNow / 1000 - 30 * 24 * 60 * 60)
                  SubscriptionExamples.groceryTransactions)
            SubscriptionExamples.groceryTransactions initialState = Normal st
    /\ In ("whole foods", members) (st_subGroups st)
    /\ map t_id members = ["t1"; "t3"]
    /\ average (amountsOf (JSNumber.sort byPostedDesc members)) = 120
    /\ (forall t, In t members -> (t_amountNum t <? 0) = true)
    /\ ((2 <= List.length members)%nat ->
        (Z.of_nat (List.length members) < 2 ^ 53)%Z ->
        let amounts := amountsOf (JSNumber.sort byPostedDesc members) in
        (0 <? average amounts) = true
        /\ (average amounts =? 0) = false
        /\ forall a, In a amounts -> (0 <? a) = true)
    /\ (forall s, In s (candidate ("whole foods", members)) ->
                  (1 <? amount s) = true /\ (amount s =? 0) = false).
Proof.
  eexists. eexists.
  split; [ vm_compute; reflexivity | ].
  split; [ cbn [st_subGroups]; left; reflexivity | ].
  split; [ reflexivity | ].
  split; [ vm_compute; reflexivity | ].
  eapply (average_positive Decimal.parseDecimal
                           SubscriptionExamples.groceryData Examples.dateNow).
  - vm_compute. reflexivity.
  - cbn [st_subGroups]. left. reflexivity.
Defined.

(** ** Subscriptions *)

Section NewestOldest.

Import JSNumber SortFacts.

Lemma leb_refl_number (x : float) : isNumber x -> (x <=? x) = true.
Proof. intros H. rewrite Binary64.leb_fkey by assumption. apply Z.leb_refl. Qed.

(** The first of the sorted members is a member with the greatest
    timestamp, and the last one a member with the least. *)
Lemma newest_oldest (members : list NormTx) (newest oldest : NormTx) :
  newestOf members = Some newest -> oldestOf members = Some oldest ->
  In newest members /\ In oldest members
  /\ ((forall t, In t members -> isNumber (t_posted t)) ->
      forall t, In t members ->
                (t_posted oldest <=? t_posted t) = true
                /\ (t_posted t <=? t_posted newest) = true).
Proof.
  unfold newestOf, oldestOf. intros Hn Ho.
  set (txs := sort byPostedDesc members) in *.
  assert (Hhd : exists rest, txs = newest :: rest).
  { destruct txs as [ | x rest]; [ discriminate | ].
    injection Hn as ->. exists rest. reflexivity. }
  assert (Hlast : exists front, txs = front ++ [oldest]).
  { destruct (rev txs) as [ | x r] eqn:E; [ discriminate | ].
    injection Ho as ->. exists (rev r).
    rewrite <- (rev_involutive txs), E. reflexivity. }
  destruct Hhd as [rest Hhd], Hlast as [front Hlast].
  assert (Hin1 : In newest members).
  { apply (sort_In byPostedDesc). fold txs. rewrite Hhd. left. reflexivity. }
  assert (Hin2 : In oldest members).
  { apply (sort_In byPostedDesc). fold txs. rewrite Hlast.
    apply in_or_app. right. left. reflexivity. }
  split; [ exact Hin1 | split; [ exact Hin2 | ] ].
  intros Hnum t Ht.
  assert (Hs : StronglySorted (notBelow t_posted) txs).
  { unfold txs. rewrite byPostedDesc_descending. apply sort_sorted.
    apply Forall_forall. exact Hnum. }
  assert (Ht' : In t txs) by (apply sort_In; exact Ht).
  split.
  - rewrite Hlast in Hs, Ht'. apply in_app_or in Ht'.
    destruct Ht' as [Hf | [<- | []]].
    + apply notBelow_leb; [ apply Hnum; exact Ht | apply Hnum; exact Hin2 | ].
      apply (sorted_app t_posted front [oldest] t oldest Hs Hf).
      left. reflexivity.
    + apply leb_refl_number. apply Hnum. exact Hin2.
  - rewrite Hhd in Hs, Ht'.
    apply notBelow_leb; [ apply Hnum; exact Hin1 | apply Hnum; exact Ht | ].
    apply (sorted_head t_posted newest rest t Hs Ht').
Qed.

End NewestOldest.

(** ** Timestamps that are numbers *)

Section Dates.

Import JSNumber Binary64.

(** A number above a positive number counts at least as many units. *)
Lemma ltb_units (K : Z) (a x : float) :
  units K a -> (a <? x) = true -> units K x.
Proof.
  intros Ha Hlt.
  destruct (ltb_true_isNumber a x Hlt) as [Na Nx].
  rewrite (ltb_fkey a x Na Nx) in Hlt. apply Z.ltb_lt in Hlt.
  unfold units, fkey, isNumber, notNan in *.
  pose proof (Prim2SF_valid x) as Vx. pose proof (Prim2SF_valid a) as Va.
  assert (Hh : (0 < huge)%Z) by (unfold huge; apply Z.pow_pos_nonneg; lia).
  destruct (Prim2SF a) as [ | sa | | sa ma ea]; cbn [rounded] in Ha;
    try contradiction.
  - subst sa. cbn [key] in Hlt.
    destruct (Prim2SF x) as [ | [|] | | sx mx ex]; cbn [key rounded] in *;
      try congruence; try lia.
    pose proof (valid_scaled_bounds _ _ _ Vx) as Bx.
    destruct sx; cbn [cond_Zopp] in Hlt; lia.
  - destruct Ha as [-> [Hea HKa]]. cbn [key cond_Zopp] in Hlt.
    pose proof (valid_scaled_bounds _ _ _ Va) as Ba.
    destruct (Prim2SF x) as [ | [|] | | sx mx ex]; cbn [key rounded] in *;
      try congruence; try lia.
    pose proof (valid_scaled_bounds _ _ _ Vx) as Bx.
    pose proof (valid_finite _ _ _ Vx) as [Hex _].
    destruct sx; cbn [cond_Zopp] in Hlt; [ lia | ].
    repeat split; lia.
Qed.

Lemma units_isNumber (K : Z) (x : float) : units K x -> isNumber x.
Proof.
  unfold units, isNumber, notNan. destruct (Prim2SF x); cbn; try tauto; discriminate.
Qed.

Lemma thousand_ofNat : 1000 = ofNat 1000.
Proof. reflexivity. Qed.

Lemma units_two_billion : units 1000 2000000000.
Proof.
  unfold units. vm_compute. repeat split; discriminate.
Qed.

(** The date in seconds of a date that is a number is a number. *)
Lemma seconds_isNumber (posted : float) :
  isNumber posted ->
  isNumber (if 2000000000 <? posted then posted / 1000 else posted).
Proof.
  intros H. destruct (2000000000 <? posted) eqn:E; [ | exact H ].
  apply (units_isNumber 1). rewrite thousand_ofNat.
  apply div_ofNat_units; [ lia | | ].
  - apply Z.lt_trans with (m := (2 ^ 10)%Z); [ reflexivity | ].
    apply Z.pow_lt_mono_r; lia.
  - apply (ltb_units _ _ _ units_two_billion E).
Qed.

(** With timestamps that are numbers, the timestamps in seconds of
    [allTransactions] are numbers. *)
Lemma allTransactions_posted (parseFloat : string -> float)
      (data : SimpleFINData) :
  (forall acc t, In acc (accounts data) -> In t (transactionsOf acc) ->
                 isNumber (tx_posted t)) ->
  forall t, In t (allTransactions parseFloat data) -> isNumber (t_posted t).
Proof.
  intros Hnum t Ht. apply in_allTransactions in Ht.
  destruct Ht as [acc [raw [Hacc [Hraw ->]]]].
  cbn [normalize t_posted]. unfold normalizePosted.
  apply seconds_isNumber. apply (Hnum acc raw Hacc Hraw).
Qed.

End Dates.

(** C4, as the code has it, for data whose timestamps are numbers: the
    comparator of the sort by timestamp is then a consistent order, and
    the sort puts the newest member first.  The members of the group of
    key [k] are the negative, non-transfer transactions whose key is
    [k].  Every reported subscription is the record of a group of at
    least two members that qualifies: description of the newest member,
    amount the average, count the number of members.  Every such group
    that qualifies is reported with that record, unless the cap cuts
    it: the report then has 20 entries, none of an amount below the
    average of the group.  The newest and the oldest member are members
    of the greatest and of the least timestamp. *)
Theorem subscription_candidates :
  forall (parseFloat : string -> float) (data : SimpleFINData)
         (dateNow : float) (r : Report),
    stats parseFloat (Some data) dateNow = Normal r ->
    (forall acc t, In acc (accounts data) -> In t (transactionsOf acc) ->
                   JSNumber.isNumber (tx_posted t)) ->
    let all := allTransactions parseFloat data in
    (forall s, In s (subscriptions r) ->
               let members := groupMembers all (norm s) all in
               (2 <= List.length members)%nat /\ Qualifies members
               /\ exists newest, newestOf members = Some newest
                                 /\ s = recordOf (norm s) members newest)
    /\ (forall k,
           let members := groupMembers all k all in
           (2 <= List.length members)%nat -> Qualifies members ->
           exists newest,
             newestOf members = Some newest
             /\ (In (recordOf k members newest) (subscriptions r)
                 \/ (List.length (subscriptions r) = 20%nat
                     /\ forall s, In s (subscriptions r) ->
                                  (groupAverage members <=? amount s) = true)))
    /\ (forall k newest oldest,
           let members := groupMembers all k all in
           newestOf members = Some newest -> oldestOf members = Some oldest ->
           In newest members /\ In oldest members
           /\ forall t, In t members ->
                        (t_posted oldest <=? t_posted t) = true
                        /\ (t_posted t <=? t_posted newest) = true).
Proof.
  intros parseFloat data dateNow r H Hposted all.
  destruct (stats_built parseFloat data dateNow r H)
    as [st [_ [Hg [Hsubs _]]]].
  fold all in Hg. rewrite Hsubs.
  set (raw := rawSubscriptions (st_subGroups st)).
  assert (Hnd : NoDup (map norm raw))
    by (apply rawSubscriptions_norms; apply Hg).
  assert (Hnum : forall s, In s raw -> JSNumber.isNumber (amount s))
    by (intros s; apply rawSubscriptions_isNumber).
  split; [ | split ].
  - intros s Hs members. apply reported_subset in Hs.
    apply In_rawSubscriptions in Hs. destruct Hs as [k [ms [Hin Hc]]].
    apply (built_group_iff all _ k ms Hg) in Hin. destruct Hin as [-> _].
    pose proof (candidate_norm _ _ _ Hc) as Hk. subst members. rewrite Hk.
    apply candidate_spec. rewrite <- Hk at 1. rewrite Hk. exact Hc.
  - intros k members Hlen Hq.
    assert (Hq' := Hq). destruct Hq' as [_ [[newest [oldest [Hn _]]] _]].
    exists newest. split; [ exact Hn | ].
    assert (Hc : In (recordOf k members newest) (candidate (k, members))).
    { apply candidate_spec. split; [ exact Hlen | split; [ exact Hq | ] ].
      exists newest. split; [ exact Hn | reflexivity ]. }
    assert (Hraw : In (recordOf k members newest) raw).
    { apply In_rawSubscriptions. exists k, members. split; [ | exact Hc ].
      apply (built_group_iff all _ k members Hg). split; [ reflexivity | ].
      intros E. rewrite E in Hlen. cbn in Hlen. lia. }
    apply (reported_or_cut raw _ Hnd Hnum Hraw).
  - intros k newest oldest members Hn Ho.
    destruct (newest_oldest members newest oldest Hn Ho) as [H1 [H2 H3]].
    split; [ exact H1 | split; [ exact H2 | ] ].
    apply H3. intros t Ht. unfold members, groupMembers in Ht.
    apply filter_In in Ht. destruct Ht as [Ht _].
    apply (allTransactions_posted parseFloat data Hposted t Ht).
Qed.

Lemma subscription_candidates_witness :
  exists r : Report,
    stats Decimal.parseDecimal (Some SubscriptionExamples.groceryData)
          Examples.dateNow = Normal r
    /\ map (fun s => (desc s, count s, norm s)) (subscriptions r)
       = [ ("Whole Foods Market", 2%nat, "whole foods") ]
    /\ map amount (subscriptions r) = [120]
    /\ forall s, In s (subscriptions r) ->
                 let members :=
                   groupMembers
                     (allTransactions Decimal.parseDecimal
                                      SubscriptionExamples.groceryData)
                     (norm s)
                     (allTransactions Decimal.parseDecimal
                                      SubscriptionExamples.groceryData) in
                 (2 <= List.length members)%nat /\ Qualifies members
                 /\ exists newest, newestOf members = Some newest
                                   /\ s = recordOf (norm s) members newest.
Proof.
  eexists. split; [ vm_compute; reflexivity | ].
  split; [ vm_compute; reflexivity | ].
  split; [ vm_compute; reflexivity | ].
  match goal with
  | |- forall s, In s (subscriptions ?r) -> _ =>
      destruct (subscription_candidates
                  Decimal.parseDecimal SubscriptionExamples.groceryData
                  Examples.dateNow r) as [W _];
      [ vm_compute; reflexivity
      | intros acc t [<- | []] [<- | [<- | [<- | [<- | []]]]];
        vm_compute; discriminate
      | exact W ]
  end.
Defined.

(** C4, the cap: of twenty-one qualifying groups, the one of the lowest
    average is not reported. *)
Lemma subscription_cap_counterexample :
  exists r : Report,
    stats Decimal.parseDecimal (Some SubscriptionExamples.capData)
          Examples.dateNow = Normal r
    /\ let all := allTransactions Decimal.parseDecimal
                                  SubscriptionExamples.capData in
       let members := groupMembers all "alpha" all in
       map t_id members = ["alpha-1"; "alpha-2"]
       /\ Qualifies members
       /\ List.length (subscriptions r) = 20%nat
       /\ forall s, In s (subscriptions r) -> norm s <> "alpha".
Proof.
  eexists. split; [ vm_compute; reflexivity | ].
  intros all members.
  split; [ vm_compute; reflexivity | split; [ | split ] ].
  - assert (Hc : exists s, In s (candidate ("alpha", members)))
      by (vm_compute; eexists; left; reflexivity).
    destruct Hc as [s Hc].
    apply (proj1 (candidate_spec "alpha" members s)) in Hc.
    destruct Hc as [_ [Hq _]]. exact Hq.
  - vm_compute. reflexivity.
  - intros s Hs.
    match type of Hs with
    | In s ?l =>
        assert (Hall : forallb (fun s => negb (String.eqb (norm s) "alpha")) l
                       = true) by (vm_compute; reflexivity);
        rewrite forallb_forall in Hall; specialize (Hall s Hs)
    end.
    apply negb_true_iff in Hall. apply String.eqb_neq. exact Hall.
Qed.

(** ** Spending *)

Section Breakdown.

Context {A : Type}.
Variable key : A -> string.

Lemma flat_map_nil (ks : list string) :
  flat_map (fun _ : string => @nil A) ks = [].
Proof. induction ks as [ | k ks IH]; cbn; auto. Qed.

Lemma flat_map_ext_in (g h : string -> list A) (ks : list string) :
  (forall k, In k ks -> g k = h k) -> flat_map g ks = flat_map h ks.
Proof.
  induction ks as [ | k ks IH]; intros H; cbn [flat_map]; [ reflexivity | ].
  rewrite (H k (or_introl eq_refl)), IH; [ reflexivity | ].
  intros k' Hk'. apply H. right. exact Hk'.
Qed.

Lemma flat_map_one_more (t : A) (g : string -> list A) (ks : list string) :
  NoDup ks -> In (key t) ks ->
  Permutation
    (flat_map (fun k => (if String.eqb (key t) k then [t] else []) ++ g k) ks)
    (t :: flat_map g ks).
Proof.
  induction ks as [ | k ks IH]; intros Hnd Hin; [ contradiction | ].
  inversion Hnd as [ | ? ? Hnotin Hnd']; subst. cbn [flat_map].
  destruct (String.eqb_spec (key t) k) as [Heq | Hne].
  - cbn [app]. apply perm_skip. apply Permutation_app_head.
    rewrite (flat_map_ext_in _ g); [ reflexivity | ].
    intros k' Hk'. destruct (String.eqb_spec (key t) k') as [E | _];
      [ | reflexivity ].
    exfalso. apply Hnotin. congruence.
  - cbn [app]. destruct Hin as [E | Hin]; [ congruence | ].
    rewrite (IH Hnd' Hin). symmetry. apply Permutation_middle.
Qed.

(** The elements that satisfy [p], keyed among [ks], are spread over the
    keys, each under its own. *)
Lemma filter_by_key (p : A -> bool) (ks : list string) (l : list A) :
  NoDup ks ->
  (forall t, In t l -> p t = true -> In (key t) ks) ->
  Permutation
    (filter p l)
    (flat_map (fun k => filter (fun t => p t && String.eqb (key t) k) l) ks).
Proof.
  intros Hnd. induction l as [ | t l IH]; intros Hin; cbn [filter].
  - rewrite flat_map_nil. constructor.
  - assert (IH' := IH (fun t' Ht' => Hin t' (or_intror Ht'))).
    destruct (p t) eqn:Hp; cbn [andb].
    + rewrite (flat_map_ext_in _
                 (fun k => (if String.eqb (key t) k then [t] else [])
                             ++ filter (fun t' => p t' && String.eqb (key t') k) l)).
      * rewrite flat_map_one_more;
          [ apply perm_skip; exact IH' | exact Hnd
            | apply Hin; [ left; reflexivity | exact Hp ] ].
      * intros k _. destruct (String.eqb (key t) k); reflexivity.
    + exact IH'.
Qed.

End Breakdown.

(** C10, as the code has it, for accounts whose names are no members of
    [Object.prototype].  The transactions that count as spending are
    those of the last 30 days with a negative amount that are no
    transfers.  The total is their amounts in absolute value, added in
    their order; the dictionary has one entry for each account name
    with such a transaction, the entry of a name is the amounts of the
    transactions of that name, added in their order; and the
    transactions of the entries together are the transactions of the
    total, each one once.  The total and the entries summed add the
    same amounts, in another order. *)
Theorem spending_breakdown :
  forall (parseFloat : string -> float) (data : SimpleFINData)
         (dateNow : float) (r : Report),
    stats parseFloat (Some data) dateNow = Normal r ->
    (forall acc, In acc (accounts data) ->
                 JSObject.inherited (acc_name acc) = false) ->
    let monthAgo := dateNow / 1000 - 30 * 24 * 60 * 60 in
    let all := allTransactions parseFloat data in
    let names := JSObject.keys (spendingByAccount r) in
    spending30d r = sumAbs (filter (countsAsSpending monthAgo all) all)
    /\ NoDup names
    /\ (forall name,
           In name names <->
           exists t, In t all /\ countsAsSpending monthAgo all t = true
                     /\ t_accountName t = name)
    /\ (forall name,
           In name names ->
           JSObject.getOwn (spendingByAccount r) name
           = Some (JNum (sumAbs (spentBy monthAgo all name all))))
    /\ Permutation (filter (countsAsSpending monthAgo all) all)
                   (flat_map (fun name => spentBy monthAgo all name all) names).
Proof.
  intros parseFloat data dateNow r H Hnames monthAgo all names.
  apply stats_Normal in H. destruct H as [st [Hloop Hr]].
  fold monthAgo all in Hloop.
  destruct (initial_built monthAgo all) as [Hg [Hs Ht]].
  assert (Hn : forall t, In t all -> countsAsSpending monthAgo all t = true ->
                         JSObject.inherited (t_accountName t) = false).
  { intros t Hin _. apply in_allTransactions in Hin.
    destruct Hin as [acc [raw [Hacc [_ ->]]]]. apply Hnames. exact Hacc. }
  destruct (forEach_built monthAgo all all [] _ _ Hg Hs Ht Hn Hloop)
    as [_ [[Hnd [Hent Hkeys]] Htot]].
  cbn [app] in *.
  assert (Es : spendingByAccount r = st_spendingByAccount st)
    by (rewrite Hr; reflexivity).
  assert (Et : spending30d r = st_spending30d st) by (rewrite Hr; reflexivity).
  unfold names. rewrite Es, Et. clear Es Et.
  split; [ exact Htot | split; [ exact Hnd | split; [ | split ] ] ].
  - intros name. split.
    + intros Hin.
      destruct (JSObject.getOwn (st_spendingByAccount st) name) as [v | ] eqn:E.
      * destruct (Hent name v E) as [Hne _].
        destruct (spentBy monthAgo all name all) as [ | t rest] eqn:E';
          [ congruence | ].
        assert (Hin' : In t (spentBy monthAgo all name all))
          by (rewrite E'; left; reflexivity).
        unfold spentBy in Hin'. apply filter_In in Hin'.
        destruct Hin' as [H1 H2]. apply andb_prop in H2. destruct H2 as [H2 H3].
        apply String.eqb_eq in H3. exists t. auto.
      * apply JSObjectFacts.getOwn_None in E. contradiction.
    + intros [t [H1 [H2 <-]]]. apply Hkeys; assumption.
  - intros name Hin.
    destruct (JSObject.getOwn (st_spendingByAccount st) name) as [v | ] eqn:E.
    + destruct (Hent name v E) as [_ ->]. reflexivity.
    + apply JSObjectFacts.getOwn_None in E. contradiction.
  - apply (filter_by_key t_accountName); assumption.
Qed.

Lemma spending_breakdown_witness :
  exists r : Report,
    stats Decimal.parseDecimal (Some SpendingExamples.threePurchases)
          Examples.dateNow = Normal r
    /\ spending30d r = 144.98
    /\ spendingByAccount r
       = [("Total Checking", JNum 9.99); ("Platinum Card", JNum 134.99)]
    /\ Permutation
         (filter (countsAsSpending
                    (Examples.dateNow / 1000 - 30 * 24 * 60 * 60)
                    (allTransactions Decimal.parseDecimal
                                     SpendingExamples.threePurchases))
                 (allTransactions Decimal.parseDecimal
                                  SpendingExamples.threePurchases))
         (flat_map (fun name =>
                      spentBy (Examples.dateNow / 1000 - 30 * 24 * 60 * 60)
                              (allTransactions Decimal.parseDecimal
                                               SpendingExamples.threePurchases)
                              name
                              (allTransactions Decimal.parseDecimal
                                               SpendingExamples.threePurchases))
                   (JSObject.keys (spendingByAccount r))).
Proof.
  eexists. split; [ vm_compute; reflexivity | ].
  split; [ vm_compute; reflexivity | ].
  split; [ vm_compute; reflexivity | ].
  match goal with
  | |- Permutation _ (flat_map _ (JSObject.keys (spendingByAccount ?r))) =>
      destruct (spending_breakdown
                  Decimal.parseDecimal SpendingExamples.threePurchases
                  Examples.dateNow r) as [_ [_ [_ [_ W]]]];
      [ vm_compute; reflexivity
      | intros acc [<- | [<- | []]]; vm_compute; reflexivity
      | exact W ]
  end.
Defined.

(** C10, the equality: with a purchase of 9.99 on one account and
    purchases of 14.99 and 120.00 on another, the total is 144.98 and
    the entries, 9.99 and 134.99, sum to 144.98000000000002. *)
Lemma spending_sum_counterexample :
  exists (r : Report) (total : float),
    stats Decimal.parseDecimal (Some SpendingExamples.threePurchases)
          Examples.dateNow = Normal r
    /\ spending30d r = 144.98
    /\ sumValues (spendingByAccount r) = Some total
    /\ total = 144.98000000000002
    /\ spending30d r <> total.
Proof.
  eexists. eexists. split; [ vm_compute; reflexivity | ].
  split; [ vm_compute; reflexivity | ].
  split; [ vm_compute; reflexivity | ].
  split; [ vm_compute; reflexivity | ].
  float_neq.
Qed.

(** C3, where the code departs from it: a purchase on an account named
    "constructor" is added to the total, and its entry becomes the text
    of the inherited member followed by the digits of the amount, not a
    number; a purchase on an account named "__proto__" is added to the
    total and to no entry; and a purchase whose key is "constructor"
    ends the whole computation by a [TypeError]. *)
Theorem spending_inherited_names :
  (exists r : Report,
      stats Decimal.parseDecimal (Some SpendingExamples.inheritedNames)
            Examples.dateNow = Normal r
      /\ map (countsAsSpending
                (Examples.dateNow / 1000 - 30 * 24 * 60 * 60)
                (allTransactions Decimal.parseDecimal
                                 SpendingExamples.inheritedNames))
             (allTransactions Decimal.parseDecimal
                              SpendingExamples.inheritedNames)
         = [true; true]
      /\ spending30d r = 52.75
      /\ spendingByAccount r
         = [("constructor", JConcat (JInherited "constructor") 45.5)])
  /\ stats Decimal.parseDecimal (Some SpendingExamples.inheritedKey)
           Examples.dateNow = TypeError.
Proof.
  split.
  - eexists. split; [ vm_compute; reflexivity | ].
    split; [ vm_compute; reflexivity | ].
    split; vm_compute; reflexivity.
  - vm_compute. reflexivity.
Qed.

(** ** The grouping key *)

Section Words.

Local Open Scope string_scope.

Lemma letter_not_whiteSpace (c : ascii) :
  isLowerLetter c = true -> isWhiteSpace c = false.
Proof.
  destruct c as [[] [] [] [] [] [] [] []]; vm_compute; congruence.
Qed.

Lemma isSpace_whiteSpace (c : ascii) : isSpace c = true -> isWhiteSpace c = true.
Proof.
  unfold isSpace. intros H. apply Ascii.eqb_eq in H. subst c. reflexivity.
Qed.

Lemma runs_cons_sep (sep : ascii -> bool) (c : ascii) (s : string) :
  sep c = true -> runs sep (String c s) = runs sep s.
Proof.
  intros H. unfold runs. cbn [runsFrom].
  destruct (runsFrom sep s) as [w ts]. rewrite H. reflexivity.
Qed.

Lemma runsFrom_cons_sep (sep : ascii -> bool) (c : ascii) (s : string) :
  sep c = true -> runsFrom sep (String c s) = (EmptyString, runs sep s).
Proof.
  intros H. unfold runs. cbn [runsFrom].
  destruct (runsFrom sep s) as [w ts]. rewrite H. reflexivity.
Qed.

Lemma runsFrom_cons_keep (sep : ascii -> bool) (c : ascii) (s : string) :
  sep c = false ->
  runsFrom sep (String c s)
  = (String c (fst (runsFrom sep s)), snd (runsFrom sep s)).
Proof.
  intros H. cbn [runsFrom]. destruct (runsFrom sep s) as [w ts].
  rewrite H. reflexivity.
Qed.

Lemma runs_of_runsFrom (sep : ascii -> bool) (s : string) :
  runs sep s
  = match fst (runsFrom sep s) with
    | EmptyString => snd (runsFrom sep s)
    | w => w :: snd (runsFrom sep s)
    end.
Proof. unfold runs. destruct (runsFrom sep s) as [[ | c w] ts]; reflexivity. Qed.

(** [split] keeps the empty words that [runs] drops. *)
Lemma split_runsFrom (s : string) :
  exists w ws,
    split " "%char s = w :: ws
    /\ fst (runsFrom isSpace s) = w
    /\ snd (runsFrom isSpace s)
       = filter (fun x => negb (String.eqb x "")) ws.
Proof.
  induction s as [ | c s IH].
  - exists "", []. repeat split.
  - destruct IH as [w [ws [H1 [H2 H3]]]]. cbn [split].
    destruct (Ascii.eqb c " ") eqn:E.
    + exists "", (w :: ws). split; [ rewrite H1; reflexivity | ].
      rewrite (runsFrom_cons_sep isSpace c s E), runs_of_runsFrom, H2, H3.
      cbn [fst snd filter]. split; [ reflexivity | ].
      destruct w; reflexivity.
    + exists (String c w), ws. rewrite H1. split; [ reflexivity | ].
      rewrite (runsFrom_cons_keep isSpace c s E), H2, H3. split; reflexivity.
Qed.

Lemma keepWord_nonEmpty (x : string) :
  keepWord x = true -> negb (String.eqb x "") = true.
Proof. destruct x; [ discriminate | reflexivity ]. Qed.

Lemma filter_keepWord_nonEmpty (l : list string) :
  filter keepWord (filter (fun x => negb (String.eqb x "")) l)
  = filter keepWord l.
Proof.
  induction l as [ | x l IH]; cbn [filter]; [ reflexivity | ].
  destruct (keepWord x) eqn:E.
  - rewrite (keepWord_nonEmpty x E). cbn [filter]. rewrite E, IH. reflexivity.
  - destruct (negb (String.eqb x "")); cbn [filter]; rewrite ?E; exact IH.
Qed.

Lemma split_runs (s : string) :
  filter keepWord (split " "%char s) = filter keepWord (runs isSpace s).
Proof.
  destruct (split_runsFrom s) as [w [ws [H1 [H2 H3]]]].
  rewrite H1, runs_of_runsFrom, H2, H3.
  rewrite <- (filter_keepWord_nonEmpty (w :: ws)). cbn [filter].
  destruct w; reflexivity.
Qed.

(** Replacing by a space what is no letter and no white space. *)
Lemma replace_runsFrom (s : string) :
  runsFrom isWhiteSpace (replaceNonLetters s)
  = runsFrom (fun c => negb (isLowerLetter c)) s.
Proof.
  induction s as [ | c s IH]; [ reflexivity | ].
  cbn [replaceNonLetters runsFrom]. rewrite IH.
  destruct (runsFrom _ s) as [w ts].
  destruct (isLowerLetter c) eqn:El; cbn [orb negb].
  - rewrite (letter_not_whiteSpace c El). reflexivity.
  - destruct (isWhiteSpace c) eqn:Ew; [ rewrite Ew | ]; reflexivity.
Qed.

(** Collapsing the white space to single spaces. *)
Lemma collapse_runs (s : string) :
  runsFrom isSpace (collapseFrom false s) = runsFrom isWhiteSpace s
  /\ runs isSpace (collapseFrom true s) = runs isWhiteSpace s.
Proof.
  induction s as [ | c s [IH1 IH2]]; [ split; reflexivity | ].
  cbn [collapseFrom]. destruct (isWhiteSpace c) eqn:Ew.
  - split.
    + rewrite (runsFrom_cons_sep isSpace " " _ eq_refl), IH2.
      rewrite (runsFrom_cons_sep isWhiteSpace c s Ew). reflexivity.
    + rewrite IH2, (runs_cons_sep isWhiteSpace c s Ew). reflexivity.
  - assert (Es : isSpace c = false).
    { destruct (isSpace c) eqn:E; [ | reflexivity ].
      apply isSpace_whiteSpace in E. congruence. }
    assert (E1 : runsFrom isSpace (String c (collapseFrom false s))
                 = runsFrom isWhiteSpace (String c s)).
    { rewrite (runsFrom_cons_keep isSpace c _ Es), IH1.
      rewrite (runsFrom_cons_keep isWhiteSpace c s Ew). reflexivity. }
    split; [ exact E1 | ].
    rewrite !runs_of_runsFrom, E1. reflexivity.
Qed.

Lemma collapse_spaceOnly (b : bool) (s : string) :
  spaceOnly (collapseFrom b s).
Proof.
  revert b. induction s as [ | c s IH]; intros b; cbn [collapseFrom];
    [ exact I | ].
  destruct (isWhiteSpace c) eqn:Ew.
  - destruct b; [ apply IH | ]. cbn [spaceOnly]. split; [ reflexivity | apply IH ].
  - cbn [spaceOnly]. split; [ congruence | apply IH ].
Qed.

Lemma spaceOnly_sep (c : ascii) :
  (isWhiteSpace c = true -> c = " "%char) -> isSpace c = isWhiteSpace c.
Proof.
  intros H. destruct (isWhiteSpace c) eqn:Ew.
  - rewrite (H eq_refl). reflexivity.
  - destruct (isSpace c) eqn:E; [ | reflexivity ].
    apply isSpace_whiteSpace in E. congruence.
Qed.

(** Trimming. *)
Lemma trimStart_runs (s : string) :
  spaceOnly s ->
  runs isSpace (trimStart s) = runs isSpace s /\ spaceOnly (trimStart s).
Proof.
  induction s as [ | c s IH]; cbn [trimStart spaceOnly]; [ auto | ].
  intros [Hc Hs]. pose proof (spaceOnly_sep c Hc) as Esep.
  destruct (isWhiteSpace c) eqn:Ew.
  - destruct (IH Hs) as [IH1 IH2]. split; [ | exact IH2 ].
    rewrite IH1. symmetry. apply runs_cons_sep. exact Esep.
  - split; [ reflexivity | ]. cbn [spaceOnly].
    split; [ congruence | exact Hs ].
Qed.

Lemma trimEnd_runsFrom (s : string) :
  spaceOnly s -> runsFrom isSpace (trimEnd s) = runsFrom isSpace s.
Proof.
  induction s as [ | c s IH]; cbn [trimEnd spaceOnly]; [ reflexivity | ].
  intros [Hc Hs]. specialize (IH Hs).
  pose proof (spaceOnly_sep c Hc) as Esep.
  destruct (trimEnd s) as [ | c' r] eqn:Et.
  - cbn [runsFrom] in IH. destruct (isWhiteSpace c) eqn:Ew.
    + rewrite (runsFrom_cons_sep isSpace c s Esep), runs_of_runsFrom, <- IH.
      reflexivity.
    + rewrite (runsFrom_cons_keep isSpace c s Esep), <- IH.
      cbn [runsFrom]. rewrite Esep. reflexivity.
  - destruct (isSpace c) eqn:Es.
    + rewrite (runsFrom_cons_sep isSpace c _ Es),
        (runsFrom_cons_sep isSpace c s Es), !runs_of_runsFrom, IH.
      reflexivity.
    + rewrite (runsFrom_cons_keep isSpace c _ Es),
        (runsFrom_cons_keep isSpace c s Es), IH.
      reflexivity.
Qed.

Lemma cleanDesc_runs (description : string) :
  runs isSpace (cleanDesc description)
  = letterRuns (toLowerCase description).
Proof.
  unfold cleanDesc, trim, collapseWhiteSpace, letterRuns.
  set (s := toLowerCase description).
  pose proof (collapse_spaceOnly false (replaceNonLetters s)) as Hs.
  destruct (trimStart_runs _ Hs) as [H1 H2].
  rewrite (runs_of_runsFrom isSpace (trimEnd _)), (trimEnd_runsFrom _ H2).
  rewrite <- runs_of_runsFrom, H1.
  rewrite !runs_of_runsFrom.
  rewrite (proj1 (collapse_runs (replaceNonLetters s))), replace_runsFrom.
  reflexivity.
Qed.

Lemma length_append (a b : string) :
  String.length (a ++ b) = (String.length a + String.length b)%nat.
Proof. induction a as [ | c a IH]; cbn; [ reflexivity | rewrite IH; reflexivity ]. Qed.

Lemma keepWord_length (w : string) :
  keepWord w = true -> (3 <= String.length w)%nat.
Proof.
  unfold keepWord. intros H. apply andb_prop in H. destruct H as [H _].
  apply Nat.ltb_lt in H. exact H.
Qed.

End Words.

Lemma keepWord_iff (w : string) :
  keepWord w = true <->
  (2 < String.length w)%nat /\ ~ In w ["the"; "inc"; "com"; "payment"]%string.
Proof.
  unfold keepWord, arrayIncludes, stopwords.
  rewrite andb_true_iff, Nat.ltb_lt, negb_true_iff.
  split; intros [H1 H2]; (split; [ exact H1 | ]).
  - intros Hin. assert (E : existsb (String.eqb w)
                                    ["the"; "inc"; "com"; "payment"]%string = true).
    { apply existsb_exists. exists w. split; [ exact Hin | apply String.eqb_refl ]. }
    congruence.
  - destruct (existsb _ _) eqn:E; [ | reflexivity ].
    apply existsb_exists in E. destruct E as [x [Hx Heq]].
    apply String.eqb_eq in Heq. subst x. contradiction.
Qed.

(** C5, as the code has it: the description is put in lower case, every
    character that is no letter a-z and no white space is replaced by a
    space, white space is collapsed, the ends are trimmed, and the
    result is split at the spaces: the words are the maximal runs of
    letters a-z of the description in lower case.  The words of one or
    two letters and the stopwords are dropped, and the key is the first
    two of the others joined by a space; it is shorter than three
    characters exactly when no word remains, and a transaction with
    such a key is not added to any group. *)
Theorem groupingKey_words :
  forall description : string,
    words description
    = filter keepWord
             (split " "%char
                (trim (collapseWhiteSpace
                         (replaceNonLetters (toLowerCase description)))))
    /\ words description
       = filter keepWord (letterRuns (toLowerCase description))
    /\ (forall w,
           keepWord w = true <->
           (2 < String.length w)%nat
           /\ ~ In w ["the"; "inc"; "com"; "payment"]%string)
    /\ groupingKey description = join " " (firstn 2 (words description))
    /\ ((String.length (groupingKey description) < 3)%nat
        <-> words description = [])
    /\ (forall (all : list NormTx) (st : LoopState) (t : NormTx),
           t_description t = description ->
           (String.length (groupingKey description) < 3)%nat ->
           addToGroup all st t = Normal st).
Proof.
  intros description. split; [ reflexivity | ].
  split; [ unfold words; rewrite split_runs, cleanDesc_runs; reflexivity | ].
  split; [ exact keepWord_iff | ].
  split; [ reflexivity | split ].
  - unfold groupingKey, join.
    destruct (words description) as [ | w [ | w2 ws]] eqn:E.
    + cbn. split; [ reflexivity | lia ].
    + assert (Hw : keepWord w = true).
      { assert (Hin : In w (words description)) by (rewrite E; left; reflexivity).
        unfold words in Hin. apply filter_In in Hin. tauto. }
      apply keepWord_length in Hw. cbn [firstn String.concat].
      split; [ lia | discriminate ].
    + assert (Hw : keepWord w = true).
      { assert (Hin : In w (words description)) by (rewrite E; left; reflexivity).
        unfold words in Hin. apply filter_In in Hin. tauto. }
      apply keepWord_length in Hw. cbn [firstn String.concat].
      rewrite length_append. split; [ lia | discriminate ].
  - intros all st t Hd Hlen. unfold addToGroup, isGrouped. rewrite Hd.
    apply Nat.ltb_lt in Hlen. rewrite Nat.leb_antisym, Hlen.
    cbn [negb]. rewrite !andb_false_r. reflexivity.
Qed.

(** C5, the stripping: with the other characters deleted, "Amazon.com"
    would have the key "amazoncom" and "AT&T" the key "att"; the code
    gives "amazon" to the first and no key to the second, whose
    transactions are left out of the groups. *)
Lemma groupingKey_strip_counterexample :
  groupingKey "Amazon.com" = "amazon"
  /\ strippedKey "Amazon.com" = "amazoncom"
  /\ groupingKey "AT&T" = ""
  /\ strippedKey "AT&T" = "att"
  /\ groupingKey "Amazon.com" <> strippedKey "Amazon.com".
Proof.
  repeat split; try (vm_compute; reflexivity).
  vm_compute. discriminate.
Qed.

(** ** Zero, positive numbers and [NaN] *)

Section Signs.

Import JSNumber Binary64.

(** A number that is [0] or positive. *)
Lemma add_zero_r (K : Z) (x : float) : units K x -> x + 0 = x.
Proof. intros H. rewrite add_comm. apply (zero_add K). exact H. Qed.

Lemma zeroOrPositive_add (x y : float) :
  x = 0 \/ units 1 x -> y = 0 \/ units 1 y -> x + y = 0 \/ units 1 (x + y).
Proof.
  intros [-> | Hx] [-> | Hy].
  - left. reflexivity.
  - right. rewrite (zero_add 1 y Hy). exact Hy.
  - right. rewrite (add_zero_r 1 x Hx). exact Hx.
  - right. eapply units_weaken; [ | apply (add_units 1 1 x y Hx Hy) ].
    apply Z.min_glb; [ lia | ]. apply Z.lt_le_incl. reflexivity.
Qed.

Lemma abs_zeroOrPositive (x : float) :
  isNumber x -> abs x = 0 \/ units 1 (abs x).
Proof.
  unfold isNumber, notNan, units. intros Hx.
  pose proof (Prim2SF_valid x) as V.
  destruct (Prim2SF x) as [s | s | | s m e] eqn:E.
  - left. apply Prim2SF_inj. rewrite abs_spec, E. reflexivity.
  - right. rewrite abs_spec, E. reflexivity.
  - congruence.
  - right. rewrite abs_spec, E. cbn. apply valid_finite in V.
    destruct V as [He _]. repeat split; [ lia | apply scaled_pos; lia ].
Qed.

Lemma zeroOrPositive_leb (x : float) :
  x = 0 \/ units 1 x -> (0 <=? x) = true.
Proof.
  intros [-> | H]; [ reflexivity | ].
  rewrite leb_spec, Prim2SF_zero. unfold units in H.
  destruct (Prim2SF x) as [ | [|] | | [|] m e]; cbn in *; try tauto; try reflexivity.
  - discriminate.
  - destruct H as [H _]. discriminate.
Qed.

Lemma zeroOrPositive_isNumber (x : float) :
  x = 0 \/ units 1 x -> isNumber x.
Proof.
  intros [-> | H]; unfold isNumber, notNan; [ discriminate | ].
  unfold units in H. destruct (Prim2SF x); cbn in H; try tauto; discriminate.
Qed.

(** [NaN] is absorbing. *)
Lemma nan_add_l (x y : float) : ~ isNumber x -> ~ isNumber (x + y).
Proof.
  unfold isNumber, notNan. rewrite add_spec. intros Hx Hs. apply Hx.
  intros E. apply Hs. rewrite E. reflexivity.
Qed.

Lemma nan_add_r (x y : float) : ~ isNumber y -> ~ isNumber (x + y).
Proof. rewrite add_comm. apply nan_add_l. Qed.

Lemma nan_sub_l (x y : float) : ~ isNumber x -> ~ isNumber (x - y).
Proof.
  unfold isNumber, notNan. rewrite sub_spec. intros Hx Hs. apply Hx.
  intros E. apply Hs. rewrite E. reflexivity.
Qed.

Lemma nan_sub_r (x y : float) : ~ isNumber y -> ~ isNumber (x - y).
Proof.
  unfold isNumber, notNan. rewrite sub_spec. intros Hy Hs. apply Hy.
  intros E. apply Hs. rewrite E. destruct (Prim2SF x) as [ | [|] | | ]; reflexivity.
Qed.

Lemma nan_abs (x : float) : ~ isNumber x -> ~ isNumber (abs x).
Proof.
  unfold isNumber, notNan. rewrite abs_spec. intros Hx Hs. apply Hx.
  intros E. apply Hs. rewrite E. reflexivity.
Qed.

Lemma nan_ltb_l (x y : float) : ~ isNumber x -> (x <? y) = false.
Proof.
  intros Hx. destruct (x <? y) eqn:E; [ | reflexivity ].
  apply ltb_true_isNumber in E. tauto.
Qed.

Lemma nan_ltb_r (x y : float) : ~ isNumber y -> (x <? y) = false.
Proof.
  intros Hx. destruct (x <? y) eqn:E; [ | reflexivity ].
  apply ltb_true_isNumber in E. tauto.
Qed.

End Signs.

(** ** The signs of the totals *)

Section TotalsSigns.

Import JSNumber Binary64.

Variable parseFloat : string -> float.

Lemma addAccount_assets (s : Totals) (acc : Account) :
  tot_assets s = 0 \/ units 1 (tot_assets s) ->
  let s' := addAccount parseFloat s acc in
  tot_assets s' = 0 \/ units 1 (tot_assets s').
Proof.
  intros H. unfold addAccount.
  destruct (getAccountType (acc_name acc)); cbn [tot_assets]; try exact H;
    (destruct (0 <? parseFloat (acc_balance acc)) eqn:E; [ | exact H ];
     apply zeroOrPositive_add; [ exact H | right; apply positive_units; exact E ]).
Qed.

Lemma addAccount_liabilities (s : Totals) (acc : Account) :
  isNumber (parseFloat (acc_balance acc)) ->
  tot_liabilities s = 0 \/ units 1 (tot_liabilities s) ->
  let s' := addAccount parseFloat s acc in
  tot_liabilities s' = 0 \/ units 1 (tot_liabilities s').
Proof.
  intros Hb H. unfold addAccount.
  destruct (getAccountType (acc_name acc)); cbn [tot_liabilities];
    try (destruct (0 <? parseFloat (acc_balance acc)); [ exact H | ]);
    (apply zeroOrPositive_add; [ exact H | apply abs_zeroOrPositive; exact Hb ]).
Qed.

Lemma totals_signs (accs : list Account) :
  forall s : Totals,
    tot_assets s = 0 \/ units 1 (tot_assets s) ->
    let s' := fold_left (addAccount parseFloat) accs s in
    (tot_assets s' = 0 \/ units 1 (tot_assets s'))
    /\ ((forall acc, In acc accs -> isNumber (parseFloat (acc_balance acc))) ->
        tot_liabilities s = 0 \/ units 1 (tot_liabilities s) ->
        tot_liabilities s' = 0 \/ units 1 (tot_liabilities s')).
Proof.
  induction accs as [ | acc accs IH]; intros s Ha; cbn [fold_left].
  - auto.
  - destruct (IH (addAccount parseFloat s acc) (addAccount_assets s acc Ha))
      as [IH1 IH2].
    split; [ exact IH1 | ]. intros Hn Hl. apply IH2.
    + intros a Hin. apply Hn. right. exact Hin.
    + apply addAccount_liabilities; [ apply Hn; left; reflexivity | exact Hl ].
Qed.

(** One balance that is no number. *)
Lemma addAccount_nan (s : Totals) (acc : Account) :
  ~ isNumber (parseFloat (acc_balance acc)) ->
  let s' := addAccount parseFloat s acc in
  ~ isNumber (tot_netWorth s') /\ ~ isNumber (tot_liabilities s')
  /\ tot_assets s' = tot_assets s.
Proof.
  intros Hb. unfold addAccount.
  rewrite (nan_ltb_r 0 _ Hb).
  destruct (getAccountType (acc_name acc));
    cbn [tot_netWorth tot_liabilities tot_assets];
    (split; [ | split; [ | reflexivity ] ]);
    auto using nan_add_r, nan_sub_r, nan_abs.
Qed.

Lemma addAccount_keeps_nan (s : Totals) (acc : Account) :
  let s' := addAccount parseFloat s acc in
  (~ isNumber (tot_netWorth s) -> ~ isNumber (tot_netWorth s'))
  /\ (~ isNumber (tot_liabilities s) -> ~ isNumber (tot_liabilities s')).
Proof.
  unfold addAccount.
  destruct (getAccountType (acc_name acc));
    cbn [tot_netWorth tot_liabilities];
    try (destruct (0 <? parseFloat (acc_balance acc)));
    split; auto using nan_add_l, nan_sub_l.
Qed.

Lemma fold_keeps_nan (accs : list Account) :
  forall s : Totals,
    let s' := fold_left (addAccount parseFloat) accs s in
    (~ isNumber (tot_netWorth s) -> ~ isNumber (tot_netWorth s'))
    /\ (~ isNumber (tot_liabilities s) -> ~ isNumber (tot_liabilities s')).
Proof.
  induction accs as [ | acc accs IH]; intros s; cbn [fold_left]; [ auto | ].
  destruct (IH (addAccount parseFloat s acc)) as [IH1 IH2].
  destruct (addAccount_keeps_nan s acc) as [H1 H2]. split; auto.
Qed.

Lemma totals_nan (accs : list Account) (acc : Account) :
  In acc accs -> ~ isNumber (parseFloat (acc_balance acc)) ->
  forall s : Totals,
    let s' := fold_left (addAccount parseFloat) accs s in
    ~ isNumber (tot_netWorth s') /\ ~ isNumber (tot_liabilities s').
Proof.
  intros Hin Hb. induction accs as [ | a accs IH]; [ contradiction | ].
  intros s. cbn [fold_left]. destruct Hin as [-> | Hin].
  - destruct (addAccount_nan s acc Hb) as [H1 [H2 _]].
    destruct (fold_keeps_nan accs (addAccount parseFloat s acc)) as [K1 K2].
    split; auto.
  - apply IH. exact Hin.
Qed.

End TotalsSigns.

(** X1. The assets are never negative and never [NaN], whatever the
    balances; the liabilities are never negative when every balance is
    read as a number. *)
Theorem assets_liabilities_sign :
  forall (parseFloat : string -> float) (data : SimpleFINData)
         (dateNow : float) (r : Report),
    stats parseFloat (Some data) dateNow = Normal r ->
    (0 <=? assets r) = true
    /\ ((forall acc, In acc (accounts data) ->
                     JSNumber.isNumber (parseFloat (acc_balance acc))) ->
        (0 <=? liabilities r) = true).
Proof.
  intros parseFloat data dateNow r H.
  apply stats_Normal in H. destruct H as [st [_ ->]].
  cbn [assets liabilities]. unfold totals.
  destruct (totals_signs parseFloat (accounts data)
              {| tot_netWorth := 0; tot_assets := 0; tot_liabilities := 0 |}
              (or_introl eq_refl)) as [Ha Hl].
  split; [ apply zeroOrPositive_leb; exact Ha | ].
  intros Hn. apply zeroOrPositive_leb. apply Hl; [ exact Hn | left; reflexivity ].
Qed.

Lemma assets_liabilities_sign_witness :
  exists r : Report,
    stats Decimal.parseDecimal (Some Examples.balancesData) Examples.dateNow
    = Normal r
    /\ liabilities r = 1250
    /\ (0 <=? assets r) = true
    /\ (0 <=? liabilities r) = true.
Proof.
  eexists. split; [ vm_compute; reflexivity | ].
  split; [ vm_compute; reflexivity | ].
  match goal with
  | |- (0 <=? assets ?r) = true /\ _ =>
      destruct (assets_liabilities_sign
                  Decimal.parseDecimal Examples.balancesData
                  Examples.dateNow r) as [W1 W2];
      [ vm_compute; reflexivity | split; [ exact W1 | apply W2 ] ]
  end.
  intros acc [<- | [<- | [<- | []]]]; vm_compute; discriminate.
Defined.

(** X2. The liabilities are [NaN] exactly when some balance is read as
    [NaN], for instance a balance that is no numeral; the net worth is
    [NaN] then too; the assets are a number in every case. *)
Theorem unparsed_balance_spoils_totals :
  forall (parseFloat : string -> float) (data : SimpleFINData)
         (dateNow : float) (r : Report),
    stats parseFloat (Some data) dateNow = Normal r ->
    ((exists acc, In acc (accounts data)
                  /\ ~ JSNumber.isNumber (parseFloat (acc_balance acc)))
     <-> ~ JSNumber.isNumber (liabilities r))
    /\ ((exists acc, In acc (accounts data)
                     /\ ~ JSNumber.isNumber (parseFloat (acc_balance acc)))
        -> ~ JSNumber.isNumber (netWorth r))
    /\ JSNumber.isNumber (assets r).
Proof.
  intros parseFloat data dateNow r H.
  apply stats_Normal in H. destruct H as [st [_ ->]].
  cbn [assets liabilities netWorth]. unfold totals.
  set (s0 := {| tot_netWorth := 0; tot_assets := 0; tot_liabilities := 0 |}).
  destruct (totals_signs parseFloat (accounts data) s0 (or_introl eq_refl))
    as [Ha Hl].
  split; [ split | split ].
  - intros [acc [Hin Hb]]. apply (totals_nan parseFloat _ acc Hin Hb s0).
  - intros Hnan.
    destruct (Exists_dec (fun acc => ~ JSNumber.isNumber (parseFloat (acc_balance acc)))
                (accounts data)) as [E | E].
    + intros acc. destruct (Binary64.isNumber_dec (parseFloat (acc_balance acc)));
        [ right; tauto | left; assumption ].
    + apply Exists_exists in E. exact E.
    + exfalso. apply Hnan. apply zeroOrPositive_isNumber. apply Hl.
      * intros acc Hin.
        destruct (Binary64.isNumber_dec (parseFloat (acc_balance acc)))
          as [Hn | Hn]; [ exact Hn | ].
        exfalso. apply E. apply Exists_exists. exists acc. split; assumption.
      * left. reflexivity.
  - intros [acc [Hin Hb]]. apply (totals_nan parseFloat _ acc Hin Hb s0).
  - apply zeroOrPositive_isNumber. exact Ha.
Qed.

Lemma unparsed_balance_spoils_totals_witness :
  exists r : Report,
    stats Decimal.parseDecimal (Some DashboardExamples.unreadBalance)
          Examples.dateNow = Normal r
    /\ assets r = 5240.5
    /\ ~ JSNumber.isNumber (liabilities r)
    /\ ~ JSNumber.isNumber (netWorth r).
Proof.
  eexists. split; [ vm_compute; reflexivity | ].
  split; [ vm_compute; reflexivity | ].
  match goal with
  | |- ~ JSNumber.isNumber (liabilities ?r) /\ _ =>
      destruct (unparsed_balance_spoils_totals
                  Decimal.parseDecimal DashboardExamples.unreadBalance
                  Examples.dateNow r) as [[W1 _] [W2 _]];
      [ vm_compute; reflexivity | ]
  end.
  assert (E : exists acc,
             In acc (accounts DashboardExamples.unreadBalance)
             /\ ~ JSNumber.isNumber (Decimal.parseDecimal (acc_balance acc))).
  { eexists. split; [ right; left; reflexivity | ].
    vm_compute. intros H. apply H. reflexivity. }
  split; [ exact (W1 E) | exact (W2 E) ].
Defined.

(** ** The sign of the 30-day total *)

(** X3. The 30-day total is never negative and never [NaN]: it is [0]
    when no transaction counts as spending and positive as soon as one
    does. *)
Theorem spending30d_sign :
  forall (parseFloat : string -> float) (data : SimpleFINData)
         (dateNow : float) (r : Report),
    stats parseFloat (Some data) dateNow = Normal r ->
    let monthAgo := dateNow / 1000 - 30 * 24 * 60 * 60 in
    let all := allTransactions parseFloat data in
    (0 <=? spending30d r) = true
    /\ ((forall t, In t all -> countsAsSpending monthAgo all t = false) ->
        spending30d r = 0)
    /\ ((exists t, In t all /\ countsAsSpending monthAgo all t = true) ->
        (0 <? spending30d r) = true).
Proof.
  intros parseFloat data dateNow r H monthAgo all.
  destruct (stats_built parseFloat data dateNow r H)
    as [st [Hloop [_ [_ [-> _]]]]].
  fold monthAgo all in Hloop.
  destruct (initial_built monthAgo all) as [Hg [_ Ht]].
  destruct (forEach_groups monthAgo all all [] _ _ Hg Ht Hloop) as [_ ->].
  cbn [app].
  set (counted := filter (countsAsSpending monthAgo all) all).
  assert (Hneg : forall t, In t counted -> (t_amountNum t <? 0) = true).
  { intros t Ht'. apply filter_In in Ht'. destruct Ht' as [_ Hc].
    apply (countsAsSpending_negative monthAgo all t Hc). }
  assert (Hpos : counted <> [] -> JSNumber.units 1 (sumAbs counted)).
  { intros Hne. eapply Binary64.units_weaken;
      [ | apply (sumAbs_units counted Hne Hneg) ].
    apply Z.min_glb; [ | apply Z.lt_le_incl; reflexivity ].
    destruct counted; [ congruence | cbn [List.length]; lia ]. }
  split; [ | split ].
  - apply zeroOrPositive_leb. destruct counted eqn:E.
    + left. reflexivity.
    + right. apply Hpos. discriminate.
  - intros Hnone. replace counted with (@nil NormTx); [ reflexivity | ].
    symmetry. subst counted. apply filter_nil_of.
    intros x Hx Hc. rewrite (Hnone x Hx) in Hc. discriminate.
  - intros [t [Hin Hc]]. apply (Binary64.units_positive 1). apply Hpos.
    intros E. assert (Hin' : In t counted)
      by (apply filter_In; split; assumption).
    rewrite E in Hin'. contradiction.
Qed.

Lemma spending30d_sign_witness :
  exists r : Report,
    stats Decimal.parseDecimal (Some SpendingExamples.threePurchases)
          Examples.dateNow = Normal r
    /\ spending30d r = 144.98
    /\ (0 <=? spending30d r) = true.
Proof.
  eexists. split; [ vm_compute; reflexivity | ].
  split; [ vm_compute; reflexivity | ].
  match goal with
  | |- (0 <=? spending30d ?r) = true =>
      destruct (spending30d_sign
                  Decimal.parseDecimal SpendingExamples.threePurchases
                  Examples.dateNow r) as [W _];
      [ vm_compute; reflexivity | exact W ]
  end.
Defined.

(** ** The entries of the breakdown and the candidates *)

Lemma stats_spending_built (parseFloat : string -> float)
      (data : SimpleFINData) (dateNow : float) (r : Report) :
  stats parseFloat (Some data) dateNow = Normal r ->
  (forall acc, In acc (accounts data) ->
               JSObject.inherited (acc_name acc) = false) ->
  SpendingBuilt (dateNow / 1000 - 30 * 24 * 60 * 60)
                (allTransactions parseFloat data)
                (allTransactions parseFloat data) (spendingByAccount r).
Proof.
  intros H Hnames.
  set (monthAgo := dateNow / 1000 - 30 * 24 * 60 * 60).
  set (all := allTransactions parseFloat data).
  apply stats_Normal in H. destruct H as [st [Hloop ->]].
  fold monthAgo all in Hloop. cbn [spendingByAccount].
  destruct (initial_built monthAgo all) as [Hg [Hs Ht]].
  assert (Hn : forall t, In t all -> countsAsSpending monthAgo all t = true ->
                         JSObject.inherited (t_accountName t) = false).
  { intros t Hin _. apply in_allTransactions in Hin.
    destruct Hin as [acc [raw [Hacc [_ ->]]]]. apply Hnames. exact Hacc. }
  destruct (forEach_built monthAgo all all [] _ _ Hg Hs Ht Hn Hloop)
    as [_ [Hb _]].
  exact Hb.
Qed.

Lemma spentBy_units (monthAgo : float) (all : list NormTx) (name : string) :
  spentBy monthAgo all name all <> [] ->
  JSNumber.units 1 (sumAbs (spentBy monthAgo all name all)).
Proof.
  intros Hne. eapply Binary64.units_weaken;
    [ | apply (sumAbs_units _ Hne (spentBy_negative monthAgo all name all)) ].
  apply Z.min_glb; [ | apply Z.lt_le_incl; reflexivity ].
  destruct (spentBy monthAgo all name all); [ congruence | cbn [List.length]; lia ].
Qed.

(** X4. For accounts whose names are no members of
    [Object.prototype], every entry of the breakdown is a positive
    number, under the name of an account of the data. *)
Theorem breakdown_entries_positive :
  forall (parseFloat : string -> float) (data : SimpleFINData)
         (dateNow : float) (r : Report),
    stats parseFloat (Some data) dateNow = Normal r ->
    (forall acc, In acc (accounts data) ->
                 JSObject.inherited (acc_name acc) = false) ->
    forall name v,
      In (name, v) (spendingByAccount r) ->
      exists x, v = JNum x /\ (0 <? x) = true
                /\ (exists acc, In acc (accounts data) /\ acc_name acc = name).
Proof.
  intros parseFloat data dateNow r H Hnames name v Hin.
  destruct (stats_spending_built parseFloat data dateNow r H Hnames)
    as [Hnd [Hent _]].
  apply (JSObjectFacts.In_getOwn _ _ _ Hnd) in Hin.
  destruct (Hent name v Hin) as [Hne ->].
  eexists. split; [ reflexivity | split ].
  - apply (Binary64.units_positive 1). apply spentBy_units. exact Hne.
  - destruct (spentBy _ _ name _) as [ | t l] eqn:E; [ congruence | ].
    assert (Ht : In t (spentBy (dateNow / 1000 - 30 * 24 * 60 * 60)
                               (allTransactions parseFloat data) name
                               (allTransactions parseFloat data)))
      by (rewrite E; left; reflexivity).
    unfold spentBy in Ht. apply filter_In in Ht. destruct Ht as [Ht1 Ht2].
    apply andb_prop in Ht2. destruct Ht2 as [_ Ht2].
    apply String.eqb_eq in Ht2.
    apply in_allTransactions in Ht1. destruct Ht1 as [acc [raw [Hacc [_ ->]]]].
    exists acc. split; [ exact Hacc | exact Ht2 ].
Qed.

Lemma breakdown_entries_positive_witness :
  exists r : Report,
    stats Decimal.parseDecimal (Some SpendingExamples.threePurchases)
          Examples.dateNow = Normal r
    /\ In ("Platinum Card", JNum 134.99) (spendingByAccount r)
    /\ exists x, JNum 134.99 = JNum x /\ (0 <? x) = true
                 /\ exists acc, In acc (accounts SpendingExamples.threePurchases)
                                /\ acc_name acc = "Platinum Card".
Proof.
  eexists. split; [ vm_compute; reflexivity | ].
  split; [ right; left; vm_compute; reflexivity | ].
  match goal with
  | |- exists x, JNum ?v = JNum x /\ _ =>
      apply (breakdown_entries_positive
               Decimal.parseDecimal SpendingExamples.threePurchases
               Examples.dateNow _ eq_refl)
  end.
  - intros acc [<- | [<- | []]]; vm_compute; reflexivity.
  - right. left. vm_compute. reflexivity.
Defined.

(** X5. No two reported subscriptions have the same key, and the
    pass that skips the keys met before removes nothing: the candidates
    come from the properties of one object, one for each key at most.
    The reported list is the first 20 of the candidates sorted by count
    and then by amount. *)
Theorem dedup_removes_nothing :
  forall (parseFloat : string -> float) (data : SimpleFINData)
         (dateNow : float) (r : Report),
    stats parseFloat (Some data) dateNow = Normal r ->
    NoDup (map norm (subscriptions r))
    /\ exists st,
        forEach (body (dateNow / 1000 - 30 * 24 * 60 * 60)
                      (allTransactions parseFloat data))
                (allTransactions parseFloat data) initialState = Normal st
        /\ NoDup (map norm (rawSubscriptions (st_subGroups st)))
        /\ dedup [] (JSNumber.sort byCountDesc (rawSubscriptions (st_subGroups st)))
           = JSNumber.sort byCountDesc (rawSubscriptions (st_subGroups st))
        /\ subscriptions r
           = firstn 20 (JSNumber.sort byAmountDesc
                          (JSNumber.sort byCountDesc
                             (rawSubscriptions (st_subGroups st)))).
Proof.
  intros parseFloat data dateNow r H.
  destruct (stats_built parseFloat data dateNow r H)
    as [st [Hloop [[Hnd _] [-> _]]]].
  set (raw := rawSubscriptions (st_subGroups st)).
  assert (Hraw : NoDup (map norm raw)) by (apply rawSubscriptions_norms; exact Hnd).
  assert (Hp : Permutation (JSNumber.sort byCountDesc raw) raw)
    by apply SortFacts.sort_perm.
  assert (Hd : dedup [] (JSNumber.sort byCountDesc raw)
               = JSNumber.sort byCountDesc raw).
  { apply dedup_id; [ | intros ? ? [] ].
    apply (Permutation_NoDup (Permutation_map norm (Permutation_sym Hp))).
    exact Hraw. }
  split.
  - unfold reported. rewrite Hd.
    set (sorted := JSNumber.sort byAmountDesc (JSNumber.sort byCountDesc raw)).
    assert (Hs : NoDup (map norm sorted)).
    { apply (Permutation_NoDup (l := map norm raw)); [ | exact Hraw ].
      apply Permutation_map. apply Permutation_sym.
      subst sorted. rewrite SortFacts.sort_perm. exact Hp. }
    rewrite <- (firstn_skipn 20 sorted), map_app in Hs.
    apply NoDup_app_remove_r in Hs. exact Hs.
  - exists st. split; [ exact Hloop | split; [ exact Hraw | split; [ exact Hd | ] ] ].
    unfold reported. fold raw. rewrite Hd. reflexivity.
Qed.

Lemma dedup_removes_nothing_witness :
  exists r : Report,
    stats Decimal.parseDecimal (Some SubscriptionExamples.tieData)
          Examples.dateNow = Normal r
    /\ map norm (subscriptions r) = ["netflix"; "spotify"]
    /\ NoDup (map norm (subscriptions r)).
Proof.
  eexists. split; [ vm_compute; reflexivity | ].
  split; [ vm_compute; reflexivity | ].
  match goal with
  | |- NoDup (map norm (subscriptions ?r)) =>
      destruct (dedup_removes_nothing
                  Decimal.parseDecimal SubscriptionExamples.tieData
                  Examples.dateNow r) as [W _];
      [ vm_compute; reflexivity | exact W ]
  end.
Defined.

(** ** The shape of the grouping key *)

Section KeyShape.

Local Open Scope string_scope.

Lemma toLowerCaseChar_idempotent (c : ascii) :
  toLowerCaseChar (toLowerCaseChar c) = toLowerCaseChar c.
Proof. destruct c as [[] [] [] [] [] [] [] []]; vm_compute; reflexivity. Qed.

Lemma toLowerCase_idempotent (s : string) :
  toLowerCase (toLowerCase s) = toLowerCase s.
Proof.
  induction s as [ | c s IH]; cbn [toLowerCase]; [ reflexivity | ].
  rewrite toLowerCaseChar_idempotent, IH. reflexivity.
Qed.

Lemma keyCharacter_lower (c : ascii) :
  keyCharacter c = true -> toLowerCaseChar c = c.
Proof. destruct c as [[] [] [] [] [] [] [] []]; vm_compute; congruence. Qed.

Lemma allOf_lower (s : string) :
  allOf keyCharacter s = true -> toLowerCase s = s.
Proof.
  induction s as [ | c s IH]; cbn [allOf toLowerCase]; [ reflexivity | ].
  intros H. apply andb_prop in H. destruct H as [Hc Hs].
  rewrite (keyCharacter_lower c Hc), (IH Hs). reflexivity.
Qed.

Lemma allOf_app (p : ascii -> bool) (a b : string) :
  allOf p (a ++ b) = allOf p a && allOf p b.
Proof.
  induction a as [ | c a IH]; cbn [allOf append]; [ reflexivity | ].
  rewrite IH, andb_assoc. reflexivity.
Qed.

Lemma allOf_weaken (p q : ascii -> bool) (s : string) :
  (forall c, p c = true -> q c = true) -> allOf p s = true -> allOf q s = true.
Proof.
  intros Hpq. induction s as [ | c s IH]; cbn [allOf]; [ reflexivity | ].
  intros H. apply andb_prop in H. destruct H as [Hc Hs].
  rewrite (Hpq c Hc), (IH Hs). reflexivity.
Qed.

(** The runs hold no separator. *)
Lemma runsFrom_allOf (sep : ascii -> bool) (s : string) :
  allOf (fun c => negb (sep c)) (fst (runsFrom sep s)) = true
  /\ Forall (fun w => allOf (fun c => negb (sep c)) w = true)
            (snd (runsFrom sep s)).
Proof.
  induction s as [ | c s [IH1 IH2]]; [ split; [ reflexivity | constructor ] | ].
  destruct (sep c) eqn:E.
  - rewrite (runsFrom_cons_sep sep c s E), runs_of_runsFrom. cbn [fst snd].
    split; [ reflexivity | ].
    destruct (fst (runsFrom sep s)) eqn:Ew; [ exact IH2 | ].
    constructor; [ exact IH1 | exact IH2 ].
  - rewrite (runsFrom_cons_keep sep c s E). cbn [fst snd allOf].
    rewrite E, IH1. split; [ reflexivity | exact IH2 ].
Qed.

Lemma runs_allOf (sep : ascii -> bool) (s : string) :
  Forall (fun w => allOf (fun c => negb (sep c)) w = true) (runs sep s).
Proof.
  rewrite runs_of_runsFrom. destruct (runsFrom_allOf sep s) as [H1 H2].
  destruct (fst (runsFrom sep s)) eqn:E; [ exact H2 | ].
  constructor; assumption.
Qed.

(** A word with no separator, before [s]. *)
Lemma runsFrom_word_app (sep : ascii -> bool) (w s : string) :
  allOf (fun c => negb (sep c)) w = true ->
  runsFrom sep (w ++ s)
  = (w ++ fst (runsFrom sep s), snd (runsFrom sep s)).
Proof.
  induction w as [ | c w IH]; cbn [allOf append].
  - intros _. destruct (runsFrom sep s); reflexivity.
  - intros H. apply andb_prop in H. destruct H as [Hc Hw].
    apply negb_true_iff in Hc.
    rewrite (runsFrom_cons_keep sep c _ Hc), (IH Hw). reflexivity.
Qed.

Lemma append_empty_r (w : string) : w ++ "" = w.
Proof. induction w as [ | c w IH]; cbn; [ | rewrite IH ]; reflexivity. Qed.

Lemma runs_word (sep : ascii -> bool) (w : string) :
  allOf (fun c => negb (sep c)) w = true -> w <> "" -> runs sep w = [w].
Proof.
  intros Hw Hne. rewrite runs_of_runsFrom.
  pose proof (runsFrom_word_app sep w "" Hw) as E.
  cbn [runsFrom fst snd] in E. rewrite !append_empty_r in E. rewrite E.
  cbn [fst snd]. destruct w; [ congruence | reflexivity ].
Qed.

Lemma runs_two_words (sep : ascii -> bool) (c : ascii) (w1 w2 : string) :
  allOf (fun c => negb (sep c)) w1 = true -> w1 <> "" ->
  allOf (fun c => negb (sep c)) w2 = true -> w2 <> "" ->
  sep c = true ->
  runs sep (w1 ++ String c w2) = [w1; w2].
Proof.
  intros H1 N1 H2 N2 Hc. rewrite runs_of_runsFrom.
  rewrite (runsFrom_word_app sep w1 _ H1).
  rewrite (runsFrom_cons_sep sep c w2 Hc), (runs_word sep w2 H2 N2).
  cbn [fst snd]. rewrite append_empty_r.
  destruct w1; [ congruence | reflexivity ].
Qed.

(** The words of a description. *)
Lemma words_runs (description : string) :
  words description = filter keepWord (letterRuns (toLowerCase description)).
Proof. unfold words. rewrite split_runs, cleanDesc_runs. reflexivity. Qed.

Lemma negb_negb_letter (c : ascii) :
  negb (negb (isLowerLetter c)) = true -> isLowerLetter c = true.
Proof. rewrite negb_involutive. auto. Qed.

Lemma words_letters (description : string) :
  Forall (fun w => allOf isLowerLetter w = true /\ keepWord w = true)
         (words description).
Proof.
  rewrite words_runs. apply Forall_forall. intros w Hw.
  apply filter_In in Hw. destruct Hw as [Hw Hk]. split; [ | exact Hk ].
  pose proof (runs_allOf (fun c => negb (isLowerLetter c))
                         (toLowerCase description)) as H.
  rewrite Forall_forall in H. specialize (H w Hw).
  apply (allOf_weaken _ _ _ negb_negb_letter H).
Qed.

Lemma letter_keyCharacter (c : ascii) :
  isLowerLetter c = true -> keyCharacter c = true.
Proof. unfold keyCharacter. intros ->. reflexivity. Qed.

Lemma keepWord_not_empty (w : string) : keepWord w = true -> w <> "".
Proof. intros H E. subst w. discriminate. Qed.

(** The key, by the number of words. *)
Lemma groupingKey_cases (description : string) :
  (words description = [] /\ groupingKey description = "")
  \/ (exists w, firstn 2 (words description) = [w]
                /\ groupingKey description = w)
  \/ (exists w1 w2, firstn 2 (words description) = [w1; w2]
                    /\ groupingKey description = w1 ++ String " " w2).
Proof.
  unfold groupingKey, join.
  destruct (words description) as [ | w1 [ | w2 ws]].
  - left. split; reflexivity.
  - right. left. exists w1. split; reflexivity.
  - right. right. exists w1, w2. split; reflexivity.
Qed.

Lemma firstn_words_letters (description : string) (w : string) :
  In w (firstn 2 (words description)) ->
  allOf isLowerLetter w = true /\ keepWord w = true.
Proof.
  intros H. pose proof (words_letters description) as F.
  rewrite Forall_forall in F. apply F.
  rewrite <- (firstn_skipn 2 (words description)). apply in_or_app. left. exact H.
Qed.

Lemma groupingKey_characters (description : string) :
  allOf keyCharacter (groupingKey description) = true.
Proof.
  destruct (groupingKey_cases description)
    as [[_ ->] | [[w [Hw ->]] | [w1 [w2 [Hw ->]]]]].
  - reflexivity.
  - destruct (firstn_words_letters description w) as [H _];
      [ rewrite Hw; left; reflexivity | ].
    apply (allOf_weaken _ _ _ letter_keyCharacter H).
  - destruct (firstn_words_letters description w1) as [H1 _];
      [ rewrite Hw; left; reflexivity | ].
    destruct (firstn_words_letters description w2) as [H2 _];
      [ rewrite Hw; right; left; reflexivity | ].
    rewrite allOf_app. cbn [allOf].
    rewrite (allOf_weaken _ _ _ letter_keyCharacter H1),
      (allOf_weaken _ _ _ letter_keyCharacter H2).
    reflexivity.
Qed.

Lemma letters_not_separators (w : string) :
  allOf isLowerLetter w = true ->
  allOf (fun c => negb (negb (isLowerLetter c))) w = true.
Proof.
  apply allOf_weaken. intros c H. rewrite negb_involutive. exact H.
Qed.

Lemma words_groupingKey (description : string) :
  words (groupingKey description) = firstn 2 (words description).
Proof.
  rewrite (words_runs (groupingKey description)).
  rewrite (allOf_lower _ (groupingKey_characters description)).
  unfold letterRuns.
  destruct (groupingKey_cases description)
    as [[E ->] | [[w [Hw ->]] | [w1 [w2 [Hw ->]]]]].
  - rewrite E. reflexivity.
  - destruct (firstn_words_letters description w) as [H K];
      [ rewrite Hw; left; reflexivity | ].
    rewrite (runs_word _ w (letters_not_separators w H) (keepWord_not_empty w K)).
    rewrite Hw. cbn [filter]. rewrite K. reflexivity.
  - destruct (firstn_words_letters description w1) as [H1 K1];
      [ rewrite Hw; left; reflexivity | ].
    destruct (firstn_words_letters description w2) as [H2 K2];
      [ rewrite Hw; right; left; reflexivity | ].
    rewrite (runs_two_words _ " " w1 w2
               (letters_not_separators w1 H1) (keepWord_not_empty w1 K1)
               (letters_not_separators w2 H2) (keepWord_not_empty w2 K2)
               eq_refl).
    rewrite Hw. cbn [filter]. rewrite K1, K2. reflexivity.
Qed.

Lemma firstn_firstn_same {A : Type} (n : nat) (l : list A) :
  firstn n (firstn n l) = firstn n l.
Proof. rewrite firstn_firstn, Nat.min_id. reflexivity. Qed.

Lemma inherited_key (k : string) :
  allOf keyCharacter k = true -> JSObject.inherited k = true ->
  k = "constructor".
Proof.
  intros Hk Hin. unfold JSObject.inherited in Hin.
  apply existsb_exists in Hin. destruct Hin as [x [Hx E]].
  apply String.eqb_eq in E. subst x.
  cbn [JSObject.objectPrototypeKeys In] in Hx.
  repeat (destruct Hx as [<- | Hx]; [ try reflexivity; vm_compute in Hk; discriminate | ]).
  contradiction.
Qed.

End KeyShape.

(** X6. A grouping key is made of the letters a-z and of spaces only,
    its words are the first two words of the description, and it is
    its own key; the key of a description does not depend on the case
    of its letters. *)
Theorem groupingKey_canonical :
  forall description : string,
    let k := groupingKey description in
    allOf keyCharacter k = true
    /\ words k = firstn 2 (words description)
    /\ groupingKey k = k
    /\ groupingKey (toLowerCase description) = k.
Proof.
  intros description k. subst k.
  split; [ apply groupingKey_characters | ].
  split; [ apply words_groupingKey | split ].
  - unfold groupingKey at 1. rewrite words_groupingKey, firstn_firstn_same.
    reflexivity.
  - unfold groupingKey, words, cleanDesc.
    rewrite toLowerCase_idempotent. reflexivity.
Qed.

(** ** The TypeError of [stats] *)

Lemma forEach_TypeError (monthAgo : float) (all : list NormTx) (t : NormTx) :
  In t all -> isGrouped all t = true ->
  JSObject.inherited (groupingKey (t_description t)) = true ->
  forEach (body monthAgo all) all initialState = TypeError.
Proof.
  intros Hin Hg Hk.
  destruct (forEach (body monthAgo all) all initialState) as [st | ] eqn:E;
    [ exfalso | reflexivity ].
  destruct (initial_built monthAgo all) as [Hg0 [_ Ht0]].
  destruct (forEach_groups monthAgo all all [] _ _ Hg0 Ht0 E) as [[Hnd [Hown Hkeys]] _].
  cbn [app] in *.
  specialize (Hkeys t Hin Hg).
  destruct (JSObject.getOwn (st_subGroups st) (groupingKey (t_description t)))
    as [txs | ] eqn:Eo.
  - destruct (Hown _ _ Eo) as [_ [_ Hni]]. congruence.
  - apply JSObjectFacts.getOwn_None in Eo. contradiction.
Qed.

(** X7. [stats] ends by a [TypeError] exactly when some transaction
    of a negative amount that is no transfer has the key "constructor":
    the only member of [Object.prototype] that a key can name. *)
Theorem stats_TypeError_iff :
  forall (parseFloat : string -> float) (data : SimpleFINData)
         (dateNow : float),
    let all := allTransactions parseFloat data in
    stats parseFloat (Some data) dateNow = TypeError
    <-> exists t, In t all /\ (t_amountNum t <? 0) = true
                  /\ isTransfer all t = false
                  /\ groupingKey (t_description t) = "constructor".
Proof.
  intros parseFloat data dateNow all. split.
  - intros H.
    destruct (existsb (fun t => isGrouped all t
                                && JSObject.inherited (groupingKey (t_description t)))
                      all) eqn:E.
    + apply existsb_exists in E. destruct E as [t [Hin Ht]].
      apply andb_prop in Ht. destruct Ht as [Hg Hk].
      apply inherited_key in Hk; [ | apply groupingKey_characters ].
      unfold isGrouped in Hg. apply andb_prop in Hg. destruct Hg as [Hg _].
      apply andb_prop in Hg. destruct Hg as [Hneg Htr].
      apply negb_true_iff in Htr. exists t. auto.
    + exfalso.
      destruct (stats_returns parseFloat data dateNow) as [r Hr];
        [ | congruence ].
      intros t Hin Hg. fold all in Hin, Hg.
      destruct (JSObject.inherited (groupingKey (t_description t))) eqn:Hk;
        [ | reflexivity ].
      assert (Hex : existsb (fun t => isGrouped all t
                                && JSObject.inherited (groupingKey (t_description t)))
                      all = true).
      { apply existsb_exists. exists t. rewrite Hg, Hk. auto. }
      congruence.
  - intros [t [Hin [Hneg [Htr Hk]]]]. unfold stats. fold all.
    rewrite (forEach_TypeError _ all t Hin); [ reflexivity | | rewrite Hk; reflexivity ].
    unfold isGrouped. rewrite Hneg, Htr, Hk. reflexivity.
Qed.

(** ** Amounts that are no numbers *)

Section Unparsed.

Import JSNumber Binary64.

Variable parseFloat : string -> float.

Lemma is_nan_not_number (x : float) :
  PrimFloat.is_nan x = true -> ~ isNumber x.
Proof.
  unfold PrimFloat.is_nan, isNumber, notNan. rewrite eqb_spec.
  pose proof (Prim2SF_valid x) as V.
  destruct (Prim2SF x) as [s | s | | s m e]; intros H Hn; try congruence.
  - destruct s; discriminate.
  - destruct s; discriminate.
  - unfold SFeqb in H. cbn in H.
    destruct s; rewrite Z.compare_refl, Pos.compare_cont_refl in H; discriminate.
Qed.

Lemma normalize_filter (acc acc' : Account) (ts : list Transaction) :
  acc_id acc' = acc_id acc -> acc_name acc' = acc_name acc ->
  map (normalize parseFloat acc') (filter (isParsed parseFloat) ts)
  = filter parsed (map (normalize parseFloat acc) ts).
Proof.
  intros Hid Hname. induction ts as [ | t ts IH]; [ reflexivity | ].
  cbn [filter map].
  change (parsed (normalize parseFloat acc t)) with (isParsed parseFloat t).
  destruct (isParsed parseFloat t); [ | exact IH ].
  cbn [map]. rewrite IH. f_equal. unfold normalize. rewrite Hid, Hname.
  reflexivity.
Qed.

Lemma allTransactions_withoutUnparsed (data : SimpleFINData) :
  allTransactions parseFloat (withoutUnparsed parseFloat data)
  = filter parsed (allTransactions parseFloat data).
Proof.
  unfold allTransactions, withoutUnparsed. cbn [accounts].
  induction (accounts data) as [ | acc accs IH]; [ reflexivity | ].
  cbn [map flat_map]. rewrite filter_app, IH. f_equal.
  apply normalize_filter; reflexivity.
Qed.

Lemma totals_withoutUnparsed (data : SimpleFINData) :
  totals parseFloat (accounts (withoutUnparsed parseFloat data))
  = totals parseFloat (accounts data).
Proof.
  unfold totals, withoutUnparsed. cbn [accounts].
  generalize {| tot_netWorth := 0; tot_assets := 0; tot_liabilities := 0 |}.
  induction (accounts data) as [ | acc accs IH]; intros s; [ reflexivity | ].
  cbn [map fold_left]. rewrite IH. reflexivity.
Qed.

Lemma matches_unparsed (t other : NormTx) :
  parsed other = false -> matches t other = false.
Proof.
  unfold parsed, matches. intros H. apply negb_false_iff in H.
  apply is_nan_not_number in H.
  rewrite (nan_ltb_l (abs (t_amountNum other + t_amountNum t)) 0.001)
    by (apply nan_abs, nan_add_l; exact H).
  rewrite andb_false_r. reflexivity.
Qed.

Lemma isTransfer_filter (all : list NormTx) (t : NormTx) :
  isTransfer (filter parsed all) t = isTransfer all t.
Proof.
  unfold isTransfer. induction all as [ | o all IH]; [ reflexivity | ].
  cbn [filter existsb]. destruct (parsed o) eqn:E.
  - cbn [existsb]. rewrite IH. reflexivity.
  - rewrite (matches_unparsed t o E), IH. reflexivity.
Qed.

Lemma body_filter (monthAgo : float) (all : list NormTx)
      (st : LoopState) (t : NormTx) :
  body monthAgo (filter parsed all) st t = body monthAgo all st t.
Proof.
  unfold body, addToGroup, addSpending, isGrouped, countsAsSpending.
  rewrite !isTransfer_filter. reflexivity.
Qed.

Lemma body_unparsed (monthAgo : float) (all : list NormTx)
      (st : LoopState) (t : NormTx) :
  parsed t = false -> body monthAgo all st t = Normal st.
Proof.
  unfold parsed. intros H. apply negb_false_iff in H.
  apply is_nan_not_number in H.
  unfold body, addToGroup, addSpending, isGrouped, countsAsSpending.
  rewrite (nan_ltb_l (t_amountNum t) 0 H), !andb_false_r. reflexivity.
Qed.

Lemma forEach_filter (monthAgo : float) (all l : list NormTx) :
  forall st,
    forEach (body monthAgo (filter parsed all)) (filter parsed l) st
    = forEach (body monthAgo all) l st.
Proof.
  induction l as [ | t l IH]; intros st; [ reflexivity | ].
  cbn [filter forEach]. destruct (parsed t) eqn:E.
  - cbn [forEach]. rewrite body_filter.
    destruct (body monthAgo all st t); [ apply IH | reflexivity ].
  - rewrite (body_unparsed monthAgo all st t E). apply IH.
Qed.

End Unparsed.

(** X8. The transactions whose amount is read as [NaN] change
    nothing: [stats] gives the same result, a report or the
    [TypeError], on the data without them. *)
Theorem unparsed_amounts_ignored :
  forall (parseFloat : string -> float) (data : SimpleFINData)
         (dateNow : float),
    stats parseFloat (Some (withoutUnparsed parseFloat data)) dateNow
    = stats parseFloat (Some data) dateNow.
Proof.
  intros parseFloat data dateNow. unfold stats.
  rewrite totals_withoutUnparsed, allTransactions_withoutUnparsed, forEach_filter.
  reflexivity.
Qed.

(** ** The address of the accounts function *)

Section EndsWith.

Import AccountsFunction.
Local Open Scope string_scope.

Lemma endsWith_iff (s suffix : string) :
  endsWith s suffix = true <-> exists p, s = p ++ suffix.
Proof.
  induction s as [ | c s IH]; cbn [endsWith].
  - rewrite orb_false_r. split.
    + intros H. apply String.eqb_eq in H. exists "". exact H.
    + intros [p H]. destruct p; [ | discriminate ].
      cbn in H. apply String.eqb_eq. exact H.
  - rewrite orb_true_iff, IH. split.
    + intros [H | [p H]].
      * apply String.eqb_eq in H. exists "". exact H.
      * exists (String c p). cbn. rewrite H. reflexivity.
    + intros [p H]. destruct p as [ | c' p].
      * left. apply String.eqb_eq. exact H.
      * right. exists p. cbn in H. injection H as _ H. exact H.
Qed.

Lemma append_assoc (a b c : string) : (a ++ b) ++ c = a ++ (b ++ c).
Proof. induction a as [ | x a IH]; cbn; [ | rewrite IH ]; reflexivity. Qed.

Lemma endsWith_app (p suffix : string) : endsWith (p ++ suffix) suffix = true.
Proof. apply endsWith_iff. exists p. reflexivity. Qed.

Lemma cleanUrl_ends (u : string) :
  endsWith (cleanUrl u) "/accounts" = true
  \/ endsWith (cleanUrl u) "/accounts/" = true.
Proof.
  unfold cleanUrl.
  destruct (endsWith u "/accounts") eqn:E1; [ left; exact E1 | ].
  destruct (endsWith u "/accounts/") eqn:E2; [ right; exact E2 | ].
  cbn [negb andb]. left.
  destruct (endsWith u "/") eqn:E3.
  - apply endsWith_iff in E3. destruct E3 as [p ->].
    rewrite append_assoc. apply endsWith_app.
  - apply endsWith_app.
Qed.

Lemma cleanUrl_fixed (u : string) :
  endsWith u "/accounts" = true \/ endsWith u "/accounts/" = true ->
  cleanUrl u = u.
Proof.
  unfold cleanUrl. intros [-> | ->]; [ | rewrite andb_false_r ]; reflexivity.
Qed.

End EndsWith.

(** X9. The handler of the accounts function returns at its guard,
    with the answer 401 of the guard and before any request, exactly
    when the environment variable and the header are both missing or
    empty.  Otherwise the address it hands to [new URL] is the cleaned
    form of the variable when it is set and not empty, of the header
    when not, and it ends in "/accounts" or in "/accounts/". *)
Theorem accounts_address :
  forall env header : option string,
    (AccountsFunction.target env header = AccountsFunction.GuardReturn
     <-> (env = None \/ env = Some "") /\ (header = None \/ header = Some ""))
    /\ (forall address,
           AccountsFunction.target env header = AccountsFunction.Address address ->
           (AccountsFunction.endsWith address "/accounts" = true
            \/ AccountsFunction.endsWith address "/accounts/" = true)
           /\ exists given,
               given <> ""
               /\ (env = Some given \/ ((env = None \/ env = Some "")
                                        /\ header = Some given))
               /\ address = AccountsFunction.cleanUrl given).
Proof.
  intros env header. unfold AccountsFunction.target, AccountsFunction.orElse.
  split.
  - destruct env as [[ | c s] | ], header as [[ | c' s'] | ];
      split; try discriminate; try tauto;
      try (intros [[H | H] [K | K]]; discriminate); intros _;
      repeat split; auto.
  - intros address.
    destruct env as [[ | c s] | ], header as [[ | c' s'] | ];
      try discriminate; intros H; injection H as <-;
      (split; [ apply cleanUrl_ends | ]);
      eexists; (split; [ | split; [ | reflexivity ] ]);
      try discriminate; auto.
Qed.

(** X10. Cleaning an address twice is cleaning it once, and an
    address is left as it is exactly when it ends in "/accounts" or in
    "/accounts/". *)
Theorem cleanUrl_idempotent :
  forall u : string,
    AccountsFunction.cleanUrl (AccountsFunction.cleanUrl u)
    = AccountsFunction.cleanUrl u
    /\ (AccountsFunction.cleanUrl u = u
        <-> AccountsFunction.endsWith u "/accounts" = true
            \/ AccountsFunction.endsWith u "/accounts/" = true).
Proof.
  intros u. split.
  - apply cleanUrl_fixed. apply cleanUrl_ends.
  - split; [ | apply cleanUrl_fixed ].
    intros H. rewrite <- H at 1 2. apply cleanUrl_ends.
Qed.

(** ** The order of the own properties *)

Section OwnPropertiesFacts.

Import OwnProperties.

Context {V : Type}.

Lemma insertByIndex_perm (x : Z * (string * V)) (l : list (Z * (string * V))) :
  Permutation (insertByIndex x l) (x :: l).
Proof.
  induction l as [ | y l IH]; cbn [insertByIndex]; [ reflexivity | ].
  destruct (fst y <? fst x)%Z; [ | reflexivity ].
  rewrite IH. apply perm_swap.
Qed.

Lemma sortByIndex_perm (l : list (Z * (string * V))) :
  Permutation (fold_right insertByIndex [] l) l.
Proof.
  induction l as [ | x l IH]; cbn [fold_right]; [ reflexivity | ].
  rewrite insertByIndex_perm, IH. reflexivity.
Qed.

Lemma indexed_named_perm (o : JSObject.t V) :
  Permutation (map snd (indexed o) ++ filter isNamed o) o.
Proof.
  unfold indexed, isNamed. induction o as [ | e o IH]; [ reflexivity | ].
  cbn [flat_map filter]. destruct (arrayIndex (fst e)).
  - cbn [app map snd]. apply perm_skip. exact IH.
  - cbn [app]. rewrite <- Permutation_middle. apply perm_skip. exact IH.
Qed.

Lemma entries_perm (o : JSObject.t V) : Permutation (entries o) o.
Proof.
  unfold entries. rewrite (Permutation_map snd (sortByIndex_perm (indexed o))).
  apply indexed_named_perm.
Qed.

End OwnPropertiesFacts.

(** ** The first rows of a sorted list *)

Section TopOf.

Import JSNumber SortFacts.

Context {A : Type}.
Variable f : A -> float.

(** The first [n] of a list sorted by decreasing [f]. *)
Lemma top_of_sorted (n : nat) (l : list A) :
  (forall x, In x l -> isNumber (f x)) ->
  let shown := firstn n (sort (descending f) l) in
  List.length shown = Nat.min n (List.length l)
  /\ (forall x, In x shown -> In x l)
  /\ StronglySorted (fun a b => (f b <=? f a) = true) shown
  /\ (forall a b, In a shown -> In b l -> ~ In b shown -> (f b <=? f a) = true).
Proof.
  intros Hnum shown.
  set (sorted := sort (descending f) l) in *.
  assert (Hp : Permutation sorted l) by apply sort_perm.
  assert (Hs : StronglySorted (notBelow f) sorted).
  { apply sort_sorted. apply Forall_forall. exact Hnum. }
  assert (Hsub : forall x, In x shown -> In x l).
  { intros x Hx. apply (Permutation_in _ Hp).
    rewrite <- (firstn_skipn n sorted). apply in_or_app. left. exact Hx. }
  split; [ | split; [ exact Hsub | split ] ].
  - unfold shown. rewrite length_firstn. unfold sorted. rewrite sort_length.
    reflexivity.
  - apply (StronglySorted_weaken (notBelow f)).
    + intros a b Ha Hb. apply notBelow_leb; apply Hnum; apply Hsub; assumption.
    + apply sorted_firstn. exact Hs.
  - intros a b Ha Hb Hnb.
    apply notBelow_leb; [ apply Hnum, Hsub, Ha | apply Hnum, Hb | ].
    rewrite <- (firstn_skipn n sorted) in Hs.
    apply (sorted_app f _ _ a b Hs Ha).
    apply (Permutation_in _ (Permutation_sym Hp)) in Hb.
    rewrite <- (firstn_skipn n sorted) in Hb.
    apply in_app_or in Hb. destruct Hb as [Hb | Hb]; [ contradiction | exact Hb ].
Qed.

End TopOf.

(** ** Recent activity and the spending card *)

Lemma byPostedDateDesc_descending :
  byPostedDateDesc = JSNumber.descending a_postedDate.
Proof. reflexivity. Qed.

Lemma byValueDesc_descending :
  byValueDesc = JSNumber.descending (fun e => toNumber (snd e)).
Proof. reflexivity. Qed.

Lemma in_activities (data : SimpleFINData) (row : ActivityTx) :
  In row (flat_map (fun acc => map (activityOf acc) (transactionsOf acc))
                   (accounts data))
  <-> exists acc t, In acc (accounts data) /\ In t (transactionsOf acc)
                    /\ row = activityOf acc t.
Proof.
  rewrite in_flat_map. split.
  - intros [acc [Hacc Hrow]]. apply in_map_iff in Hrow.
    destruct Hrow as [t [<- Ht]]. exists acc, t. auto.
  - intros [acc [t [Hacc [Ht ->]]]]. exists acc. split; [ exact Hacc | ].
    apply in_map. exact Ht.
Qed.

(** X11. When every timestamp is a number, the panel of the recent
    activity shows the 100 newest transactions, newest first: it has
    100 rows, or as many as there are transactions when they are
    fewer; every row is a transaction of an account of the data; no
    row is newer than the row before it; and no transaction that is
    left out is newer than a row. *)
Theorem recentActivity_newest_first :
  forall data : SimpleFINData,
    (forall acc t, In acc (accounts data) -> In t (transactionsOf acc) ->
                   JSNumber.isNumber (tx_posted t)) ->
    let every := flat_map (fun acc => map (activityOf acc) (transactionsOf acc))
                          (accounts data) in
    let shown := recentActivity data in
    List.length shown = Nat.min 100 (List.length every)
    /\ (forall row, In row shown ->
                    exists acc t, In acc (accounts data)
                                  /\ In t (transactionsOf acc)
                                  /\ row = activityOf acc t)
    /\ StronglySorted (fun a b => (a_postedDate b <=? a_postedDate a) = true)
                      shown
    /\ (forall a b, In a shown -> In b every -> ~ In b shown ->
                    (a_postedDate b <=? a_postedDate a) = true).
Proof.
  intros data Hnum every shown.
  assert (Hn : forall x, In x every -> JSNumber.isNumber (a_postedDate x)).
  { intros x Hx. apply in_activities in Hx.
    destruct Hx as [acc [t [Hacc [Ht ->]]]]. cbn [activityOf a_postedDate].
    apply seconds_isNumber. apply (Hnum acc t Hacc Ht). }
  destruct (top_of_sorted a_postedDate 100 every Hn) as [H1 [H2 [H3 H4]]].
  rewrite <- byPostedDateDesc_descending in H1, H2, H3, H4.
  split; [ exact H1 | split; [ | split; [ exact H3 | exact H4 ] ] ].
  intros row Hrow. apply in_activities. apply H2. exact Hrow.
Qed.

Lemma recentActivity_newest_first_witness :
  map (fun row => tx_id (a_transaction row))
      (recentActivity SubscriptionExamples.groceryData)
  = ["t1"; "t2"; "t4"; "t3"]
  /\ StronglySorted (fun a b => (a_postedDate b <=? a_postedDate a) = true)
                    (recentActivity SubscriptionExamples.groceryData).
Proof.
  split; [ vm_compute; reflexivity | ].
  destruct (recentActivity_newest_first SubscriptionExamples.groceryData)
    as [_ [_ [W _]]]; [ | exact W ].
  intros acc t [<- | []] [<- | [<- | [<- | [<- | []]]]];
    vm_compute; discriminate.
Defined.

(** X12. For accounts whose names are no members of
    [Object.prototype], the spending card shows the two largest entries
    of the breakdown, the larger first, or all the entries when they
    are fewer than two: no entry that is left out is larger than one
    that is shown. *)
Theorem topSpending_largest :
  forall (parseFloat : string -> float) (data : SimpleFINData)
         (dateNow : float) (r : Report),
    stats parseFloat (Some data) dateNow = Normal r ->
    (forall acc, In acc (accounts data) ->
                 JSObject.inherited (acc_name acc) = false) ->
    let shown := topSpending (spendingByAccount r) in
    List.length shown = Nat.min 2 (List.length (spendingByAccount r))
    /\ (forall e, In e shown -> In e (spendingByAccount r))
    /\ StronglySorted (fun a b => (toNumber (snd b) <=? toNumber (snd a)) = true)
                      shown
    /\ (forall a b, In a shown -> In b (spendingByAccount r) -> ~ In b shown ->
                    (toNumber (snd b) <=? toNumber (snd a)) = true).
Proof.
  intros parseFloat data dateNow r H Hnames shown.
  destruct (stats_spending_built parseFloat data dateNow r H Hnames)
    as [Hnd [Hent _]].
  set (o := spendingByAccount r) in *.
  assert (Hp : Permutation (OwnProperties.entries o) o) by apply entries_perm.
  assert (Hn : forall e, In e (OwnProperties.entries o) ->
                         JSNumber.isNumber (toNumber (snd e))).
  { intros [name v] He. apply (Permutation_in _ Hp) in He.
    apply (JSObjectFacts.In_getOwn _ _ _ Hnd) in He.
    destruct (Hent name v He) as [Hne ->]. cbn [snd toNumber].
    apply (units_isNumber 1). apply spentBy_units. exact Hne. }
  destruct (top_of_sorted (fun e => toNumber (snd e)) 2
                          (OwnProperties.entries o) Hn) as [H1 [H2 [H3 H4]]].
  rewrite <- byValueDesc_descending in H1, H2, H3, H4.
  fold (topSpending o) in H1, H2, H3, H4. fold shown in H1, H2, H3, H4.
  split; [ | split; [ | split; [ exact H3 | ] ] ].
  - rewrite H1. rewrite (Permutation_length Hp). reflexivity.
  - intros e He. apply (Permutation_in _ Hp). apply H2. exact He.
  - intros a b Ha Hb Hnb. apply (H4 a b Ha); [ | exact Hnb ].
    apply (Permutation_in _ (Permutation_sym Hp)). exact Hb.
Qed.

Lemma topSpending_largest_witness :
  exists r : Report,
    stats Decimal.parseDecimal (Some SpendingExamples.threePurchases)
          Examples.dateNow = Normal r
    /\ topSpending (spendingByAccount r)
       = [("Platinum Card", JNum 134.99); ("Total Checking", JNum 9.99)]
    /\ StronglySorted
         (fun a b => (toNumber (snd b) <=? toNumber (snd a)) = true)
         (topSpending (spendingByAccount r)).
Proof.
  eexists. split; [ vm_compute; reflexivity | ].
  split; [ vm_compute; reflexivity | ].
  match goal with
  | |- StronglySorted _ (topSpending (spendingByAccount ?r)) =>
      destruct (topSpending_largest
                  Decimal.parseDecimal SpendingExamples.threePurchases
                  Examples.dateNow r) as [_ [_ [W _]]];
      [ vm_compute; reflexivity
      | intros acc [<- | [<- | []]]; vm_compute; reflexivity
      | exact W ]
  end.
Defined.

(** ** The panel of the accounts *)

Section AccountsPanelFacts.

Import JSObject JSObjectFacts.

Lemma addToBank_built (done : list Account) (groups groups' : t (list Account))
      (acc : Account) :
  BanksBuilt done groups ->
  addToBank groups acc = Normal groups' ->
  BanksBuilt (done ++ [acc]) groups'.
Proof.
  intros [Hnd [Hent Hkeys]]. unfold addToBank.
  set (k0 := orgNameOf acc).
  assert (Hstep : forall accs0,
             (getOwn groups k0 = Some accs0
              \/ (getOwn groups k0 = None /\ accs0 = []
                  /\ inherited k0 = false)) ->
             BanksBuilt (done ++ [acc]) (setOwn groups k0 (accs0 ++ [acc]))).
  { intros accs0 Hcase.
    split; [ apply NoDup_setOwn; exact Hnd | split ].
    - intros k accs. rewrite getOwn_setOwn, filter_app. cbn [filter].
      fold k0. destruct (String.eqb_spec k0 k) as [<- | Hne].
      + intros H. injection H as <-.
        destruct Hcase as [Hget | [Hget [-> Hinh]]].
        * destruct (Hent k0 accs0 Hget) as [-> [_ Hinh]].
          split; [ reflexivity | split; [ | exact Hinh ] ].
          intros Hnil. apply app_eq_nil in Hnil. destruct Hnil; discriminate.
        * assert (Hnone : filter (fun a => String.eqb (orgNameOf a) k0) done = []).
          { apply filter_nil_of. intros x Hx Hfx. apply String.eqb_eq in Hfx.
            apply getOwn_None in Hget. apply Hget. rewrite <- Hfx.
            apply Hkeys. exact Hx. }
          rewrite Hnone. split; [ reflexivity | split; [ discriminate | exact Hinh ] ].
      + intros H. rewrite app_nil_r. apply Hent. exact H.
    - intros a Hin. apply In_keys_setOwn.
      apply in_app_or in Hin. destruct Hin as [Hin | [<- | []]].
      + right. apply Hkeys. exact Hin.
      + left. reflexivity. }
  destruct (getOwn groups k0) as [accs0 | ] eqn:Hget.
  - intros H. injection H as <-. apply Hstep. left. reflexivity.
  - destruct (inherited k0) eqn:Hinh; [ discriminate | ].
    intros H. injection H as <-. apply (Hstep []). right. auto.
Qed.

Lemma bankGroups_built (rest : list Account) :
  forall (done : list Account) (groups groups' : t (list Account)),
    BanksBuilt done groups ->
    forEach addToBank rest groups = Normal groups' ->
    BanksBuilt (done ++ rest) groups'.
Proof.
  induction rest as [ | acc rest IH]; intros done groups groups' Hb.
  - cbn [forEach]. intros H. injection H as <-. rewrite app_nil_r. exact Hb.
  - cbn [forEach]. destruct (addToBank groups acc) as [g1 | ] eqn:E;
      [ | discriminate ].
    intros H. replace (done ++ acc :: rest) with ((done ++ [acc]) ++ rest)
      by (rewrite <- app_assoc; reflexivity).
    apply (IH _ g1 groups'); [ | exact H ].
    apply (addToBank_built done groups g1 acc Hb E).
Qed.

Lemma banks_initial : BanksBuilt [] [].
Proof.
  split; [ constructor | split ]; [ discriminate | contradiction ].
Qed.

Lemma bankGroups_completes (rest : list Account) :
  forall groups : t (list Account),
    (forall acc, In acc rest -> inherited (orgNameOf acc) = false) ->
    exists groups', forEach addToBank rest groups = Normal groups'.
Proof.
  induction rest as [ | acc rest IH]; intros groups Hk; cbn [forEach].
  - exists groups. reflexivity.
  - assert (Hstep : exists g1, addToBank groups acc = Normal g1).
    { unfold addToBank. destruct (getOwn _ _); [ eexists; reflexivity | ].
      rewrite (Hk acc (or_introl eq_refl)). eexists; reflexivity. }
    destruct Hstep as [g1 ->]. apply IH.
    intros a Hin. apply Hk. right. exact Hin.
Qed.

End AccountsPanelFacts.

Section PanelFacts.

Import JSObject JSObjectFacts.

Variable localeCompare : string -> string -> float.

Lemma flat_map_perm_pointwise {A B : Type} (f g : A -> list B) (l : list A) :
  (forall x, In x l -> Permutation (f x) (g x)) ->
  Permutation (flat_map f l) (flat_map g l).
Proof.
  induction l as [ | x l IH]; intros H; cbn [flat_map]; [ constructor | ].
  apply Permutation_app.
  - apply H. left. reflexivity.
  - apply IH. intros y Hy. apply H. right. exact Hy.
Qed.

Lemma flat_map_of_map {A B C : Type} (f : B -> list C) (g : A -> B)
      (l : list A) :
  flat_map f (map g l) = flat_map (fun x => f (g x)) l.
Proof.
  induction l as [ | x l IH]; cbn [map flat_map]; [ | rewrite IH ]; reflexivity.
Qed.

Lemma sameType_iff (a b : AccountType) : sameType a b = true <-> a = b.
Proof. destruct a, b; cbn; split; congruence. Qed.

Lemma typeSection_spec (bankAccounts : list Account) (type : AccountType) :
  let typeAccs :=
    filter (fun a => sameType (getAccountType (acc_name a)) type) bankAccounts in
  (typeAccs = [] /\ typeSection localeCompare bankAccounts type = None)
  \/ (typeAccs <> []
      /\ typeSection localeCompare bankAccounts type
         = Some (type, JSNumber.sort (byAccountName localeCompare) typeAccs)).
Proof.
  intros typeAccs. unfold typeSection. fold typeAccs.
  destruct typeAccs as [ | a l]; [ left | right ]; split;
    try reflexivity; discriminate.
Qed.

Lemma typeSection_listed (bankAccounts : list Account) (type : AccountType) :
  Permutation
    (match typeSection localeCompare bankAccounts type with
     | Some (_, accs) => accs
     | None => []
     end)
    (filter (fun a => sameType (getAccountType (acc_name a)) type) bankAccounts).
Proof.
  destruct (typeSection_spec bankAccounts type) as [[E ->] | [_ ->]].
  - rewrite E. constructor.
  - apply SortFacts.sort_perm.
Qed.

Lemma by_type_perm (l : list Account) :
  Permutation
    (flat_map (fun type =>
                 filter (fun a => sameType (getAccountType (acc_name a)) type) l)
              accountTypes)
    l.
Proof.
  unfold accountTypes. cbn [flat_map]. rewrite app_nil_r.
  induction l as [ | a l IH]; [ constructor | ].
  cbn [filter]. symmetry in IH. symmetry.
  destruct (getAccountType (acc_name a)); cbn [sameType app].
  - apply perm_skip. exact IH.
  - apply Permutation_cons_app. exact IH.
  - rewrite app_assoc. apply Permutation_cons_app.
    rewrite <- app_assoc. exact IH.
  - rewrite !app_assoc. apply Permutation_cons_app.
    rewrite <- !app_assoc. exact IH.
  - rewrite !app_assoc. apply Permutation_cons_app.
    rewrite <- !app_assoc. exact IH.
Qed.

Lemma sections_listed (bankAccounts : list Account) :
  Permutation
    (listedIn (map (typeSection localeCompare bankAccounts) accountTypes))
    bankAccounts.
Proof.
  eapply Permutation_trans; [ | apply by_type_perm ].
  unfold listedIn, accountTypes. cbn [map flat_map].
  repeat (apply Permutation_app; [ apply typeSection_listed | ]).
  constructor.
Qed.

Lemma banks_accounts (accs : list Account) (groups : t (list Account)) :
  BanksBuilt accs groups ->
  Permutation (flat_map snd groups) accs.
Proof.
  intros [Hnd [Hent Hkeys]].
  assert (Hp : Permutation
                 (filter (fun _ => true) accs)
                 (flat_map (fun k => filter (fun a => true && String.eqb (orgNameOf a) k)
                                            accs)
                           (keys groups))).
  { apply (filter_by_key orgNameOf); [ exact Hnd | ].
    intros a Ha _. apply Hkeys. exact Ha. }
  rewrite (forallb_filter_id (fun _ => true) accs) in Hp
    by (apply forallb_forall; reflexivity).
  rewrite Hp. unfold keys. rewrite flat_map_of_map.
  apply flat_map_perm_pointwise. intros [k v] Hin. cbn [fst snd andb].
  apply (In_getOwn _ _ _ Hnd) in Hin. destruct (Hent k v Hin) as [-> _].
  reflexivity.
Qed.

End PanelFacts.

(** X13. When the panel of the accounts is built, it lists every
    account of the data once, in every locale: the accounts of the
    sections of the banks, all together, are the accounts of the data;
    no bank has two entries and no section is empty; and an account
    stands under the name of its organization, "Other Institutions"
    when that name is empty, and in the section of the class of its
    name. *)
Theorem accountsPanel_every_account_once :
  forall (localeCompare : string -> string -> float) (data : SimpleFINData)
         (panel : list (string * list (option (AccountType * list Account)))),
    accountsPanel localeCompare data = Normal panel ->
    Permutation (flat_map (fun bank => listedIn (snd bank)) panel)
                (accounts data)
    /\ NoDup (map fst panel)
    /\ (forall bankName sections type accs,
           In (bankName, sections) panel ->
           In (Some (type, accs)) sections ->
           accs <> []
           /\ forall acc, In acc accs ->
                          In acc (accounts data)
                          /\ orgNameOf acc = bankName
                          /\ getAccountType (acc_name acc) = type).
Proof.
  intros localeCompare data panel. unfold accountsPanel, bankGroups.
  destruct (forEach addToBank (accounts data) []) as [groups | ] eqn:E;
    [ | discriminate ].
  intros H. injection H as <-.
  pose proof (bankGroups_built (accounts data) [] [] groups banks_initial E) as Hb.
  cbn [app] in Hb.
  set (sorted := JSNumber.sort (byBankName localeCompare)
                               (OwnProperties.entries groups)).
  assert (Hp : Permutation sorted groups).
  { unfold sorted. rewrite SortFacts.sort_perm. apply entries_perm. }
  split; [ | split ].
  - rewrite flat_map_of_map.
    cbn [snd]. rewrite <- (banks_accounts _ _ Hb).
    rewrite <- (Permutation_flat_map snd Hp).
    apply flat_map_perm_pointwise. intros bank _. apply sections_listed.
  - rewrite map_map. cbn [fst].
    apply (Permutation_NoDup (l := JSObject.keys groups)); [ | apply Hb ].
    unfold JSObject.keys. apply Permutation_map. symmetry. exact Hp.
  - intros bankName sections type accs Hbank Hsec.
    apply in_map_iff in Hbank. destruct Hbank as [[k bankAccounts] [Heq Hin]].
    cbn [fst snd] in Heq. injection Heq as -> <-.
    apply (Permutation_in _ Hp) in Hin.
    destruct Hb as [Hnd [Hent _]].
    apply (JSObjectFacts.In_getOwn _ _ _ Hnd) in Hin.
    destruct (Hent _ _ Hin) as [Hacc _].
    change (In (Some (type, accs))
               (map (typeSection localeCompare bankAccounts) accountTypes))
      in Hsec.
    apply in_map_iff in Hsec. destruct Hsec as [ty [Hsec _]].
    destruct (typeSection_spec localeCompare bankAccounts ty)
      as [[_ Hnone] | [Hne Hsome]]; [ congruence | ].
    rewrite Hsome in Hsec. injection Hsec as -> <-.
    split.
    + intros Hnil. apply Hne.
      apply (f_equal (@List.length Account)) in Hnil.
      rewrite SortFacts.sort_length in Hnil.
      destruct (filter _ bankAccounts); [ reflexivity | discriminate ].
    + intros acc Hin'. apply SortFacts.sort_In in Hin'.
      apply filter_In in Hin'. destruct Hin' as [Hin' Hty].
      apply sameType_iff in Hty. rewrite Hacc in Hin'.
      apply filter_In in Hin'. destruct Hin' as [Hin' Hk].
      apply String.eqb_eq in Hk. auto.
Qed.

Lemma accountsPanel_every_account_once_witness :
  exists panel,
    accountsPanel DashboardExamples.codeUnitCompare
                  DashboardExamples.fiveAccounts = Normal panel
    /\ map fst panel
       = ["American Express"; "Chase Bank"; "Fidelity Investments";
          "Other Institutions"]
    /\ Permutation (flat_map (fun bank => listedIn (snd bank)) panel)
                   (accounts DashboardExamples.fiveAccounts).
Proof.
  eexists. split; [ vm_compute; reflexivity | ].
  split; [ vm_compute; reflexivity | ].
  match goal with
  | |- Permutation (flat_map _ ?panel) _ =>
      destruct (accountsPanel_every_account_once
                  DashboardExamples.codeUnitCompare
                  DashboardExamples.fiveAccounts panel) as [W _];
      [ vm_compute; reflexivity | exact W ]
  end.
Defined.

(** X14. Building the panel of the accounts ends by a [TypeError]
    exactly when the organization of some account has the name of a
    member of [Object.prototype]: "constructor", "toString",
    "__proto__" and the like. *)
Theorem accountsPanel_TypeError_iff :
  forall (localeCompare : string -> string -> float) (data : SimpleFINData),
    accountsPanel localeCompare data = TypeError
    <-> exists acc, In acc (accounts data)
                    /\ JSObject.inherited (orgNameOf acc) = true.
Proof.
  intros localeCompare data. unfold accountsPanel, bankGroups. split.
  - intros H.
    destruct (existsb (fun acc => JSObject.inherited (orgNameOf acc))
                      (accounts data)) eqn:E.
    + apply existsb_exists in E. exact E.
    + exfalso.
      destruct (bankGroups_completes (accounts data) []) as [g Hg].
      * intros acc Hin.
        destruct (JSObject.inherited (orgNameOf acc)) eqn:Hk; [ | reflexivity ].
        assert (Hex : existsb (fun acc => JSObject.inherited (orgNameOf acc))
                              (accounts data) = true)
          by (apply existsb_exists; exists acc; auto).
        congruence.
      * rewrite Hg in H. discriminate.
  - intros [acc [Hin Hk]].
    destruct (forEach addToBank (accounts data) []) as [groups | ] eqn:E;
      [ exfalso | reflexivity ].
    pose proof (bankGroups_built (accounts data) [] [] groups banks_initial E)
      as [Hnd [Hent Hkeys]].
    cbn [app] in *. specialize (Hkeys acc Hin).
    destruct (JSObject.getOwn groups (orgNameOf acc)) as [accs | ] eqn:Eo.
    + destruct (Hent _ _ Eo) as [_ [_ Hni]]. congruence.
    + apply JSObjectFacts.getOwn_None in Eo. contradiction.
Qed.

(** ** The keywords of the account classes *)

Section Keywords.

Local Open Scope string_scope.

Lemma prefix_iff (sub s : string) :
  String.prefix sub s = true <-> exists b, s = sub ++ b.
Proof.
  revert s. induction sub as [ | c sub IH]; intros s.
  - split; [ intros _; exists s; reflexivity | intros _; destruct s; reflexivity ].
  - destruct s as [ | c' s]; cbn [String.prefix].
    + split; [ discriminate | intros [b H]; discriminate ].
    + destruct (Ascii.ascii_dec c c') as [-> | Hne].
      * rewrite IH. split; intros [b H]; exists b.
        -- cbn. rewrite H. reflexivity.
        -- cbn in H. injection H as H. exact H.
      * split; [ discriminate | ].
        intros [b H]. cbn in H. injection H as H _. congruence.
Qed.

Lemma includes_iff (s sub : string) :
  includes s sub = true <-> occursIn sub s.
Proof.
  unfold occursIn. induction s as [ | c s IH]; cbn [includes].
  - rewrite orb_false_r, prefix_iff. split.
    + intros [b H]. exists "", b. exact H.
    + intros [a [b H]]. destruct a; [ exists b; exact H | discriminate ].
  - rewrite orb_true_iff, prefix_iff, IH. split.
    + intros [[b H] | [a [b H]]].
      * exists "", b. exact H.
      * exists (String c a), b. cbn. rewrite H. reflexivity.
    + intros [a [b H]]. destruct a as [ | c' a].
      * left. exists b. exact H.
      * right. exists a, b. cbn in H. injection H as _ H. exact H.
Qed.

Lemma includes_false_iff (s sub : string) :
  includes s sub = false <-> ~ occursIn sub s.
Proof.
  rewrite <- includes_iff. destruct (includes s sub); split; congruence.
Qed.

Lemma mastercard_card (s : string) :
  includes s "mastercard" = true -> includes s "card" = true.
Proof.
  rewrite !includes_iff. intros [a [b ->]]. exists (a ++ "master"), b.
  rewrite append_assoc. reflexivity.
Qed.

End Keywords.

(** X15. An account is a credit card exactly when its name in lower
    case holds none of "checking", "spending", "savings" and "reserve"
    and holds one of "credit", "card", "visa" and "amex", anywhere,
    inside a longer word too.  The test for "mastercard" adds nothing,
    "card" being part of it. *)
Theorem creditCard_iff :
  forall name : string,
    let n := toLowerCase name in
    getAccountType name = CreditCard
    <-> (~ occursIn "checking" n /\ ~ occursIn "spending" n
         /\ ~ occursIn "savings" n /\ ~ occursIn "reserve" n)
        /\ (occursIn "credit" n \/ occursIn "card" n
            \/ occursIn "visa" n \/ occursIn "amex" n).
Proof.
  intros name n. unfold getAccountType. fold n.
  rewrite <- !includes_false_iff, <- !includes_iff.
  pose proof (mastercard_card n) as Hm.
  destruct (includes n "checking"), (includes n "spending"),
    (includes n "savings"), (includes n "reserve");
    cbn [orb]; try (split; [ discriminate | intros [[? [? [? ?]]] _]; discriminate ]).
  destruct (includes n "credit"), (includes n "card"), (includes n "visa"),
    (includes n "amex"); cbn [orb];
    try (split; [ intros _ | reflexivity ]; repeat split; auto).
  destruct (includes n "mastercard").
  - specialize (Hm eq_refl). discriminate.
  - cbn [orb].
    destruct (includes n "investment" || includes n "brokerage"
              || includes n "ira" || includes n "401k");
      (split; [ discriminate | intros [_ [H | [H | [H | H]]]]; discriminate ]).
Qed.

(** X16. The class of an account does not depend on the case of the
    letters of its name: two names that are equal in lower case have
    the same class, and a name has the class of its lower case. *)
Theorem getAccountType_ignores_case :
  forall name : string,
    getAccountType (toLowerCase name) = getAccountType name
    /\ forall other : string,
        toLowerCase other = toLowerCase name ->
        getAccountType other = getAccountType name.
Proof.
  intros name. split.
  - unfold getAccountType. rewrite toLowerCase_idempotent. reflexivity.
  - intros other H. unfold getAccountType. rewrite H. reflexivity.
Qed.

(** ** The clock *)

Section Clock.

Variable all : list NormTx.
Variables monthAgo1 monthAgo2 : float.

Lemma addToGroup_same_groups (s1 s2 : LoopState) (t : NormTx) :
  st_subGroups s1 = st_subGroups s2 ->
  bothEnd (fun a b => st_subGroups a = st_subGroups b)
          (addToGroup all s1 t) (addToGroup all s2 t).
Proof.
  intros E. unfold addToGroup. rewrite E.
  destruct (isGrouped all t); [ | exact E ].
  destruct (JSObject.getOwn (st_subGroups s2) _); [ reflexivity | ].
  destruct (JSObject.inherited _); [ exact I | reflexivity ].
Qed.

Lemma forEach_same_groups (l : list NormTx) :
  forall s1 s2 : LoopState,
    st_subGroups s1 = st_subGroups s2 ->
    bothEnd (fun a b => st_subGroups a = st_subGroups b)
            (forEach (body monthAgo1 all) l s1)
            (forEach (body monthAgo2 all) l s2).
Proof.
  induction l as [ | t l IH]; intros s1 s2 E; cbn [forEach]; [ exact E | ].
  unfold body at 1 3.
  pose proof (addToGroup_same_groups
                (addSpending monthAgo1 all s1 t)
                (addSpending monthAgo2 all s2 t) t) as H.
  rewrite !addSpending_subGroups in H. specialize (H E).
  destruct (addToGroup all (addSpending monthAgo1 all s1 t) t) as [a | ],
    (addToGroup all (addSpending monthAgo2 all s2 t) t) as [b | ];
    cbn [bothEnd] in H; try contradiction; [ | exact I ].
  apply IH. exact H.
Qed.

End Clock.

(** X17. The subscriptions, the net worth, the assets and the
    liabilities do not depend on the clock: at two values of
    [Date.now()], [stats] ends by the [TypeError] both times, or gives
    two reports that agree on them.  Only the 30-day total and its
    breakdown read the clock. *)
Theorem subscriptions_ignore_clock :
  forall (parseFloat : string -> float) (data : SimpleFINData)
         (dateNow1 dateNow2 : float),
    bothEnd (fun r1 r2 =>
               subscriptions r1 = subscriptions r2
               /\ netWorth r1 = netWorth r2
               /\ assets r1 = assets r2
               /\ liabilities r1 = liabilities r2)
            (stats parseFloat (Some data) dateNow1)
            (stats parseFloat (Some data) dateNow2).
Proof.
  intros parseFloat data dateNow1 dateNow2. unfold stats.
  pose proof (forEach_same_groups
                (allTransactions parseFloat data)
                (dateNow1 / 1000 - 30 * 24 * 60 * 60)
                (dateNow2 / 1000 - 30 * 24 * 60 * 60)
                (allTransactions parseFloat data)
                initialState initialState eq_refl) as H.
  destruct (forEach (body (dateNow1 / 1000 - 30 * 24 * 60 * 60) _) _ _) as [a | ],
    (forEach (body (dateNow2 / 1000 - 30 * 24 * 60 * 60) _) _ _) as [b | ];
    cbn [bothEnd] in H |- *; try contradiction; [ | exact I ].
  cbn [subscriptions netWorth assets liabilities]. rewrite H.
  repeat split.
Qed.

(** ** Finite amounts *)

Section Finite.

Import JSNumber Binary64.

Lemma Prim2SF_infinity : Prim2SF infinity = S754_infinity false.
Proof. reflexivity. Qed.

(** No amount is within the tolerance of an infinite average. *)
Lemma infinite_average (avg a : float) (s : bool) :
  Prim2SF avg = S754_infinity s -> withinTolerance avg a = false.
Proof.
  intros E. unfold withinTolerance.
  rewrite !ltb_spec, div_spec, !abs_spec, sub_spec, E.
  destruct (Prim2SF a) as [sa | sa | | sa ma ea], s; try destruct sa;
    reflexivity.
Qed.

(** A number above 1 is below infinity, or it is infinity. *)
Lemma above_one_cases (x : float) :
  (1 <? x) = true ->
  (x <? infinity) = true \/ Prim2SF x = S754_infinity false.
Proof.
  intros H. pose proof (above_one_units x H) as U. unfold units in U.
  rewrite ltb_spec, Prim2SF_infinity.
  destruct (Prim2SF x) as [sx | sx | | sx mx ex]; cbn [rounded] in U;
    try contradiction.
  - subst sx. right. reflexivity.
  - destruct U as [-> _]. left. reflexivity.
Qed.

End Finite.

(** X18. The amount of a reported subscription is a finite number
    above 1: no amount is within the tolerance of an infinite
    average. *)
Theorem reported_amount_finite :
  forall (parseFloat : string -> float) (data : SimpleFINData)
         (dateNow : float) (r : Report),
    stats parseFloat (Some data) dateNow = Normal r ->
    forall s, In s (subscriptions r) ->
              (1 <? amount s) = true /\ (amount s <? infinity) = true.
Proof.
  intros parseFloat data dateNow r H s Hs.
  destruct (stats_built parseFloat data dateNow r H)
    as [st [_ [_ [Hsubs _]]]].
  rewrite Hsubs in Hs. apply reported_subset in Hs.
  apply In_rawSubscriptions in Hs. destruct Hs as [k [members [_ Hc]]].
  pose proof (candidate_amount k members s Hc) as [Habove _].
  split; [ exact Habove | ].
  destruct (above_one_cases (amount s) Habove) as [Hfin | Hinf];
    [ exact Hfin | exfalso ].
  apply candidate_spec in Hc.
  destruct Hc as [Hlen [[Hcons _] [newest [_ ->]]]].
  cbn [amount recordOf] in Hinf.
  destruct members as [ | t members']; [ cbn in Hlen; lia | ].
  specialize (Hcons t (or_introl eq_refl)).
  apply withinTolerance_iff in Hcons.
  rewrite (infinite_average _ _ _ Hinf) in Hcons. discriminate.
Qed.

Lemma reported_amount_finite_witness :
  exists r : Report,
    stats Decimal.parseDecimal (Some SubscriptionExamples.groceryData)
          Examples.dateNow = Normal r
    /\ map amount (subscriptions r) = [120]
    /\ forall s, In s (subscriptions r) ->
                 (1 <? amount s) = true /\ (amount s <? infinity) = true.
Proof.
  eexists. split; [ vm_compute; reflexivity | ].
  split; [ vm_compute; reflexivity | ].
  apply (reported_amount_finite
           Decimal.parseDecimal SubscriptionExamples.groceryData
           Examples.dateNow).
  vm_compute. reflexivity.
Defined.

(** ** Data without transactions *)

Lemma flat_map_all_nil {A B : Type} (f : A -> list B) (l : list A) :
  (forall x, In x l -> f x = []) -> flat_map f l = [].
Proof.
  induction l as [ | x l IH]; intros H; cbn [flat_map]; [ reflexivity | ].
  rewrite (H x (or_introl eq_refl)), IH; [ reflexivity | ].
  intros y Hy. apply H. right. exact Hy.
Qed.

Lemma transactionsOf_none (acc : Account) :
  acc_transactions acc = None \/ acc_transactions acc = Some [] ->
  transactionsOf acc = [].
Proof. unfold transactionsOf. intros [-> | ->]; reflexivity. Qed.

(** X19. When no account has a transaction, the field missing or
    the list empty, [stats] returns the totals of the balances with a
    30-day total of [0], an empty breakdown and no subscription, and
    the panel of the recent activity has no row. *)
Theorem no_transactions_report :
  forall (parseFloat : string -> float) (data : SimpleFINData)
         (dateNow : float),
    (forall acc, In acc (accounts data) ->
                 acc_transactions acc = None \/ acc_transactions acc = Some []) ->
    stats parseFloat (Some data) dateNow
    = Normal {| netWorth := tot_netWorth (totals parseFloat (accounts data));
                assets := tot_assets (totals parseFloat (accounts data));
                liabilities := tot_liabilities (totals parseFloat (accounts data));
                spending30d := 0;
                spendingByAccount := [];
                subscriptions := [] |}
    /\ recentActivity data = [].
Proof.
  intros parseFloat data dateNow H.
  assert (E : allTransactions parseFloat data = []).
  { unfold allTransactions. apply flat_map_all_nil. intros acc Hacc.
    rewrite (transactionsOf_none acc (H acc Hacc)). reflexivity. }
  split.
  - unfold stats. rewrite E. reflexivity.
  - unfold recentActivity, allTxs.
    rewrite (flat_map_all_nil (fun acc => map (activityOf acc) (transactionsOf acc)));
      [ reflexivity | ].
    intros acc Hacc. rewrite (transactionsOf_none acc (H acc Hacc)). reflexivity.
Qed.

Lemma no_transactions_report_witness :
  exists r : Report,
    stats Decimal.parseDecimal (Some DashboardExamples.fiveAccounts)
          Examples.dateNow = Normal r
    /\ netWorth r = 74230.5
    /\ spending30d r = 0 /\ spendingByAccount r = [] /\ subscriptions r = [].
Proof.
  destruct (no_transactions_report
              Decimal.parseDecimal DashboardExamples.fiveAccounts
              Examples.dateNow) as [W _].
  - intros acc [<- | [<- | [<- | [<- | [<- | []]]]]]; right; reflexivity.
  - eexists. split; [ exact W | ].
    split; [ vm_compute; reflexivity | repeat split ].
Defined.

(** ** The order of the panel of the accounts *)

Section ConsistentComparator.

Import JSNumber SortFacts.

Context {A : Type}.
Variable cmp : A -> A -> float.

(** The comparator is consistent: "before" is asymmetric, and "not
    after" is transitive. *)
Hypothesis cmp_asym :
  forall a b, (cmp a b <? 0) = true -> (cmp b a <? 0) = false.
Hypothesis cmp_trans :
  forall a b c,
    (cmp b a <? 0) = false -> (cmp c b <? 0) = false -> (cmp c a <? 0) = false.

Lemma insertSorted_consistent (x : A) (l : list A) :
  StronglySorted (fun a b => (cmp b a <? 0) = false) l ->
  StronglySorted (fun a b => (cmp b a <? 0) = false) (insertSorted cmp x l).
Proof.
  intros Hs. induction Hs as [ | y l Hs IH Hy]; cbn [insertSorted].
  - constructor; constructor.
  - destruct (cmp y x <? 0) eqn:E.
    + constructor; [ exact IH | ].
      apply (Permutation_Forall (Permutation_sym (insertSorted_perm cmp x l))).
      constructor; [ apply cmp_asym; exact E | exact Hy ].
    + constructor; [ constructor; assumption | ].
      constructor; [ exact E | ].
      eapply Forall_impl; [ | exact Hy ].
      intros z Hz. cbn beta in Hz. apply (cmp_trans x y z E Hz).
Qed.

Lemma sort_consistent (l : list A) :
  StronglySorted (fun a b => (cmp b a <? 0) = false) (sort cmp l).
Proof.
  induction l as [ | x l IH]; cbn [sort fold_right]; [ constructor | ].
  fold (sort cmp l). apply insertSorted_consistent. exact IH.
Qed.

End ConsistentComparator.

Lemma StronglySorted_map {A B : Type} (f : A -> B) (R : B -> B -> Prop)
      (l : list A) :
  StronglySorted (fun a b => R (f a) (f b)) l -> StronglySorted R (map f l).
Proof.
  intros H. induction H as [ | x l Hs IH Hx]; cbn [map]; constructor.
  - exact IH.
  - apply Forall_forall. intros y Hy. apply in_map_iff in Hy.
    destruct Hy as [z [<- Hz]]. rewrite Forall_forall in Hx. apply Hx. exact Hz.
Qed.

Section PanelOrder.

Variable localeCompare : string -> string -> float.

Lemma typeSection_slot (bankAccounts : list Account) (type : AccountType) :
  typeSection localeCompare bankAccounts type = None
  \/ typeSection localeCompare bankAccounts type
     = Some (type,
             JSNumber.sort (byAccountName localeCompare)
               (filter (fun a => sameType (getAccountType (acc_name a)) type)
                       bankAccounts)).
Proof.
  unfold typeSection.
  destruct (List.length _ =? 0)%nat; [ left | right ]; reflexivity.
Qed.

End PanelOrder.

(** X20. For a locale whose comparison is consistent ("before" is
    asymmetric and "not after" is transitive), the panel of the
    accounts is in the order of the locale: no bank comes before a bank
    that the locale puts before it, the sections of a bank are those of
    the classes Checking, Savings, Credit Card, Investment and Other in
    this order, the empty ones left out, and in a section no account
    comes before an account whose name the locale puts before its
    name. *)
Theorem accountsPanel_sorted :
  forall (localeCompare : string -> string -> float) (data : SimpleFINData)
         (panel : list (string * list (option (AccountType * list Account)))),
    (forall a b, (localeCompare a b <? 0) = true ->
                 (localeCompare b a <? 0) = false) ->
    (forall a b c, (localeCompare b a <? 0) = false ->
                   (localeCompare c b <? 0) = false ->
                   (localeCompare c a <? 0) = false) ->
    accountsPanel localeCompare data = Normal panel ->
    StronglySorted (fun a b => (localeCompare b a <? 0) = false)
                   (map fst panel)
    /\ (forall bankName sections,
           In (bankName, sections) panel ->
           Forall2 (fun type section =>
                      section = None
                      \/ exists accs,
                          section = Some (type, accs)
                          /\ StronglySorted
                               (fun a b => (localeCompare b a <? 0) = false)
                               (map acc_name accs))
                   accountTypes sections).
Proof.
  intros localeCompare data panel Hasym Htrans. unfold accountsPanel.
  destruct (bankGroups data) as [groups | ]; [ | discriminate ].
  intros H. injection H as <-. split.
  - rewrite map_map. cbn [fst]. apply StronglySorted_map.
    apply (sort_consistent (byBankName localeCompare)).
    + intros a b. apply Hasym.
    + intros a b c. apply Htrans.
  - intros bankName sections Hin. apply in_map_iff in Hin.
    destruct Hin as [[k bankAccounts] [Heq _]]. cbn [fst snd] in Heq.
    injection Heq as _ <-.
    unfold accountTypes. cbn [map].
    repeat (constructor;
            [ match goal with
              | |- typeSection _ _ ?ty = None \/ _ =>
                  destruct (typeSection_slot localeCompare bankAccounts ty)
                    as [-> | ->]; [ left; reflexivity | right ]
              end;
              eexists; split; [ reflexivity | ];
              apply StronglySorted_map;
              apply (sort_consistent (byAccountName localeCompare));
              [ intros a b; apply Hasym | intros a b c; apply Htrans ]
            | ]).
    constructor.
Qed.

Section CodeUnits.

Import DashboardExamples.

Lemma codeUnitCompare_before (a b : string) :
  (codeUnitCompare a b <? 0) = true <-> String.compare a b = Lt.
Proof.
  unfold codeUnitCompare.
  destruct (String.compare a b); split; intros H; try reflexivity;
    try discriminate; vm_compute in H; discriminate.
Qed.

Lemma codeUnitCompare_not_before (a b : string) :
  (codeUnitCompare a b <? 0) = false <-> String.compare a b <> Lt.
Proof.
  rewrite <- codeUnitCompare_before.
  destruct (codeUnitCompare a b <? 0); split; congruence.
Qed.

Lemma codeUnitCompare_asym (a b : string) :
  (codeUnitCompare a b <? 0) = true -> (codeUnitCompare b a <? 0) = false.
Proof.
  rewrite codeUnitCompare_before, codeUnitCompare_not_before.
  rewrite (String.compare_antisym a b). intros H.
  destruct (String.compare b a); cbn in H; congruence.
Qed.

Lemma codeUnitCompare_trans (a b c : string) :
  (codeUnitCompare b a <? 0) = false -> (codeUnitCompare c b <? 0) = false ->
  (codeUnitCompare c a <? 0) = false.
Proof.
  rewrite !codeUnitCompare_not_before. intros Hba Hcb Hca.
  destruct (String.compare c b) eqn:E; [ | congruence | ].
  - apply String.compare_eq_iff in E. subst c. contradiction.
  - apply Hba. apply OrderedTypeEx.String_as_OT.cmp_lt.
    apply (OrderedTypeEx.String_as_OT.lt_trans b c a).
    + apply OrderedTypeEx.String_as_OT.cmp_lt.
      unfold OrderedTypeEx.String_as_OT.cmp.
      rewrite (String.compare_antisym b c), E. reflexivity.
    + apply OrderedTypeEx.String_as_OT.cmp_lt. exact Hca.
Qed.

End CodeUnits.

Lemma accountsPanel_sorted_witness :
  exists panel,
    accountsPanel DashboardExamples.codeUnitCompare
                  DashboardExamples.fiveAccounts = Normal panel
    /\ map fst panel
       = ["American Express"; "Chase Bank"; "Fidelity Investments";
          "Other Institutions"]
    /\ StronglySorted
         (fun a b => (DashboardExamples.codeUnitCompare b a <? 0) = false)
         (map fst panel).
Proof.
  eexists. split; [ vm_compute; reflexivity | ].
  split; [ vm_compute; reflexivity | ].
  match goal with
  | |- StronglySorted _ (map fst ?panel) =>
      destruct (accountsPanel_sorted
                  DashboardExamples.codeUnitCompare
                  DashboardExamples.fiveAccounts panel
                  codeUnitCompare_asym codeUnitCompare_trans) as [W _];
      [ vm_compute; reflexivity | exact W ]
  end.
Defined.
